(** * FloraSeven server: connection health monitoring

    A shallow embedding of [Server/connection_status.py] (the activity
    ledger and the state classifier), of the thresholds of
    [Server/config.py] and of [Server/connection_monitor.py] (the
    [ConnectionMonitor] class), followed by the properties of the
    connection-health subsystem.

    Conventions of the embedding.
    - A naive [datetime] is the number of microseconds since a fixed
      epoch, a [timedelta] a number of microseconds; both are [Z].
      [total_seconds] is the exact rational number of seconds, and the
      Python floats that hold seconds and percentages are modelled by
      exact rationals ([Q]).
    - [datetime.now()] is an effect: it reads the next value of a wall
      clock [clk : nat -> datetime]; the number of readings made so far
      is part of the state.
    - A Python dict used as a map is a [gmap]; the component registry,
      whose iteration order matters, is an association list in
      insertion order.
    - A raised exception is a left injection; the state reached when it
      was raised is kept, as in Python.
    - Timestamps kept as ISO strings ([isoformat] / [fromisoformat]) are
      kept as the [datetime] they denote: the round trip is the
      identity and, for the fixed-width format, the order on the
      strings is the order on the instants. *)

From Stdlib Require Import ZArith QArith Lia Lqa Sorted.
From stdpp Require Import gmap strings list pretty.

Local Open Scope Z_scope.

(** ** Python values and exceptions *)

Inductive PyExc : Set :=
  | ImportError
  | TypeError
  | AttributeError
  | KeyError.

Abbreviation datetime := Z.
Abbreviation timedelta := Z.

(** [timedelta.total_seconds()]. *)
Definition total_seconds (d : timedelta) : Q := d # 1000000.

(** [int(x)] on a float: truncation towards zero. *)
Definition int_of_float (x : Q) : Z := Z.quot (Qnum x) (Zpos (Qden x)).

(** [timedelta(hours=h)] and [timedelta(days=d)]. *)
Definition timedelta_hours (h : Z) : timedelta := h * 3600 * 1000000.
Definition timedelta_days (d : Z) : timedelta := d * 86400 * 1000000.

(** [x < y] on numbers, as a boolean. *)
Definition Qltb (x y : Q) : bool := negb (Qle_bool y x).

(** ** [config.py]: connection monitoring settings *)

Record Config : Set := mkConfig {
  CONNECTION_CHECK_INTERVAL : Z;
  CONNECTION_NOTIFICATION_COOLDOWN : Z;
  TIMEOUT_WARNING : Z;
  TIMEOUT_ERROR : Z;
  TIMEOUT_CRITICAL : Z
}.

(** The values [config.py] takes when the environment sets none. *)
Definition default_config : Config :=
  {| CONNECTION_CHECK_INTERVAL := 60;
     CONNECTION_NOTIFICATION_COOLDOWN := 300;
     TIMEOUT_WARNING := 300;
     TIMEOUT_ERROR := 600;
     TIMEOUT_CRITICAL := 1800 |}.

(** ** [connection_status.py] *)

Module connection_status.

Definition CONNECTION_STATE_ONLINE : string := "online".
Definition CONNECTION_STATE_WARNING : string := "warning".
Definition CONNECTION_STATE_ERROR : string := "error".
Definition CONNECTION_STATE_CRITICAL : string := "critical".
Definition CONNECTION_STATE_UNKNOWN : string := "unknown".

Record Metadata : Set := mkMetadata {
  md_name : string;
  md_type : string;
  md_description : string
}.

(** [_component_metadata]. *)
Definition _component_metadata (component_id : string) : option Metadata :=
  if String.eqb component_id "server" then
    Some (mkMetadata "FloraSeven Server" "server" "Main server application")
  else if String.eqb component_id "mqtt_client" then
    Some (mkMetadata "MQTT Client" "service" "MQTT messaging service")
  else if String.eqb component_id "plant_node_node1" then
    Some (mkMetadata "Plant Node 1" "hardware" "ESP32 WROOM with sensors")
  else if String.eqb component_id "hub_node_hub1" then
    Some (mkMetadata "Hub Node 1" "hardware" "ESP32-CAM with R4 Minima")
  else if String.eqb component_id "camera_hub1" then
    Some (mkMetadata "Camera (Hub 1)" "sensor" "ESP32-CAM camera module")
  else None.

(** The dict returned by [get_component_status] and stored in
    [_component_status]. *)
Record Status : Set := mkStatus {
  status : string;
  last_activity : option datetime;
  time_since_last_activity : option Q;
  message : string;
  metadata : option Metadata
}.

(** The module-level dictionaries. *)
Record Module_state : Type := mkModule {
  _component_last_activity : gmap string datetime;
  _component_status : gmap string Status;
  _last_notification : gmap string datetime
}.

Definition empty_module : Module_state :=
  {| _component_last_activity := ∅;
     _component_status := ∅;
     _last_notification := ∅ |}.

(** [record_component_activity(component_id)], at clock reading [now]. *)
Definition record_component_activity
    (component_id : string) (now : datetime) (s : Module_state) : Module_state :=
  {| _component_last_activity := <[component_id := now]> (_component_last_activity s);
     _component_status :=
       <[component_id :=
           {| status := CONNECTION_STATE_ONLINE;
              last_activity := Some now;
              time_since_last_activity := None;
              message := "Component is online";
              metadata := _component_metadata component_id |}]>
         (_component_status s);
     _last_notification := _last_notification s |}.

(** A call of [record_component_activity] with a list of positional
    arguments: the function has exactly one parameter, and Python raises
    [TypeError] for any other number of arguments. *)
Definition call_record_component_activity
    (args : list string) (now : datetime) (s : Module_state)
    : PyExc + Module_state :=
  match args with
  | [component_id] => inr (record_component_activity component_id now s)
  | _ => inl TypeError
  end.

(** [get_component_status(component_id)], at clock reading [now], with
    the thresholds of [config]. *)
Definition get_component_status
    (cfg : Config) (component_id : string) (now : datetime) (s : Module_state)
    : Status :=
  match _component_last_activity s !! component_id with
  | None =>
      {| status := CONNECTION_STATE_UNKNOWN;
         last_activity := None;
         time_since_last_activity := None;
         message := "No activity recorded for this component";
         metadata := None |}
  | Some last =>
      let elapsed := total_seconds (now - last) in
      let '(st, msg) :=
        if Qltb elapsed (inject_Z (TIMEOUT_WARNING cfg)) then
          (CONNECTION_STATE_ONLINE, "Component is online")
        else if Qltb elapsed (inject_Z (TIMEOUT_ERROR cfg)) then
          (CONNECTION_STATE_WARNING,
           "Component has not reported in " +:+ pretty (int_of_float elapsed)
             +:+ " seconds")
        else if Qltb elapsed (inject_Z (TIMEOUT_CRITICAL cfg)) then
          (CONNECTION_STATE_ERROR,
           "Component may be offline (last activity: "
             +:+ pretty (int_of_float elapsed) +:+ " seconds ago)")
        else
          (CONNECTION_STATE_CRITICAL,
           "Component is offline (last activity: "
             +:+ pretty (int_of_float elapsed) +:+ " seconds ago)") in
      {| status := st;
         last_activity := Some last;
         time_since_last_activity := Some elapsed;
         message := msg;
         metadata := _component_metadata component_id |}
  end.

(** The elapsed time the classification is computed from: nothing when
    the component has no recorded activity. *)
Definition elapsed_since
    (component_id : string) (now : datetime) (s : Module_state) : option Q :=
  (λ last, total_seconds (now - last)) <$> _component_last_activity s !! component_id.

(** The names bound at the top level of the module: its imports, its
    constants and dictionaries, and its functions, in source order. *)
Definition module_names : list string :=
  [ "logging"; "threading"; "time"; "json"; "os"; "uuid";
    "datetime"; "timedelta"; "config"; "database"; "logger";
    "CONNECTION_STATE_ONLINE"; "CONNECTION_STATE_WARNING";
    "CONNECTION_STATE_ERROR"; "CONNECTION_STATE_CRITICAL";
    "CONNECTION_STATE_UNKNOWN";
    "_component_last_activity"; "_component_status"; "_lock";
    "_last_notification"; "_component_metadata"; "_sensor_metadata";
    "record_component_activity"; "get_component_status";
    "get_all_component_status"; "check_components"; "_send_email_alert";
    "start_monitoring"; "save_status_to_file"; "load_status_from_file";
    "initialize"; "_server_start_time" ].

End connection_status.

(** ** [connection_monitor.py] *)

Module connection_monitor.

Import connection_status.

(** *** The import statement at the head of the module

    [from connection_status import (...)]: each name is looked up among
    the names the module binds, and a name that is not bound raises
    [ImportError]. *)

Definition imported_names : list string :=
  [ "CONNECTION_STATE_ONLINE"; "CONNECTION_STATE_WARNING";
    "CONNECTION_STATE_ERROR"; "CONNECTION_STATE_CRITICAL";
    "CONNECTION_STATE_UNKNOWN"; "record_component_activity";
    "get_connection_status" ].

Definition from_import (bound names : list string) : PyExc + unit :=
  if forallb (λ n, bool_decide (n ∈ bound)) names then inr tt
  else inl ImportError.

Definition import_connection_status : PyExc + unit :=
  from_import module_names imported_names.

(** *** Constants *)

Definition COMPONENT_TYPE_HUB : string := "hub".
Definition COMPONENT_TYPE_PLANT_NODE : string := "plant_node".
Definition COMPONENT_TYPE_CAMERA : string := "camera".
Definition COMPONENT_TYPE_SENSOR : string := "sensor".

Definition MONITOR_STATE_ACTIVE : string := "active".
Definition MONITOR_STATE_PAUSED : string := "paused".
Definition MONITOR_STATE_STOPPED : string := "stopped".

Definition HISTORY_RETENTION_DAYS : Z := 7.

(** *** Data *)

(** An entry of a component's ["connection_history"]. *)
Record HistoryEntry : Set := mkHistoryEntry {
  h_state : string;
  h_timestamp : datetime;
  h_message : string
}.

(** A value of the component registry. *)
Record Component : Set := mkComponent {
  c_id : string;
  c_type : string;
  c_name : string;
  c_critical : bool;
  c_expected_interval : Z;
  c_parent : option string;
  c_last_seen : option datetime;
  c_state : string;
  c_message : string;
  c_consecutive_failures : Z;
  c_uptime_percentage : Q;
  c_connection_history : list HistoryEntry
}.

(** An entry of [_event_history]. *)
Record Event : Set := mkEvent {
  e_component_id : string;
  e_component_name : string;
  e_component_type : string;
  e_previous_state : string;
  e_new_state : string;
  e_timestamp : datetime;
  e_message : string
}.

(** The arguments of one call of [_send_notification]. *)
Record Notification : Set := mkNotification {
  n_component_id : string;
  n_severity : string;
  n_message : string
}.

(** The registry is a dict, iterated in insertion order. *)
Abbreviation Registry := (list (string * Component)).

(** The attributes of a [ConnectionMonitor].  [_lock] and
    [_event_callbacks] are left out: the operations below are the
    critical sections taken one at a time, and every callback is called
    under its own [try]/[except]. *)
Record Monitor : Type := mkMonitor {
  _state : string;
  _thread : bool;
  _check_interval : Z;
  _component_registry : Registry;
  _event_history : list Event;
  _last_notification_time : gmap string datetime;
  _notification_cooldown : Z;
  _timeout_warning : option Z;
  _timeout_error : option Z;
  _timeout_critical : option Z
}.

(** What the monitor acts on: itself, the dictionaries of
    [connection_status], the calls of [_send_notification] made so far
    (oldest first), the number of status snapshots handed to the
    database, and the number of clock readings made so far. *)
Record World : Type := mkWorld {
  monitor : Monitor;
  ledger : Module_state;
  sent : list Notification;
  snapshots : nat;
  reads : nat
}.

(** *** Registry access *)

(** [registry[k]] / [k in registry]. *)
Fixpoint registry_get (k : string) (r : Registry) : option Component :=
  match r with
  | [] => None
  | (k', c) :: r' => if String.eqb k k' then Some c else registry_get k r'
  end.

(** [registry[k] = v]: an existing key keeps its place. *)
Fixpoint registry_set (k : string) (v : Component) (r : Registry) : Registry :=
  match r with
  | [] => [(k, v)]
  | (k', c) :: r' =>
      if String.eqb k k' then (k, v) :: r' else (k', c) :: registry_set k v r'
  end.

(** An in-place update of the dict [registry[k]]. *)
Fixpoint registry_alter (f : Component → Component) (k : string) (r : Registry)
    : Registry :=
  match r with
  | [] => []
  | (k', c) :: r' =>
      if String.eqb k k' then (k', f c) :: r' else (k', c) :: registry_alter f k r'
  end.

(** *** Field updates *)

Definition set_state (s : string) (m : Monitor) : Monitor :=
  mkMonitor s (_thread m) (_check_interval m) (_component_registry m)
    (_event_history m) (_last_notification_time m) (_notification_cooldown m)
    (_timeout_warning m) (_timeout_error m) (_timeout_critical m).

Definition set_thread (t : bool) (m : Monitor) : Monitor :=
  mkMonitor (_state m) t (_check_interval m) (_component_registry m)
    (_event_history m) (_last_notification_time m) (_notification_cooldown m)
    (_timeout_warning m) (_timeout_error m) (_timeout_critical m).

Definition set_registry (r : Registry) (m : Monitor) : Monitor :=
  mkMonitor (_state m) (_thread m) (_check_interval m) r
    (_event_history m) (_last_notification_time m) (_notification_cooldown m)
    (_timeout_warning m) (_timeout_error m) (_timeout_critical m).

Definition set_event_history (h : list Event) (m : Monitor) : Monitor :=
  mkMonitor (_state m) (_thread m) (_check_interval m) (_component_registry m)
    h (_last_notification_time m) (_notification_cooldown m)
    (_timeout_warning m) (_timeout_error m) (_timeout_critical m).

Definition set_last_notification_time (t : gmap string datetime) (m : Monitor)
    : Monitor :=
  mkMonitor (_state m) (_thread m) (_check_interval m) (_component_registry m)
    (_event_history m) t (_notification_cooldown m)
    (_timeout_warning m) (_timeout_error m) (_timeout_critical m).

Definition with_component (f : Component → Component) (k : string) (m : Monitor)
    : Monitor :=
  set_registry (registry_alter f k (_component_registry m)) m.

Definition set_c_state (s : string) (c : Component) : Component :=
  mkComponent (c_id c) (c_type c) (c_name c) (c_critical c)
    (c_expected_interval c) (c_parent c) (c_last_seen c) s (c_message c)
    (c_consecutive_failures c) (c_uptime_percentage c) (c_connection_history c).

Definition set_c_message (s : string) (c : Component) : Component :=
  mkComponent (c_id c) (c_type c) (c_name c) (c_critical c)
    (c_expected_interval c) (c_parent c) (c_last_seen c) (c_state c) s
    (c_consecutive_failures c) (c_uptime_percentage c) (c_connection_history c).

Definition set_c_last_seen (t : option datetime) (c : Component) : Component :=
  mkComponent (c_id c) (c_type c) (c_name c) (c_critical c)
    (c_expected_interval c) (c_parent c) t (c_state c) (c_message c)
    (c_consecutive_failures c) (c_uptime_percentage c) (c_connection_history c).

Definition set_c_consecutive_failures (n : Z) (c : Component) : Component :=
  mkComponent (c_id c) (c_type c) (c_name c) (c_critical c)
    (c_expected_interval c) (c_parent c) (c_last_seen c) (c_state c) (c_message c)
    n (c_uptime_percentage c) (c_connection_history c).

Definition set_c_uptime_percentage (u : Q) (c : Component) : Component :=
  mkComponent (c_id c) (c_type c) (c_name c) (c_critical c)
    (c_expected_interval c) (c_parent c) (c_last_seen c) (c_state c) (c_message c)
    (c_consecutive_failures c) u (c_connection_history c).

Definition set_c_connection_history (h : list HistoryEntry) (c : Component)
    : Component :=
  mkComponent (c_id c) (c_type c) (c_name c) (c_critical c)
    (c_expected_interval c) (c_parent c) (c_last_seen c) (c_state c) (c_message c)
    (c_consecutive_failures c) (c_uptime_percentage c) h.

Definition set_monitor (m : Monitor) (w : World) : World :=
  mkWorld m (ledger w) (sent w) (snapshots w) (reads w).

Definition set_ledger (l : Module_state) (w : World) : World :=
  mkWorld (monitor w) l (sent w) (snapshots w) (reads w).

(** *** The value of [get_connection_status()]

    [connection_status.py] defines no function of that name (see
    [import_connection_status]); the tick is therefore written over the
    value the call would return, as far as the tick inspects it: a dict
    from component ids to status data, with the sensors grouped under
    the key ["sensors"] (taken apart from the component ids here: no
    registered id is ["sensors"]).  A status datum is a dict with the
    optional keys ["state"], ["message"] and ["last_connected"], or any
    other object, which has no [get] method. *)

Inductive IsoField : Set :=
  | IsoValid (t : datetime)
  | IsoInvalid.

Inductive PyValue : Set :=
  | PyDict (d_state : option string) (d_message : option string)
           (d_last_connected : option IsoField)
  | PyNone.

Record CurrentStatus : Type := mkCurrentStatus {
  cs_components : gmap string PyValue;
  cs_sensors : option (gmap string PyValue)
}.

(** The summary returned by [get_system_health_summary]. *)
Record HealthSummary : Set := mkHealthSummary {
  hs_timestamp : datetime;
  overall_health : string;
  total_components : nat;
  connected_components : nat;
  warning_components : nat;
  error_components : nat;
  critical_components_count : nat;
  unknown_components : nat;
  critical_components : nat;
  critical_disconnected : nat;
  average_uptime : Q
}.

(** *** Effects: state, exceptions and the clock *)

Definition M (A : Type) : Type := World → (PyExc + A) * World.

#[global] Instance M_ret : MRet M := λ A a w, (inr a, w).

#[global] Instance M_bind : MBind M :=
  λ A B k c w, match c w with
               | (inl e, w') => (inl e, w')
               | (inr a, w') => k a w'
               end.

Definition raise {A} (e : PyExc) : M A := λ w, (inl e, w).

(** [try: c except Exception: pass]. *)
Definition try_except (c : M unit) : M unit :=
  λ w, (inr tt, snd (c w)).

Definition get_monitor : M Monitor := λ w, (inr (monitor w), w).

Definition modify_monitor (f : Monitor → Monitor) : M unit :=
  λ w, (inr tt, set_monitor (f (monitor w)) w).

(** The notification leaves the monitor. *)
Definition emit_notification (n : Notification) : M unit :=
  λ w, (inr tt, mkWorld (monitor w) (ledger w) (sent w ++ [n]) (snapshots w) (reads w)).

(** The snapshot is handed to [database.store_connection_status]. *)
Definition store_connection_status : M unit :=
  λ w, (inr tt, mkWorld (monitor w) (ledger w) (sent w) (S (snapshots w)) (reads w)).

Section WithClock.

(** The wall clock: [clk n] is the value of the [n]-th call of
    [datetime.now()]. *)
Variable clk : nat → datetime.

Definition datetime_now : M datetime :=
  λ w, (inr (clk (reads w)),
        mkWorld (monitor w) (ledger w) (sent w) (snapshots w) (S (reads w))).

(** *** Construction *)

(** [_register_component]. *)
Definition _register_component
    (component_id component_type display_name : string)
    (critical : bool) (expected_interval : Z) (parent : option string)
    (m : Monitor) : Monitor :=
  set_registry
    (registry_set component_id
       {| c_id := component_id;
          c_type := component_type;
          c_name := display_name;
          c_critical := critical;
          c_expected_interval := expected_interval;
          c_parent := parent;
          c_last_seen := None;
          c_state := CONNECTION_STATE_UNKNOWN;
          c_message := "Not yet connected";
          c_consecutive_failures := 0;
          c_uptime_percentage := 0;
          c_connection_history := [] |}
       (_component_registry m)) m.

(** [_initialize_registry]. *)
Definition _initialize_registry (m : Monitor) : Monitor :=
  let m := _register_component "main_hub" COMPONENT_TYPE_HUB "Main Hub"
             true 60 None m in
  let m := _register_component "plant_node" COMPONENT_TYPE_PLANT_NODE "Plant Node"
             true 60 None m in
  let m := _register_component "camera" COMPONENT_TYPE_CAMERA "Camera"
             false 300 None m in
  let m := _register_component "moisture" COMPONENT_TYPE_SENSOR "Moisture Sensor"
             true 60 (Some "plant_node") m in
  let m := _register_component "temperature" COMPONENT_TYPE_SENSOR
             "Temperature Sensor" false 60 (Some "plant_node") m in
  let m := _register_component "light" COMPONENT_TYPE_SENSOR "Light Sensor"
             false 60 (Some "plant_node") m in
  let m := _register_component "ec" COMPONENT_TYPE_SENSOR "EC Sensor"
             false 60 (Some "plant_node") m in
  let m := _register_component "ph" COMPONENT_TYPE_SENSOR "pH Sensor"
             false 60 (Some "main_hub") m in
  _register_component "uv" COMPONENT_TYPE_SENSOR "UV Sensor"
    false 60 (Some "main_hub") m.

(** [_load_configuration]: the body of the [try] block; none of its
    statements can raise. *)
Definition _load_configuration (cfg : Config) (m : Monitor) : Monitor :=
  mkMonitor (_state m) (_thread m)
    (CONNECTION_CHECK_INTERVAL cfg)
    (_component_registry m) (_event_history m) (_last_notification_time m)
    (CONNECTION_NOTIFICATION_COOLDOWN cfg)
    (Some (TIMEOUT_WARNING cfg)) (Some (TIMEOUT_ERROR cfg))
    (Some (TIMEOUT_CRITICAL cfg)).

(** [ConnectionMonitor.__init__], under the settings [cfg] of [config]. *)
Definition ConnectionMonitor (cfg : Config) : Monitor :=
  let m := {| _state := MONITOR_STATE_STOPPED;
              _thread := false;
              _check_interval := 60;
              _component_registry := [];
              _event_history := [];
              _last_notification_time := ∅;
              _notification_cooldown := 300;
              _timeout_warning := None;
              _timeout_error := None;
              _timeout_critical := None |} in
  _initialize_registry (_load_configuration cfg m).

(** The process right after [connection_monitor = ConnectionMonitor()]. *)
Definition initial_world (cfg : Config) : World :=
  {| monitor := ConnectionMonitor cfg;
     ledger := empty_module;
     sent := [];
     snapshots := 0;
     reads := 0 |}.

(** *** Lifecycle *)

Definition start (m : Monitor) : bool * Monitor :=
  if negb (String.eqb (_state m) MONITOR_STATE_STOPPED) then (false, m)
  else (true, set_thread true (set_state MONITOR_STATE_ACTIVE m)).

Definition stop (m : Monitor) : bool * Monitor :=
  if String.eqb (_state m) MONITOR_STATE_STOPPED then (false, m)
  else (true, set_thread false (set_state MONITOR_STATE_STOPPED m)).

Definition pause (m : Monitor) : bool * Monitor :=
  if negb (String.eqb (_state m) MONITOR_STATE_ACTIVE) then (false, m)
  else (true, set_state MONITOR_STATE_PAUSED m).

Definition resume (m : Monitor) : bool * Monitor :=
  if negb (String.eqb (_state m) MONITOR_STATE_PAUSED) then (false, m)
  else (true, set_state MONITOR_STATE_ACTIVE m).

(** *** The periodic check *)

(** [self._component_registry[component_id]]. *)
Definition registry_lookup (component_id : string) : M Component :=
  λ w, match registry_get component_id (_component_registry (monitor w)) with
       | Some c => (inr c, w)
       | None => (inl KeyError, w)
       end.

(** [_send_notification]: the message is logged and handed to the
    database inside a [try] block whose failure is only logged. *)
Definition _send_notification (component_id severity message : string) : M unit :=
  emit_notification (mkNotification component_id severity message) ;;
  _ ← datetime_now;
  mret tt.

(** The branches of [_check_notification_needed] that set
    [send_notification]: the severity and the message, if any. *)
Definition notification_for (component : Component)
    (previous_state new_state : string) : option (string * string) :=
  if String.eqb new_state CONNECTION_STATE_ONLINE
     && (String.eqb previous_state CONNECTION_STATE_WARNING
         || String.eqb previous_state CONNECTION_STATE_ERROR
         || String.eqb previous_state CONNECTION_STATE_CRITICAL) then
    Some ("info", c_name component +:+ " has reconnected")
  else if String.eqb new_state CONNECTION_STATE_WARNING && c_critical component then
    Some ("warning",
          c_name component +:+ " connection is degraded: " +:+ c_message component)
  else if String.eqb new_state CONNECTION_STATE_ERROR
          || String.eqb new_state CONNECTION_STATE_CRITICAL then
    Some (if c_critical component then "error" else "warning",
          c_name component +:+ " has disconnected: " +:+ c_message component)
  else None.

(** The cooldown test of [_check_notification_needed]. *)
Definition in_cooldown (component_id : string) (now : datetime) (m : Monitor) : bool :=
  match _last_notification_time m !! component_id with
  | Some last =>
      Qltb (total_seconds (now - last)) (inject_Z (_notification_cooldown m))
  | None => false
  end.

(** [_check_notification_needed]. *)
Definition _check_notification_needed
    (component_id previous_state new_state : string) : M unit :=
  component ← registry_lookup component_id;
  now ← datetime_now;
  m ← get_monitor;
  if in_cooldown component_id now m then mret tt
  else
    match notification_for component previous_state new_state with
    | Some (severity, message) =>
        _send_notification component_id severity message ;;
        modify_monitor (λ m, set_last_notification_time
                               (<[component_id := now]> (_last_notification_time m)) m)
    | None => mret tt
    end.

(** [_handle_state_change]. *)
Definition _handle_state_change
    (component_id previous_state new_state : string) : M unit :=
  component ← registry_lookup component_id;
  now ← datetime_now;
  let event :=
    {| e_component_id := component_id;
       e_component_name := c_name component;
       e_component_type := c_type component;
       e_previous_state := previous_state;
       e_new_state := new_state;
       e_timestamp := now;
       e_message := c_message component |} in
  modify_monitor (λ m, set_event_history (_event_history m ++ [event]) m) ;;
  modify_monitor
    (with_component
       (λ c, set_c_connection_history
               (c_connection_history c
                  ++ [mkHistoryEntry new_state now (c_message component)]) c)
       component_id) ;;
  _check_notification_needed component_id previous_state new_state.

(** The update of ["consecutive_failures"] in [_update_component_status]. *)
Definition update_consecutive_failures (c : Component) : Component :=
  if String.eqb (c_state c) CONNECTION_STATE_ONLINE then
    set_c_consecutive_failures 0 c
  else if String.eqb (c_state c) CONNECTION_STATE_WARNING
          || String.eqb (c_state c) CONNECTION_STATE_ERROR
          || String.eqb (c_state c) CONNECTION_STATE_CRITICAL then
    set_c_consecutive_failures (c_consecutive_failures c + 1) c
  else c.

(** [_update_component_status]. *)
Definition _update_component_status
    (component_id : string) (status_data : PyValue) : M unit :=
  _ ← registry_lookup component_id;
  match status_data with
  | PyNone => raise AttributeError
  | PyDict st msg lc =>
      modify_monitor
        (with_component (set_c_state (default CONNECTION_STATE_UNKNOWN st))
           component_id) ;;
      match msg with
      | Some s => modify_monitor (with_component (set_c_message s) component_id)
      | None => mret tt
      end ;;
      match lc with
      | Some (IsoValid t) =>
          modify_monitor (with_component (set_c_last_seen (Some t)) component_id)
      | Some IsoInvalid =>
          now ← datetime_now;
          modify_monitor (with_component (set_c_last_seen (Some now)) component_id)
      | None => mret tt
      end ;;
      modify_monitor (with_component update_consecutive_failures component_id)
  end.

(** The status datum the loop body reads for a component, if any. *)
Definition status_data_for (current_status : CurrentStatus)
    (component : Component) (component_id : string) : option PyValue :=
  if String.eqb (c_type component) COMPONENT_TYPE_SENSOR then
    default ∅ (cs_sensors current_status) !! component_id
  else cs_components current_status !! component_id.

(** The body of the loop of [_check_all_components] for one component;
    the result tells whether its state changed. *)
Definition check_component (current_status : CurrentStatus)
    (component_id : string) : M bool :=
  component ← registry_lookup component_id;
  let previous_state := c_state component in
  match status_data_for current_status component component_id with
  | Some status_data => _update_component_status component_id status_data
  | None => mret tt
  end ;;
  component ← registry_lookup component_id;
  if negb (String.eqb (c_state component) previous_state) then
    _handle_state_change component_id previous_state (c_state component) ;;
    mret true
  else mret false.

(** The loop of [_check_all_components] over the registry's keys. *)
Fixpoint check_components_loop (current_status : CurrentStatus)
    (ids : list string) (status_changed : bool) : M bool :=
  match ids with
  | [] => mret status_changed
  | component_id :: rest =>
      changed ← check_component current_status component_id;
      check_components_loop current_status rest (status_changed || changed)
  end.

(** [history.sort(key=lambda h: h["timestamp"])]: a stable sort. *)
Fixpoint insert_by_timestamp (h : HistoryEntry) (l : list HistoryEntry)
    : list HistoryEntry :=
  match l with
  | [] => [h]
  | x :: r =>
      if h_timestamp h <=? h_timestamp x then h :: l
      else x :: insert_by_timestamp h r
  end.

Definition sort_by_timestamp (l : list HistoryEntry) : list HistoryEntry :=
  foldr insert_by_timestamp [] l.

(** The loop of [_calculate_metrics] over the sorted history: the pair
    of [connected_time] and [total_time]. *)
Fixpoint accumulate_times (now : datetime) (history : list HistoryEntry)
    (connected_time total_time : Q) : Q * Q :=
  match history with
  | [] => (connected_time, total_time)
  | h :: rest =>
      let end_time := match rest with
                      | [] => now
                      | h' :: _ => h_timestamp h'
                      end in
      let duration := total_seconds (end_time - h_timestamp h) in
      accumulate_times now rest
        (if String.eqb (h_state h) CONNECTION_STATE_ONLINE
         then (connected_time + duration)%Q else connected_time)
        (total_time + duration)%Q
  end.

(** The entries of the last 24 hours. *)
Definition last_24_hours (now : datetime) (l : list HistoryEntry)
    : list HistoryEntry :=
  filter (λ h, now - timedelta_hours 24 < h_timestamp h) l.

(** The body of the loop of [_calculate_metrics] for one component. *)
Definition calculate_component_metrics (now : datetime) (c : Component)
    : Component :=
  match c_connection_history c with
  | [] => c
  | _ :: _ =>
      let c1 :=
        match last_24_hours now (c_connection_history c) with
        | [] => c
        | history =>
            let '(connected_time, total_time) :=
              accumulate_times now (sort_by_timestamp history) 0%Q 0%Q in
            if Qltb 0 total_time then
              set_c_uptime_percentage ((connected_time / total_time) * 100)%Q c
            else c
        end in
      if (100 <? length (c_connection_history c1))%nat then
        set_c_connection_history
          (drop (length (c_connection_history c1) - 100)%nat
             (c_connection_history c1)) c1
      else c1
  end.

(** [_calculate_metrics]. *)
Definition _calculate_metrics : M unit :=
  now ← datetime_now;
  modify_monitor
    (λ m, set_registry
            (map (λ kc, (kc.1, calculate_component_metrics now kc.2))
               (_component_registry m)) m).

(** [_clean_history]. *)
Definition _clean_history : M unit :=
  now ← datetime_now;
  let cutoff := now - timedelta_days HISTORY_RETENTION_DAYS in
  modify_monitor
    (λ m, set_event_history
            (filter (λ e, cutoff < e_timestamp e) (_event_history m)) m).

(** [_store_status_snapshot]: everything happens inside a [try] block
    whose failure is only logged. *)
Definition _store_status_snapshot : M unit :=
  try_except (_ ← datetime_now; store_connection_status).

(** [_check_all_components], where [current_status] is the value of the
    call [get_connection_status()]. *)
Definition _check_all_components (current_status : CurrentStatus) : M unit :=
  _ ← datetime_now;
  m ← get_monitor;
  status_changed ←
    check_components_loop current_status (map fst (_component_registry m)) false;
  _calculate_metrics ;;
  _clean_history ;;
  if status_changed : bool then _store_status_snapshot else mret tt.

(** One turn of the [while] loop of [_monitoring_loop]; the sleep is not
    modelled. *)
Definition _monitoring_loop_iteration (current_status : CurrentStatus)
    (w : World) : World :=
  if negb (String.eqb (_state (monitor w)) MONITOR_STATE_STOPPED) then
    snd (try_except
           (if String.eqb (_state (monitor w)) MONITOR_STATE_ACTIVE
            then _check_all_components current_status else mret tt) w)
  else w.

(** *** Recording activity *)

(** A call of [record_component_activity] made by the monitor, with its
    positional arguments. *)
Definition call_record (args : list string) : M unit :=
  λ w, match call_record_component_activity args (clk (reads w)) (ledger w) with
       | inl e => (inl e, w)
       | inr l =>
           (inr tt, mkWorld (monitor w) l (sent w) (snapshots w) (S (reads w)))
       end.

(** [record_activity]. *)
Definition record_activity (component_id : string) : M unit :=
  m ← get_monitor;
  match registry_get component_id (_component_registry m) with
  | Some component =>
      if String.eqb (c_type component) COMPONENT_TYPE_SENSOR then
        call_record ["sensors"; component_id]
      else call_record [component_id]
  | None => mret tt
  end.

(** *** The health summary *)

(** [sum(1 for c in values if c["state"] == s)]. *)
Definition count_state (s : string) (r : Registry) : nat :=
  length (filter (λ kc, c_state kc.2 = s) r).

(** [get_system_health_summary], at clock reading [now]. *)
Definition get_system_health_summary (now : datetime) (m : Monitor)
    : HealthSummary :=
  let registry := _component_registry m in
  let total := length registry in
  let connected := count_state CONNECTION_STATE_ONLINE registry in
  let warning := count_state CONNECTION_STATE_WARNING registry in
  let error := count_state CONNECTION_STATE_ERROR registry in
  let critical_count := count_state CONNECTION_STATE_CRITICAL registry in
  let unknown := count_state CONNECTION_STATE_UNKNOWN registry in
  let critical := filter (λ kc, c_critical kc.2 = true) registry in
  let disconnected :=
    length (filter (λ kc, c_state kc.2 = CONNECTION_STATE_ERROR
                          ∨ c_state kc.2 = CONNECTION_STATE_CRITICAL) critical) in
  let overall :=
    if (0 <? disconnected)%nat || (0 <? critical_count)%nat then "critical"
    else if (0 <? error)%nat then "error"
    else if (0 <? warning)%nat then "warning"
    else if (unknown =? total)%nat then "unknown"
    else "healthy" in
  let uptime_values :=
    map (λ kc, c_uptime_percentage kc.2)
      (List.filter (λ kc, Qltb 0 (c_uptime_percentage kc.2)) registry) in
  let average :=
    match uptime_values with
    | [] => 0%Q
    | _ :: _ =>
        (fold_left Qplus uptime_values 0 / inject_Z (Z.of_nat (length uptime_values)))%Q
    end in
  {| hs_timestamp := now;
     overall_health := overall;
     total_components := total;
     connected_components := connected;
     warning_components := warning;
     error_components := error;
     critical_components_count := critical_count;
     unknown_components := unknown;
     critical_components := length critical;
     critical_disconnected := disconnected;
     average_uptime := average |}.

End WithClock.

End connection_monitor.

Import connection_status connection_monitor.

(** ** [connection_monitor.py]: the queries of the monitor *)

Module queries.

(** The dict [get_component_status] and [get_all_component_status] build
    for a component; ["last_seen"] is the ISO text of the instant, or
    [None]. *)
Record ComponentStatus : Set := mkComponentStatus {
  q_id : string;
  q_name : string;
  q_type : string;
  q_state : string;
  q_message : string;
  q_last_seen : option datetime;
  q_uptime_percentage : Q;
  q_critical : bool;
  q_consecutive_failures : Z
}.

Definition status_dict (component_id : string) (component : Component)
    : ComponentStatus :=
  {| q_id := component_id;
     q_name := c_name component;
     q_type := c_type component;
     q_state := c_state component;
     q_message := c_message component;
     q_last_seen := c_last_seen component;
     q_uptime_percentage := c_uptime_percentage component;
     q_critical := c_critical component;
     q_consecutive_failures := c_consecutive_failures component |}.

(** [get_component_status]. *)
Definition get_component_status (component_id : string) (m : Monitor)
    : option ComponentStatus :=
  match registry_get component_id (_component_registry m) with
  | Some component => Some (status_dict component_id component)
  | None => None
  end.

(** [get_all_component_status]: [result[component_id] = {...}] for each
    item of the registry. *)
Definition get_all_component_status (m : Monitor) : gmap string ComponentStatus :=
  foldl (λ result kc, <[kc.1 := status_dict kc.1 kc.2]> result) ∅
    (_component_registry m).

(** [sorted(events, key=lambda e: e["timestamp"], reverse=True)]: the
    sort is stable, so that events with the same timestamp keep their
    order; the ISO texts of two instants compare as the instants do. *)
Fixpoint insert_newest_first (e : Event) (l : list Event) : list Event :=
  match l with
  | [] => [e]
  | x :: r =>
      if e_timestamp x <=? e_timestamp e then e :: l
      else x :: insert_newest_first e r
  end.

Definition sorted_newest_first (l : list Event) : list Event :=
  foldr insert_newest_first [] l.

(** The slice [l[:limit]]: a negative [limit] counts from the end. *)
Definition slice_to {A} (limit : Z) (l : list A) : list A :=
  if 0 <=? limit then take (Z.to_nat limit) l
  else take (length l - Z.to_nat (- limit)) l.

(** [get_recent_events]. *)
Definition get_recent_events (limit : Z) (m : Monitor) : list Event :=
  slice_to limit (sorted_newest_first (_event_history m)).

End queries.

(** ** [connection_status.py]: the periodic check and the lock *)

Module checks.

(** An entry of [status_changes], a row of the table of connection
    events. *)
Record Change : Set := mkChange {
  ch_component_id : string;
  ch_component_name : string;
  ch_component_type : string;
  ch_previous_state : string;
  ch_new_state : string;
  ch_message : string;
  ch_timestamp : datetime
}.

(** The chain of comparisons of [check_components]: the new state and
    the message, if the component has been silent for long enough. *)
Definition degraded (cfg : Config) (time_since_last_activity : Q)
    : option (string * string) :=
  if Qle_bool (inject_Z (TIMEOUT_CRITICAL cfg)) time_since_last_activity then
    Some (CONNECTION_STATE_CRITICAL,
          "Component is offline (last activity: "
            +:+ pretty (int_of_float time_since_last_activity) +:+ " seconds ago)")
  else if Qle_bool (inject_Z (TIMEOUT_ERROR cfg)) time_since_last_activity then
    Some (CONNECTION_STATE_ERROR,
          "Component may be offline (last activity: "
            +:+ pretty (int_of_float time_since_last_activity) +:+ " seconds ago)")
  else if Qle_bool (inject_Z (TIMEOUT_WARNING cfg)) time_since_last_activity then
    Some (CONNECTION_STATE_WARNING,
          "Component has not reported in "
            +:+ pretty (int_of_float time_since_last_activity) +:+ " seconds")
  else None.

(** The body of the loop of [check_components] for one item of
    [_component_last_activity], as far as its decision: from the entries
    of the component in [_component_status] and [_last_notification], the
    dict to store and the change to record, if any.  [None] stands for
    the [continue] of the cooldown and for a state that is not new. *)
Definition status_change (cfg : Config) (now : datetime)
    (component_id : string) (last_activity : datetime)
    (stored : option Status) (notified : option datetime)
    : option (Status * Change) :=
  let time_since_last_activity := total_seconds (now - last_activity) in
  let component_name :=
    match _component_metadata component_id with
    | Some md => md_name md
    | None => component_id
    end in
  let component_type :=
    match _component_metadata component_id with
    | Some md => md_type md
    | None => "unknown"
    end in
  if match notified with
     | Some t =>
         Qltb (total_seconds (now - t))
           (inject_Z (CONNECTION_NOTIFICATION_COOLDOWN cfg))
     | None => false
     end
  then None
  else
    let previous_state :=
      match stored with
      | Some st => status st
      | None => CONNECTION_STATE_UNKNOWN
      end in
    match degraded cfg time_since_last_activity with
    | Some (new_state, message) =>
        if negb (String.eqb new_state previous_state) then
          Some ({| status := new_state;
                   connection_status.last_activity := Some last_activity;
                   connection_status.time_since_last_activity := None;
                   connection_status.message := message;
                   metadata := _component_metadata component_id |},
                {| ch_component_id := component_id;
                   ch_component_name := component_name;
                   ch_component_type := component_type;
                   ch_previous_state := previous_state;
                   ch_new_state := new_state;
                   ch_message := message;
                   ch_timestamp := now |})
        else None
    | None => None
    end.

(** The body of the loop for one item: the dictionaries and
    [status_changes] after it. *)
Definition check_item (cfg : Config) (now : datetime)
    (acc : Module_state * list Change) (item : string * datetime)
    : Module_state * list Change :=
  match status_change cfg now item.1 item.2
          (_component_status acc.1 !! item.1)
          (_last_notification acc.1 !! item.1) with
  | Some (st, change) =>
      ({| _component_last_activity := _component_last_activity acc.1;
          _component_status := <[item.1 := st]> (_component_status acc.1);
          _last_notification := <[item.1 := now]> (_last_notification acc.1) |},
       acc.2 ++ [change])
  | None => acc
  end.

(** The loop of [check_components] over [items], the items of
    [_component_last_activity] in the order of the dict: the
    dictionaries after it and the changes handed to the database. *)
Definition check_components_over (cfg : Config) (now : datetime)
    (items : list (string * datetime)) (s : Module_state)
    : Module_state * list Change :=
  foldl (check_item cfg now) (s, []) items.

(** The process: the dictionaries of the module, whether [_lock] is
    held, the number of clock readings and the changes handed to the
    database so far. *)
Record Process : Type := mkProcess {
  dicts : Module_state;
  lock_held : bool;
  clock_reads : nat;
  logged : list Change
}.

(** A call returns, or its thread waits for ever in [_lock.acquire()]:
    [_lock] is a [threading.Lock], which is not reentrant, and nothing
    but the end of a [with _lock] block releases it. *)
Inductive Outcome (A : Type) : Type :=
  | Returns (a : A) (p : Process)
  | Blocks (p : Process).

Arguments Returns {A} a p.
Arguments Blocks {A} p.

Definition L (A : Type) : Type := Process → Outcome A.

Definition bind {A B} (c : L A) (k : A → L B) : L B :=
  λ p, match c p with
       | Returns a p' => k a p'
       | Blocks p' => Blocks p'
       end.

Definition set_lock (b : bool) (p : Process) : Process :=
  mkProcess (dicts p) b (clock_reads p) (logged p).

(** [with _lock: body]. *)
Definition with_lock {A} (body : L A) : L A :=
  λ p, if lock_held p then Blocks p
       else match body (set_lock true p) with
            | Returns a p' => Returns a (set_lock false p')
            | Blocks p' => Blocks p'
            end.

Section WithClock.

Variable clk : nat → datetime.
Variable cfg : Config.

(** [record_component_activity]. *)
Definition record_component_activity (component_id : string) : L unit :=
  with_lock
    (λ p, Returns tt
            (mkProcess
               (connection_status.record_component_activity component_id
                  (clk (clock_reads p)) (dicts p))
               (lock_held p) (S (clock_reads p)) (logged p))).

(** [get_component_status]: the clock is read for a component with a
    recorded activity only. *)
Definition get_component_status (component_id : string) : L Status :=
  with_lock
    (λ p, Returns
            (connection_status.get_component_status cfg component_id
               (clk (clock_reads p)) (dicts p))
            (match _component_last_activity (dicts p) !! component_id with
             | Some _ =>
                 mkProcess (dicts p) (lock_held p) (S (clock_reads p)) (logged p)
             | None => p
             end)).

(** The loop of [get_all_component_status]. *)
Fixpoint collect (ids : list string) (result : gmap string Status)
    : L (gmap string Status) :=
  match ids with
  | [] => λ p, Returns result p
  | component_id :: rest =>
      bind (get_component_status component_id)
        (λ st, collect rest (<[component_id := st]> result))
  end.

(** [get_all_component_status]: the loop runs inside [with _lock] and
    calls [get_component_status], which takes the lock itself.  The keys
    are taken in the order of the map; the result, a dict, does not
    depend on it. *)
Definition get_all_component_status : L (gmap string Status) :=
  with_lock
    (λ p, collect (map fst (map_to_list (_component_last_activity (dicts p))))
            ∅ p).

(** [check_components]: the e-mail alert and the writes to the database
    are made inside [try] blocks whose failure is only logged.  The items
    are taken in the order of the map; the dictionaries left do not
    depend on it. *)
Definition check_components : L unit :=
  with_lock
    (λ p, let r := check_components_over cfg (clk (clock_reads p))
                     (map_to_list (_component_last_activity (dicts p)))
                     (dicts p) in
          Returns tt
            (mkProcess r.1 (lock_held p) (S (clock_reads p)) (logged p ++ r.2))).

(** [save_status_to_file]: the directory of the file is made, the status
    is taken with [get_all_component_status], then stamped and written
    to the file and to the database.  Whether the directory could be
    made is given by [directory_made]: a failure there is logged and
    ends the call.  The writes are outside the process modelled here. *)
Definition save_status_to_file (directory_made : bool) : L unit :=
  if directory_made then
    bind get_all_component_status
      (λ _ p, Returns tt
                (mkProcess (dicts p) (lock_held p) (S (clock_reads p)) (logged p)))
  else λ p, Returns tt p.

End WithClock.

End checks.

(** ** [database.py]: the connection decorator and the status snapshot *)

Module database.

(** What a call into the module raises: a Python error of the kinds
    above, [sqlite3.Error], or [OSError] (from [os.makedirs]). *)
Inductive Raised : Set :=
  | Python (e : PyExc)
  | sqlite3_Error
  | OSError.

(** A parameter of a [def]: its name, and whether it has a default.  The
    functions of the module have neither [*args] nor [**kwargs]. *)
Record Formal : Set := mkFormal {
  f_name : string;
  f_default : bool
}.

(** The binding of the arguments of a call to the parameters.  Positional
    arguments fill the parameters from the left; one more than there are
    parameters is a [TypeError]. *)
Fixpoint bind_positional {V} (formals : list Formal) (args : list V)
    (bound : gmap string V) {struct args} : PyExc + gmap string V :=
  match args, formals with
  | [], _ => inr bound
  | _ :: _, [] => inl TypeError
  | v :: args, f :: formals =>
      bind_positional formals args (<[f_name f := v]> bound)
  end.

(** A keyword argument names a parameter that has no value yet; another
    name, or a second value, is a [TypeError]. *)
Fixpoint bind_keywords {V} (formals : list Formal) (kwargs : list (string * V))
    (bound : gmap string V) : PyExc + gmap string V :=
  match kwargs with
  | [] => inr bound
  | (k, v) :: kwargs =>
      if bool_decide (k ∈ map f_name formals) then
        match bound !! k with
        | None => bind_keywords formals kwargs (<[k := v]> bound)
        | Some _ => inl TypeError
        end
      else inl TypeError
  end.

(** A parameter left without a value and without a default is a
    [TypeError]. *)
Definition bind_arguments {V} (formals : list Formal) (args : list V)
    (kwargs : list (string * V)) : PyExc + gmap string V :=
  match bind_positional formals args ∅ with
  | inl e => inl e
  | inr bound =>
      match bind_keywords formals kwargs bound with
      | inl e => inl e
      | inr bound =>
          if forallb (λ f, f_default f || bool_decide (is_Some (bound !! f_name f)))
               formals
          then inr bound
          else inl TypeError
      end
  end.

(** One entry of [status["components"]] in [_store_status_snapshot]. *)
Record SnapshotEntry : Set := mkSnapshotEntry {
  n_id : string;
  n_name : string;
  n_type : string;
  n_state : string;
  n_message : string;
  n_last_seen : option datetime;
  n_uptime_percentage : Q;
  n_critical : bool
}.

(** The values passed to the functions of the module by the monitor: a
    connection of the pool, the dict of a status snapshot, a [str], a
    [datetime]. *)
Inductive Value : Type :=
  | Connection (thread_id : nat)
  | StatusData (timestamp : datetime) (components : gmap string SnapshotEntry)
  | Text (s : string)
  | Instant (t : datetime).

(** The dict built by [_store_status_snapshot]. *)
Definition snapshot_entry (component_id : string) (component : Component)
    : SnapshotEntry :=
  {| n_id := component_id;
     n_name := c_name component;
     n_type := c_type component;
     n_state := c_state component;
     n_message := c_message component;
     n_last_seen := c_last_seen component;
     n_uptime_percentage := c_uptime_percentage component;
     n_critical := c_critical component |}.

Definition status_snapshot (now : datetime) (m : Monitor) : Value :=
  StatusData now
    (foldl (λ components kc, <[kc.1 := snapshot_entry kc.1 kc.2]> components) ∅
       (_component_registry m)).

Section WithDatabase.

(** The contents of the database, the value a function returns, and
    [conn.rollback()] on the connection of the thread. *)
Variables (DB R : Type) (rollback : DB → DB).

(** The body of a decorated function, run on the bound arguments. *)
Definition Func : Type := gmap string Value → DB → (Raised + R) * DB.

(** [with_connection(func)]: the wrapper gets the connection of the
    thread ([get_db_connection] gives one or raises) and calls
    [func(conn, *args, **kwargs)]; whatever is raised is logged and
    raised again, after a rollback when the connection was obtained. *)
Definition with_connection (formals : list Formal) (func : Func)
    (get_db_connection : Raised + Value)
    (args : list Value) (kwargs : list (string * Value)) (db : DB)
    : (Raised + R) * DB :=
  match get_db_connection with
  | inl e => (inl e, db)
  | inr conn =>
      match bind_arguments formals (conn :: args) kwargs with
      | inl e => (inl (Python e), rollback db)
      | inr bound =>
          match func bound db with
          | (inl e, db') => (inl e, rollback db')
          | (inr r, db') => (inr r, db')
          end
      end
  end.

(** [@with_connection def store_connection_status(conn, status_data)]. *)
Definition store_connection_status_formals : list Formal :=
  [mkFormal "conn" false; mkFormal "status_data" false].

Definition store_connection_status (body : Func) :=
  with_connection store_connection_status_formals body.

(** [@with_connection def add_notification(conn, component_id, severity,
    message, timestamp=None)], and the arguments [_send_notification]
    calls it with. *)
Definition add_notification_formals : list Formal :=
  [mkFormal "conn" false; mkFormal "component_id" false;
   mkFormal "severity" false; mkFormal "message" false;
   mkFormal "timestamp" true].

Definition add_notification (body : Func) :=
  with_connection add_notification_formals body.

Definition notification_keywords (component_id severity message : string)
    (now : datetime) : list (string * Value) :=
  [("component_id", Text component_id); ("severity", Text severity);
   ("message", Text message); ("timestamp", Instant now)].

(** [ConnectionMonitor._store_status_snapshot], with its calls into the
    module written out: [first] is what its own call of
    [get_db_connection] gives, [second] what the call of the wrapper
    gives.  The result is the exception caught and logged, if any, and
    the database. *)
Definition _store_status_snapshot (body : Func) (now : datetime) (m : Monitor)
    (first second : Raised + Value) (db : DB) : option Raised * DB :=
  let status := status_snapshot now m in
  match first with
  | inl e => (Some e, db)
  | inr conn =>
      match store_connection_status body second [conn; status] [] db with
      | (inl e, db') => (Some e, db')
      | (inr _, db') => (None, db')
      end
  end.

End WithDatabase.

End database.

(** ** Notions used by the statements *)

(** The thresholds are ordered. *)
Definition thresholds_ordered (cfg : Config) : Prop :=
  TIMEOUT_WARNING cfg <= TIMEOUT_ERROR cfg
  ∧ TIMEOUT_ERROR cfg <= TIMEOUT_CRITICAL cfg.

(** The thresholds are strictly monotonic. *)
Definition thresholds_monotonic (cfg : Config) : Prop :=
  TIMEOUT_WARNING cfg < TIMEOUT_ERROR cfg
  ∧ TIMEOUT_ERROR cfg < TIMEOUT_CRITICAL cfg.

(** A configuration is rejected when the monitor built from it refuses
    to start. *)
Definition configuration_rejected (cfg : Config) : Prop :=
  (start (ConnectionMonitor cfg)).1 = false.

(** The monitor of a world, put through a lifecycle operation. *)
Definition started (w : World) : World :=
  set_monitor (start (monitor w)).2 w.

(** The cached state of a component. *)
Definition state_of (component_id : string) (w : World) : option string :=
  c_state <$> registry_get component_id (_component_registry (monitor w)).

(** The notifications sent for a component. *)
Definition sent_for (component_id : string) (w : World) : list Notification :=
  filter (λ n, n_component_id n = component_id) (sent w).

(** A sequence of turns of the monitoring loop, one status map each. *)
Definition run_loop (clk : nat → datetime) (inputs : list CurrentStatus)
    (w : World) : World :=
  foldl (λ w cs, _monitoring_loop_iteration clk cs w) w inputs.

(** Whatever the type of the component, the status map reports the
    state [st] for it, if it reports anything. *)
Definition reports_state (cs : CurrentStatus) (component_id st : string) : Prop :=
  ∀ component sd,
    status_data_for cs component component_id = Some sd →
    ∃ msg lc, sd = PyDict (Some st) msg lc.

(** The overall health, in the words of the specification. *)
Definition spec_overall_health (components : list Component) : string :=
  if existsb (λ c, String.eqb (c_state c) CONNECTION_STATE_CRITICAL) components
     || existsb (λ c, c_critical c
                      && (String.eqb (c_state c) CONNECTION_STATE_ERROR
                          || String.eqb (c_state c) CONNECTION_STATE_CRITICAL))
          components
  then "critical"
  else if existsb (λ c, String.eqb (c_state c) CONNECTION_STATE_ERROR) components
  then "error"
  else if existsb (λ c, String.eqb (c_state c) CONNECTION_STATE_WARNING) components
  then "warning"
  else if forallb (λ c, String.eqb (c_state c) CONNECTION_STATE_UNKNOWN) components
  then "unknown"
  else "healthy".

(** The uptime percentages above zero, and their mean. *)
Definition positive_uptimes (components : list Component) : list Q :=
  List.filter (Qltb 0) (map c_uptime_percentage components).

Definition mean (l : list Q) : Q :=
  (foldr Qplus 0 l / inject_Z (Z.of_nat (length l)))%Q.

(** The critical-flagged components that are disconnected. *)
Definition critical_and_disconnected (c : Component) : bool :=
  c_critical c
  && (String.eqb (c_state c) CONNECTION_STATE_ERROR
      || String.eqb (c_state c) CONNECTION_STATE_CRITICAL).

(** A percentage. *)
Definition is_percentage (q : Q) : Prop := (0 <= q)%Q ∧ (q <= 100)%Q.

(** The uptime percentage of a component. *)
Definition uptime_of (component_id : string) (w : World) : option Q :=
  c_uptime_percentage <$> registry_get component_id (_component_registry (monitor w)).

(** The clock never steps backwards. *)
Definition monotone_clock (clk : nat → datetime) : Prop :=
  ∀ i j, (i ≤ j)%nat → clk i <= clk j.

(** The operations on the monitor. *)
Inductive Operation : Type :=
  | OpStart
  | OpStop
  | OpPause
  | OpResume
  | OpLoopIteration (current_status : CurrentStatus)
  | OpCheckAllComponents (current_status : CurrentStatus)
  | OpRecordActivity (component_id : string).

Definition run_operation (clk : nat → datetime) (w : World) (op : Operation)
    : World :=
  match op with
  | OpStart => set_monitor (start (monitor w)).2 w
  | OpStop => set_monitor (stop (monitor w)).2 w
  | OpPause => set_monitor (pause (monitor w)).2 w
  | OpResume => set_monitor (resume (monitor w)).2 w
  | OpLoopIteration cs => _monitoring_loop_iteration clk cs w
  | OpCheckAllComponents cs => (_check_all_components clk cs w).2
  | OpRecordActivity component_id => (record_activity clk component_id w).2
  end.

Definition run_operations (clk : nat → datetime) (ops : list Operation)
    (w : World) : World :=
  foldl (run_operation clk) w ops.

(** An update of a registry entry that leaves the uptime percentage and
    the connection history alone. *)
Definition neutral (f : Component → Component) : Prop :=
  ∀ c, c_uptime_percentage (f c) = c_uptime_percentage c
       ∧ c_connection_history (f c) = c_connection_history c.

(** [component["connection_history"].append(e)]. *)
Definition append_history (e : HistoryEntry) (c : Component) : Component :=
  set_c_connection_history (c_connection_history c ++ [e]) c.

(** A property of the world that holds across every effect of the loop
    of the tick: a clock reading, a neutral update of a registry entry,
    the recording of a transition at a time the clock has shown, a
    change of the event history or of the cooldown table, a
    notification. *)
Record loop_invariant (clk : nat → datetime) (P : World → Prop) : Prop :=
  mkLoopInvariant {
  li_reads : ∀ w,
    P w → P (mkWorld (monitor w) (ledger w) (sent w) (snapshots w) (S (reads w)));
  li_neutral : ∀ w f k,
    neutral f → P w → P (set_monitor (with_component f k (monitor w)) w);
  li_append : ∀ w k e r,
    (r ≤ reads w)%nat → h_timestamp e = clk r →
    P w → P (set_monitor (with_component (append_history e) k (monitor w)) w);
  li_events : ∀ w h,
    P w → P (set_monitor (set_event_history h (monitor w)) w);
  li_cooldown : ∀ w t,
    P w → P (set_monitor (set_last_notification_time t (monitor w)) w);
  li_emit : ∀ w n,
    P w → P (mkWorld (monitor w) (ledger w) (sent w ++ [n]) (snapshots w) (reads w))
}.

(** The uptime of the component is a percentage and no entry of its
    history is later than [t]. *)
Definition good_component (t : datetime) (c : Component) : Prop :=
  is_percentage (c_uptime_percentage c)
  ∧ Forall (λ h, h_timestamp h <= t) (c_connection_history c).

(** Every registered component is good with respect to the current
    clock reading. *)
Definition uptime_invariant (clk : nat → datetime) (w : World) : Prop :=
  Forall (λ kc, good_component (clk (reads w)) kc.2)
    (_component_registry (monitor w)).

(** Every uptime percentage is in the range [0, 100]. *)
Definition uptimes_in_range (w : World) : Prop :=
  ∀ component_id q, uptime_of component_id w = Some q → is_percentage q.

(** The tick up to the end of its loop over the registry, and the world
    in which it then starts [_calculate_metrics]. *)
Definition reclassify_all (clk : nat → datetime) (cs : CurrentStatus) : M bool :=
  _ ← datetime_now clk;
  m ← get_monitor;
  check_components_loop clk cs (map fst (_component_registry m)) false.

Definition before_metrics (clk : nat → datetime) (cs : CurrentStatus)
    (w : World) : World :=
  (reclassify_all clk cs w).2.

(** The order of the history after the sort. *)
Definition earlier (a b : HistoryEntry) : Prop := h_timestamp a <= h_timestamp b.

(** The status map has no datum for any component of the registry: what
    it holds under other ids is never read by the tick. *)
Definition reports_nothing_registered (cs : CurrentStatus) (w : World) : Prop :=
  ∀ component_id component,
    registry_get component_id (_component_registry (monitor w)) = Some component →
    status_data_for cs component component_id = None.

(** The entry [_update_component_status] leaves for a component [c]
    whose status datum is the dict with the optional fields [st], [msg]
    and [lc], when the clock shows [now]. *)
Definition updated_component (now : datetime) (st msg : option string)
    (lc : option IsoField) (c : Component) : Component :=
  let state' := default CONNECTION_STATE_UNKNOWN st in
  {| c_id := c_id c;
     c_type := c_type c;
     c_name := c_name c;
     c_critical := c_critical c;
     c_expected_interval := c_expected_interval c;
     c_parent := c_parent c;
     c_last_seen := match lc with
                    | None => c_last_seen c
                    | Some (IsoValid t) => Some t
                    | Some IsoInvalid => Some now
                    end;
     c_state := state';
     c_message := default (c_message c) msg;
     c_consecutive_failures :=
       if String.eqb state' CONNECTION_STATE_ONLINE then 0
       else if String.eqb state' CONNECTION_STATE_WARNING
               || String.eqb state' CONNECTION_STATE_ERROR
               || String.eqb state' CONNECTION_STATE_CRITICAL
       then c_consecutive_failures c + 1
       else c_consecutive_failures c;
     c_uptime_percentage := c_uptime_percentage c;
     c_connection_history := c_connection_history c |}.

(** The entry [_register_component] stores. *)
Definition fresh_component (component_id component_type display_name : string)
    (critical : bool) (expected_interval : Z) (parent : option string)
    : Component :=
  {| c_id := component_id;
     c_type := component_type;
     c_name := display_name;
     c_critical := critical;
     c_expected_interval := expected_interval;
     c_parent := parent;
     c_last_seen := None;
     c_state := CONNECTION_STATE_UNKNOWN;
     c_message := "Not yet connected";
     c_consecutive_failures := 0;
     c_uptime_percentage := 0;
     c_connection_history := [] |}.

(** The updates [_update_component_status] makes to a registry entry. *)
Inductive field_update : (Component → Component) → Prop :=
  | fu_state (s : string) : field_update (set_c_state s)
  | fu_message (s : string) : field_update (set_c_message s)
  | fu_last_seen (t : option datetime) : field_update (set_c_last_seen t)
  | fu_failures : field_update update_consecutive_failures.

(** The component is in the registry. *)
Definition registered (k : string) (w : World) : Prop :=
  is_Some (registry_get k (_component_registry (monitor w))).

(** The severities the monitor gives to its notifications. *)
Definition severities : list string := ["info"; "warning"; "error"].

(** A property that holds across each effect the processing of the
    component [k] has in a tick: a clock reading, an update of a field of
    its registry entry, the recording of a transition in its history,
    the reading of the clock followed by the recording of a transition,
    stamped with that reading, in the event history, its cooldown entry,
    a notification for it. *)
Record step_invariant (clk : nat → datetime) (k : string) (P : World → Prop)
    : Prop := mkStepInvariant {
  si_reads : ∀ w,
    P w → P (mkWorld (monitor w) (ledger w) (sent w) (snapshots w) (S (reads w)));
  si_field : ∀ w f,
    field_update f → P w → P (set_monitor (with_component f k (monitor w)) w);
  si_history : ∀ w e,
    P w → P (set_monitor (with_component (append_history e) k (monitor w)) w);
  si_event : ∀ w e,
    registered k w → e_component_id e = k →
    e_previous_state e ≠ e_new_state e →
    e_timestamp e = clk (reads w) →
    P w →
    P (mkWorld
         (set_event_history (_event_history (monitor w) ++ [e]) (monitor w))
         (ledger w) (sent w) (snapshots w) (S (reads w)));
  si_cooldown : ∀ w t,
    P w →
    P (set_monitor
         (set_last_notification_time
            (<[k := t]> (_last_notification_time (monitor w))) (monitor w)) w);
  si_emit : ∀ w severity message,
    registered k w → severity ∈ severities →
    P w →
    P (mkWorld (monitor w) (ledger w)
         (sent w ++ [mkNotification k severity message])
         (snapshots w) (reads w))
}.

(** A property that holds across every effect of every operation on the
    monitor: those of the processing of a component, the metrics pass,
    the cleaning of the event history, what happens outside the monitor
    (the ledger, the snapshots, further clock readings), the lifecycle. *)
Record monitor_invariant (clk : nat → datetime) (P : World → Prop) : Prop :=
  mkMonitorInvariant {
  mi_step : ∀ k, step_invariant clk k P;
  mi_metrics : ∀ w now,
    P w →
    P (set_monitor
         (set_registry
            (map (λ kc, (kc.1, calculate_component_metrics now kc.2))
               (_component_registry (monitor w))) (monitor w)) w);
  mi_clean : ∀ w cutoff,
    P w →
    P (set_monitor
         (set_event_history
            (filter (λ e, cutoff < e_timestamp e) (_event_history (monitor w)))
            (monitor w)) w);
  mi_outside : ∀ w l n r,
    (reads w ≤ r)%nat → P w → P (mkWorld (monitor w) l (sent w) n r);
  mi_lifecycle : ∀ w s t,
    P w → P (set_monitor (set_thread t (set_state s (monitor w))) w)
}.

(** What no operation changes: the ids of the registry in their order,
    with the descriptive fields of each entry, and the configuration. *)
Definition static_fields (c : Component)
    : string * string * string * bool * Z * option string :=
  (c_id c, c_type c, c_name c, c_critical c, c_expected_interval c, c_parent c).

Definition static_part (m : Monitor)
    : list (string * (string * string * string * bool * Z * option string))
      * Z * Z * option Z * option Z * option Z :=
  (map (λ kc, (kc.1, static_fields kc.2)) (_component_registry m),
   _check_interval m, _notification_cooldown m,
   _timeout_warning m, _timeout_error m, _timeout_critical m).

(** Every notification sent is for a registered component and has one of
    the three severities. *)
Definition sent_well_formed (w : World) : Prop :=
  Forall (λ n, n_severity n ∈ severities
               ∧ n_component_id n ∈ map fst (_component_registry (monitor w)))
    (sent w).

(** Every event of the history records a change of state of a registered
    component. *)
Definition events_well_formed (w : World) : Prop :=
  Forall (λ e, e_previous_state e ≠ e_new_state e
               ∧ e_component_id e ∈ map fst (_component_registry (monitor w)))
    (_event_history (monitor w)).

(** No failure counter is negative. *)
Definition failures_counted (w : World) : Prop :=
  Forall (λ kc : string * Component, 0 <= c_consecutive_failures kc.2)
    (_component_registry (monitor w)).

(** [a] is not older than [b]. *)
Definition not_older (a b : Event) : Prop := e_timestamp b <= e_timestamp a.

(** The ids of the registry are distinct, as the keys of a dict are. *)
Definition distinct_ids (w : World) : Prop :=
  NoDup (map fst (_component_registry (monitor w))).

(** The clock advances at each reading. *)
Definition advancing_clock (clk : nat → datetime) : Prop :=
  ∀ i j, (i < j)%nat → clk i < clk j.

(** The timestamps of the events are readings of the clock already made,
    in the order of the readings. *)
Definition events_follow_clock (clk : nat → datetime) (w : World) : Prop :=
  ∃ rs : list nat,
    map e_timestamp (_event_history (monitor w)) = map clk rs
    ∧ StronglySorted lt rs
    ∧ Forall (λ r, (r < reads w)%nat) rs.


(** The counters of a health summary fit together: the five counters by
    state count disjoint sets of components, and the critical-flagged
    components that are disconnected are among the critical-flagged
    ones. *)
Definition counters_consistent (s : HealthSummary) : Prop :=
  (connected_components s + warning_components s + error_components s
   + critical_components_count s + unknown_components s
   ≤ total_components s)%nat
  ∧ (critical_disconnected s ≤ critical_components s)%nat
  ∧ (critical_components s ≤ total_components s)%nat.

(** [items] are the items of [_component_last_activity], in some
    order. *)
Definition items_of (s : Module_state) (items : list (string * datetime)) : Prop :=
  items ≡ₚ map_to_list (_component_last_activity s).

(** The dict [check_components] stores for a status that
    [get_component_status] reports: the same, less the elapsed time. *)
Definition as_stored (g : Status) : Status :=
  {| status := status g;
     last_activity := last_activity g;
     time_since_last_activity := None;
     message := message g;
     metadata := metadata g |}.

(** The states [check_components] gives to a component. *)
Definition degraded_states : list string :=
  [CONNECTION_STATE_WARNING; CONNECTION_STATE_ERROR; CONNECTION_STATE_CRITICAL].

(** What [check_components] has done with the component between [s] and
    [s']: nothing, or it has stored the status that
    [get_component_status] reports at [now], a degraded state other than
    the one stored before, and noted the notification. *)
Definition checked (cfg : Config) (now : datetime) (s s' : Module_state)
    (component_id : string) : Prop :=
  (_component_status s' !! component_id = _component_status s !! component_id
   ∧ _last_notification s' !! component_id
     = _last_notification s !! component_id)
  ∨ (let g := get_component_status cfg component_id now s in
     _component_status s' !! component_id = Some (as_stored g)
     ∧ _last_notification s' !! component_id = Some now
     ∧ status g ∈ degraded_states
     ∧ status <$> _component_status s !! component_id ≠ Some (status g)).

(** The calls the other threads make: the MQTT client records
    activities, the monitoring thread checks the components. *)
Inductive Call : Type :=
  | CallRecord (component_id : string)
  | CallCheck.

Definition run_call (clk : nat → datetime) (cfg : Config) (c : Call)
    : checks.L unit :=
  match c with
  | CallRecord component_id => checks.record_component_activity clk component_id
  | CallCheck => checks.check_components clk cfg
  end.

Fixpoint run_calls (clk : nat → datetime) (cfg : Config) (calls : list Call)
    : checks.L unit :=
  match calls with
  | [] => λ p, checks.Returns tt p
  | c :: rest => checks.bind (run_call clk cfg c) (λ _, run_calls clk cfg rest)
  end.

(** Every function of the module blocks. *)
Definition all_blocked (clk : nat → datetime) (cfg : Config) (p : checks.Process)
    : Prop :=
  (∀ component_id,
     checks.record_component_activity clk component_id p = checks.Blocks p
     ∧ checks.get_component_status clk cfg component_id p = checks.Blocks p)
  ∧ checks.check_components clk cfg p = checks.Blocks p
  ∧ checks.get_all_component_status clk cfg p = checks.Blocks p
  ∧ checks.save_status_to_file clk cfg true p = checks.Blocks p.

(** A process in which the hub has been heard. *)
Definition hub_heard : checks.Process :=
  checks.mkProcess (record_component_activity "hub_node_hub1" 0 empty_module)
    false 1 [].

(** *** Weakest preconditions

    [wp c Q E w]: run from [w], the operation [c] either returns a value
    and a world related by [Q], or raises in a world satisfying [E]. *)
Definition wp {A} (c : M A) (Q : A → World → Prop) (E : World → Prop)
    (w : World) : Prop :=
  match c w with
  | (inr a, w') => Q a w'
  | (inl _, w') => E w'
  end.

(** [c] maintains [P], whether it returns or raises. *)
Definition maintains {A} (P : World → Prop) (c : M A) : Prop :=
  ∀ w, P w → wp c (λ _, P) P w.

(** [c] relates every world to the world it leaves, whether it returns
    or raises. *)
Definition preserves {A} (R : World → World → Prop) (c : M A) : Prop :=
  ∀ w, R w (c w).2.

(** A relation that holds across every effect the processing of the
    component [k] can have: a clock reading, an in-place update of the
    registry entry of [k], a change of the event history or of the
    cooldown table, a notification sent for [k]. *)
Record framed (k : string) (R : World → World → Prop) : Prop := mkFramed {
  fr_preorder : PreOrder R;
  fr_reads : ∀ w r,
    R w (mkWorld (monitor w) (ledger w) (sent w) (snapshots w) r);
  fr_component : ∀ w f,
    R w (set_monitor (with_component f k (monitor w)) w);
  fr_events : ∀ w h,
    R w (set_monitor (set_event_history h (monitor w)) w);
  fr_cooldown : ∀ w t,
    R w (set_monitor (set_last_notification_time t (monitor w)) w);
  fr_emit : ∀ w severity message,
    R w (mkWorld (monitor w) (ledger w)
           (sent w ++ [mkNotification k severity message])
           (snapshots w) (reads w))
}.

(** The cached state of a component and the notifications sent for it
    are the same in both worlds. *)
Definition same_state_and_sent (component_id : string) (w w' : World) : Prop :=
  state_of component_id w' = state_of component_id w
  ∧ sent_for component_id w' = sent_for component_id w.

(** The component is in state [st] and the notifications sent for it are
    [s0]. *)
Definition steady (component_id st : string) (s0 : list Notification)
    (w : World) : Prop :=
  state_of component_id w = Some st ∧ sent_for component_id w = s0.

(** Since the notifications sent for the component were [s0], at most
    one more was sent, and only on its entering the state [st]. *)
Definition at_most_one_more (component_id st : string) (s0 : list Notification)
    (w : World) : Prop :=
  sent_for component_id w = s0
  ∨ (state_of component_id w = Some st
     ∧ (length (sent_for component_id w) ≤ S (length s0))%nat).






(** *** Concrete inputs *)

(** A configuration whose thresholds decrease. *)
Definition decreasing_config : Config :=
  {| CONNECTION_CHECK_INTERVAL := 60;
     CONNECTION_NOTIFICATION_COOLDOWN := 300;
     TIMEOUT_WARNING := 1800;
     TIMEOUT_ERROR := 600;
     TIMEOUT_CRITICAL := 300 |}.

(** Scenario E: the two critical components of the registry as
    constructed, the hub in error and the plant node critical. *)
Definition both_disconnected : CurrentStatus :=
  {| cs_components :=
       <["main_hub" := PyDict (Some CONNECTION_STATE_ERROR) None None]>
         (<["plant_node" := PyDict (Some CONNECTION_STATE_CRITICAL) None None]> ∅);
     cs_sensors := None |}.


(** A clock that advances by one second at each reading. *)
Definition ticking_clock (n : nat) : datetime := Z.of_nat n * 1000000.

(** The hub reports warning, as after 400 seconds of silence. *)
Definition hub_warns : CurrentStatus :=
  {| cs_components :=
       <["main_hub" := PyDict (Some CONNECTION_STATE_WARNING)
                         (Some "Component has not reported in 400 seconds") None]> ∅;
     cs_sensors := None |}.

(** The hub reports that it is online. *)
Definition hub_online : CurrentStatus :=
  {| cs_components :=
       <["main_hub" := PyDict (Some CONNECTION_STATE_ONLINE)
                         (Some "Component is online") None]> ∅;
     cs_sensors := None |}.

(** Nothing is reported. *)
Definition no_report : CurrentStatus :=
  {| cs_components := ∅; cs_sensors := None |}.

(** The status map holds what the status module knows, under its own
    ids: the server and a sensor of the plant node report, and neither id
    is one of the registry. *)
Definition server_reports : CurrentStatus :=
  {| cs_components :=
       <["server" := PyDict (Some CONNECTION_STATE_ONLINE)
                       (Some "Component is online") None]> ∅;
     cs_sensors :=
       Some (<["plant_node_node1" := PyDict (Some CONNECTION_STATE_ERROR)
                                        None None]> ∅) |}.

(** A wall clock that is set back by one hour (the end of daylight
    saving time) between the second and the third tick: the six readings
    of the first tick show 10000 s, the seven of the second 17200 s,
    the following ones 13660 s. *)
Definition clock_set_back (n : nat) : datetime :=
  (if (n <? 6)%nat then 10000 else if (n <? 13)%nat then 17200 else 13660)
  * 1000000.

(** Start, then three turns of the monitoring loop: the hub comes
    online, the hub is late, nothing new. *)
Definition three_ticks : list Operation :=
  [OpStart; OpLoopIteration hub_online; OpLoopIteration hub_warns;
   OpLoopIteration no_report].

(** ** Arithmetic of the comparisons *)

Lemma Qltb_lt (x y : Q) : Qltb x y = true ↔ (x < y)%Q.
Proof.
  unfold Qltb. rewrite negb_true_iff. split.
  - intros H. apply Qnot_le_lt. intros Hle.
    apply Qle_bool_iff in Hle. congruence.
  - intros H. destruct (Qle_bool y x) eqn:E; [|reflexivity].
    apply Qle_bool_iff in E. exfalso. exact (Qlt_not_le _ _ H E).
Qed.

Lemma Qltb_ge (x y : Q) : Qltb x y = false ↔ (y <= x)%Q.
Proof.
  unfold Qltb. rewrite negb_false_iff. apply Qle_bool_iff.
Qed.

Lemma Qltb_proper (x x' y y' : Q) :
  (x == x')%Q → (y == y')%Q → Qltb x y = Qltb x' y'.
Proof.
  intros Hx Hy. destruct (Qltb x' y') eqn:E.
  - apply Qltb_lt. apply Qltb_lt in E. by rewrite Hx, Hy.
  - apply Qltb_ge. apply Qltb_ge in E. by rewrite Hx, Hy.
Qed.

(** ** The state classifier *)

Lemma status_of_elapsed cfg component_id now s last :
  _component_last_activity s !! component_id = Some last →
  status (get_component_status cfg component_id now s) =
    let elapsed := total_seconds (now - last) in
    if Qltb elapsed (inject_Z (TIMEOUT_WARNING cfg)) then CONNECTION_STATE_ONLINE
    else if Qltb elapsed (inject_Z (TIMEOUT_ERROR cfg)) then CONNECTION_STATE_WARNING
    else if Qltb elapsed (inject_Z (TIMEOUT_CRITICAL cfg)) then CONNECTION_STATE_ERROR
    else CONNECTION_STATE_CRITICAL.
Proof.
  intros Hl. unfold get_component_status. rewrite Hl. cbv zeta.
  repeat case_match; simplify_eq; reflexivity.
Qed.

(** C1: the connection state is a function of the elapsed time since the
    last recorded activity and of the three (ordered) thresholds: no
    recorded activity gives unknown; elapsed < warning gives online;
    warning <= elapsed < error gives warning; error <= elapsed <
    critical gives error; elapsed >= critical gives critical; and two
    queries with the same elapsed time get the same state. *)
Theorem classification_by_elapsed_time
    (cfg : Config) (component_id : string) (now : datetime) (s : Module_state) :
  thresholds_ordered cfg →
  let st := status (get_component_status cfg component_id now s) in
  match elapsed_since component_id now s with
  | None => st = CONNECTION_STATE_UNKNOWN
  | Some elapsed =>
      ((elapsed < inject_Z (TIMEOUT_WARNING cfg))%Q → st = CONNECTION_STATE_ONLINE)
      ∧ ((inject_Z (TIMEOUT_WARNING cfg) <= elapsed)%Q →
         (elapsed < inject_Z (TIMEOUT_ERROR cfg))%Q →
         st = CONNECTION_STATE_WARNING)
      ∧ ((inject_Z (TIMEOUT_ERROR cfg) <= elapsed)%Q →
         (elapsed < inject_Z (TIMEOUT_CRITICAL cfg))%Q →
         st = CONNECTION_STATE_ERROR)
      ∧ ((inject_Z (TIMEOUT_CRITICAL cfg) <= elapsed)%Q →
         st = CONNECTION_STATE_CRITICAL)
  end
  ∧ ∀ component_id' now' s',
      option_Forall2 Qeq (elapsed_since component_id' now' s')
                         (elapsed_since component_id now s) →
      status (get_component_status cfg component_id' now' s') = st.
Proof.
  intros [Hwe Hec] st. subst st. split.
  - unfold elapsed_since.
    destruct (_component_last_activity s !! component_id) as [last|] eqn:Hl;
      simpl.
    + rewrite (status_of_elapsed _ _ _ _ _ Hl). cbv zeta.
      set (e := total_seconds (now - last)).
      rewrite Zle_Qle in Hwe, Hec.
      destruct (Qltb e (inject_Z (TIMEOUT_WARNING cfg))) eqn:E1;
        [apply Qltb_lt in E1 | apply Qltb_ge in E1];
      (destruct (Qltb e (inject_Z (TIMEOUT_ERROR cfg))) eqn:E2;
        [apply Qltb_lt in E2 | apply Qltb_ge in E2]);
      (destruct (Qltb e (inject_Z (TIMEOUT_CRITICAL cfg))) eqn:E3;
        [apply Qltb_lt in E3 | apply Qltb_ge in E3]);
      repeat split; intros; try reflexivity; exfalso; lra.
    + unfold get_component_status. by rewrite Hl.
  - intros id' now' s' Hel. unfold elapsed_since in Hel.
    destruct (_component_last_activity s' !! id') as [last'|] eqn:Hl';
      destruct (_component_last_activity s !! component_id) as [last|] eqn:Hl;
      simpl in Hel; inversion Hel; subst.
    + rewrite (status_of_elapsed _ _ _ _ _ Hl'), (status_of_elapsed _ _ _ _ _ Hl).
      cbv zeta.
      by rewrite !(Qltb_proper _ _ _ _ H1 (Qeq_refl _)).
    + unfold get_component_status. by rewrite Hl', Hl.
Qed.

(** Scenario B: a component last seen 120 seconds ago, under the
    thresholds (300, 600, 1800), is online. *)
Lemma classification_by_elapsed_time_witness :
  thresholds_ordered default_config
  ∧ status (get_component_status default_config "plant_node_node1" 120000000
              (record_component_activity "plant_node_node1" 0 empty_module))
    = CONNECTION_STATE_ONLINE.
Proof.
  assert (Ho : thresholds_ordered default_config) by (split; simpl; lia).
  split; [exact Ho|].
  pose proof (classification_by_elapsed_time default_config "plant_node_node1"
                120000000
                (record_component_activity "plant_node_node1" 0 empty_module) Ho)
    as [H _].
  vm_compute in H. destruct H as [H _]. apply H. reflexivity.
Defined.

(** ** The lifecycle of the monitor *)

Lemma eqb_decide (s t : string) : String.eqb s t = bool_decide (s = t).
Proof.
  destruct (String.eqb_spec s t); [by rewrite bool_decide_eq_true_2|
                                   by rewrite bool_decide_eq_false_2].
Qed.

(** C9: start, stop, pause and resume are total functions returning a
    boolean: start returns true exactly from the stopped state, stop
    returns true exactly when not stopped, pause returns false (and
    changes nothing) when the monitor is not active, resume returns
    false (and changes nothing) when it is not paused; start twice from
    the stopped state gives true then false, stop twice from a running
    state gives true then false. *)
Theorem lifecycle_guards (m : Monitor) :
  (start m).1 = bool_decide (_state m = MONITOR_STATE_STOPPED)
  ∧ (stop m).1 = negb (bool_decide (_state m = MONITOR_STATE_STOPPED))
  ∧ (_state m ≠ MONITOR_STATE_ACTIVE → pause m = (false, m))
  ∧ (_state m ≠ MONITOR_STATE_PAUSED → resume m = (false, m))
  ∧ (_state m = MONITOR_STATE_STOPPED →
     (start m).1 = true ∧ (start (start m).2).1 = false)
  ∧ (_state m ≠ MONITOR_STATE_STOPPED →
     (stop m).1 = true ∧ (stop (stop m).2).1 = false).
Proof.
  unfold start, stop, pause, resume. rewrite !eqb_decide.
  repeat split; intros; repeat (case_bool_decide; simpl in *); done.
Qed.

(** The monitor as constructed: start twice, then stop twice, then
    pause. *)
Lemma lifecycle_guards_witness :
  let m0 := ConnectionMonitor default_config in
  let m1 := (start m0).2 in
  ((start m0).1 = true ∧ (start m1).1 = false)
  ∧ ((stop m1).1 = true ∧ (stop (stop m1).2).1 = false)
  ∧ pause m0 = (false, m0)
  ∧ resume m1 = (false, m1).
Proof.
  intros m0 m1.
  destruct (lifecycle_guards m0) as (_ & _ & Hp & _ & Hs & _).
  destruct (lifecycle_guards m1) as (_ & _ & _ & Hr & _ & Ht).
  split; [apply Hs; reflexivity|].
  split; [apply Ht; discriminate|].
  split; [apply Hp; discriminate | apply Hr; discriminate].
Defined.

(** ** Configuration *)

(** C3, as stated, fails: thresholds that are not monotonic are not
    rejected. *)
Lemma unordered_thresholds_accepted :
  ¬ (¬ thresholds_monotonic decreasing_config →
     configuration_rejected decreasing_config).
Proof.
  intros H.
  assert (Hn : ¬ thresholds_monotonic decreasing_config).
  { intros [H1 _]. simpl in H1. lia. }
  specialize (H Hn). unfold configuration_rejected in H.
  vm_compute in H. discriminate H.
Qed.

(** C3, amended: the monitor validates nothing; whatever the three
    thresholds, they are stored as configured and the monitor starts. *)
Theorem thresholds_stored_unchecked (cfg : Config) :
  let m := ConnectionMonitor cfg in
  _timeout_warning m = Some (TIMEOUT_WARNING cfg)
  ∧ _timeout_error m = Some (TIMEOUT_ERROR cfg)
  ∧ _timeout_critical m = Some (TIMEOUT_CRITICAL cfg)
  ∧ (start m).1 = true
  ∧ _state (start m).2 = MONITOR_STATE_ACTIVE.
Proof. repeat split. Qed.

(** ** The import of the status module *)

(** C2: the tick cannot reclassify anything: the module imports
    [get_connection_status] from [connection_status], which binds no such
    name, so that loading the module raises [ImportError]; every other
    imported name is bound. *)
Theorem get_connection_status_is_not_defined :
  import_connection_status = inl ImportError
  ∧ ("get_connection_status" ∉ module_names)
  ∧ from_import module_names
      (filter (λ n, n ≠ "get_connection_status") imported_names) = inr tt.
Proof.
  split; [reflexivity|]. split; [|reflexivity].
  apply (bool_decide_eq_false_1 _). reflexivity.
Qed.

(** ** Recording activity *)

(** C10: for a registered component of sensor type [record_activity]
    raises [TypeError] and records nothing, because it passes two
    positional arguments to [record_component_activity], which takes
    one; for a registered component of any other type it records the
    clock reading as the last-seen time and returns. *)
Theorem record_activity_of_registered
    (clk : nat → datetime) (w : World) (component_id : string)
    (component : Component) :
  registry_get component_id (_component_registry (monitor w)) = Some component →
  (c_type component = COMPONENT_TYPE_SENSOR →
   record_activity clk component_id w = (inl TypeError, w))
  ∧ (c_type component ≠ COMPONENT_TYPE_SENSOR →
     ∃ w', record_activity clk component_id w = (inr tt, w')
           ∧ _component_last_activity (ledger w') !! component_id
             = Some (clk (reads w))).
Proof.
  intros Hreg. unfold record_activity, mbind, M_bind, get_monitor.
  rewrite Hreg, eqb_decide. split; intros Ht.
  - by rewrite bool_decide_eq_true_2.
  - rewrite bool_decide_eq_false_2 by done.
    eexists. split; [reflexivity|]. simpl. apply lookup_insert_eq.
Qed.

(** The moisture sensor and the camera of the registry as constructed. *)
Lemma record_activity_of_registered_witness :
  let w := initial_world default_config in
  let clk := λ n : nat, Z.of_nat n in
  record_activity clk "moisture" w = (inl TypeError, w)
  ∧ ∃ w', record_activity clk "camera" w = (inr tt, w')
          ∧ _component_last_activity (ledger w') !! "camera" = Some 0.
Proof.
  intros w clk. split.
  - eapply (record_activity_of_registered clk w "moisture"); reflexivity.
  - eapply (record_activity_of_registered clk w "camera");
      [reflexivity | discriminate].
Defined.

(** ** The health summary *)

Lemma exists_by_count {A} (P : A → Prop) `{∀ x, Decision (P x)}
    (p : A → bool) (l : list A) :
  (∀ x, p x = bool_decide (P x)) →
  (0 <? length (filter P l))%nat = existsb p l.
Proof.
  intros Hp. induction l as [|x l IH]; [reflexivity|].
  rewrite filter_cons. simpl. rewrite Hp.
  destruct (decide (P x)).
  - by rewrite bool_decide_eq_true_2.
  - by rewrite bool_decide_eq_false_2.
Qed.

Lemma forall_by_count {A} (P : A → Prop) `{∀ x, Decision (P x)}
    (p : A → bool) (l : list A) :
  (∀ x, p x = bool_decide (P x)) →
  (length (filter P l) =? length l)%nat = forallb p l.
Proof.
  intros Hp. induction l as [|x l IH]; [reflexivity|].
  rewrite filter_cons. simpl. rewrite Hp.
  destruct (decide (P x)).
  - rewrite bool_decide_eq_true_2 by done. simpl. exact IH.
  - rewrite bool_decide_eq_false_2 by done. simpl.
    apply Nat.eqb_neq. pose proof (length_filter P l). lia.
Qed.

Lemma count_state_values (s : string) (r : Registry) :
  count_state s r = length (filter (λ c, c_state c = s) (map snd r)).
Proof.
  unfold count_state. induction r as [|[k c] r IH]; [reflexivity|].
  rewrite map_cons.
  destruct (decide (c_state c = s)) as [E|E];
    [rewrite !filter_cons_True by exact E | rewrite !filter_cons_False by exact E];
    simpl; by rewrite IH.
Qed.

Lemma critical_disconnected_count (r : Registry) :
  length (filter (λ kc, c_state kc.2 = CONNECTION_STATE_ERROR
                        ∨ c_state kc.2 = CONNECTION_STATE_CRITICAL)
            (filter (λ kc, c_critical kc.2 = true) r))
  = length (List.filter critical_and_disconnected (map snd r)).
Proof.
  induction r as [|[k c] r IH]; [reflexivity|].
  simpl. unfold critical_and_disconnected at 1. rewrite !eqb_decide.
  destruct (c_critical c) eqn:Ec; simpl.
  - rewrite (filter_cons_True (λ kc : string * Component, c_critical kc.2 = true))
      by exact Ec.
    destruct (decide (c_state c = CONNECTION_STATE_ERROR
                      ∨ c_state c = CONNECTION_STATE_CRITICAL)) as [D|D].
    + rewrite filter_cons_True by exact D.
      replace (bool_decide (c_state c = CONNECTION_STATE_ERROR)
               || bool_decide (c_state c = CONNECTION_STATE_CRITICAL)) with true.
      * simpl. by rewrite IH.
      * symmetry. apply orb_true_iff.
        destruct D as [D|D]; [left | right]; by apply bool_decide_eq_true_2.
    + rewrite filter_cons_False by exact D.
      rewrite !bool_decide_eq_false_2 by tauto. exact IH.
  - rewrite (filter_cons_False (λ kc : string * Component, c_critical kc.2 = true))
      by (simpl; congruence).
    exact IH.
Qed.

Lemma positive_uptimes_values (r : Registry) :
  map (λ kc : string * Component, c_uptime_percentage kc.2)
    (List.filter (λ kc, Qltb 0 (c_uptime_percentage kc.2)) r)
  = positive_uptimes (map snd r).
Proof.
  unfold positive_uptimes.
  induction r as [|[k c] r IH]; [reflexivity|].
  simpl. destruct (Qltb 0 (c_uptime_percentage c)); simpl; by rewrite IH.
Qed.

Lemma sum_left_right (l : list Q) (a : Q) :
  (fold_left Qplus l a == a + foldr Qplus 0 l)%Q.
Proof.
  revert a. induction l as [|x l IH]; intros a; simpl.
  - lra.
  - rewrite IH. lra.
Qed.

Lemma existsb_or {A} (p q : A → bool) (l : list A) :
  existsb (λ x, p x || q x) l = existsb p l || existsb q l.
Proof.
  induction l as [|x l IH]; [reflexivity|]. simpl. rewrite IH.
  destruct (p x), (q x), (existsb p l), (existsb q l); reflexivity.
Qed.

(** C7: the overall health of the summary is critical if some component
    is critical or some critical-flagged component is in error or
    critical; else error if some component is in error; else warning if
    some component is in warning; else unknown if every component is
    unknown; else healthy.  [critical_disconnected] counts the
    critical-flagged components in error or critical, and any such
    component makes the health critical.  The average uptime is the mean
    of the percentages above zero (and 0 when there is none). *)
Theorem health_summary_as_specified (now : datetime) (m : Monitor) :
  let components := map snd (_component_registry m) in
  let s := get_system_health_summary now m in
  overall_health s = spec_overall_health components
  ∧ critical_disconnected s
    = length (List.filter critical_and_disconnected components)
  ∧ ((0 < critical_disconnected s)%nat → overall_health s = "critical")
  ∧ match positive_uptimes components with
    | [] => average_uptime s = 0%Q
    | _ :: _ => (average_uptime s == mean (positive_uptimes components))%Q
    end.
Proof.
  intros components s. subst s components.
  unfold get_system_health_summary. cbn [overall_health critical_disconnected
                                         average_uptime].
  set (r := _component_registry m).
  rewrite critical_disconnected_count, positive_uptimes_values.
  rewrite !count_state_values.
  replace (length r) with (length (map snd r)) by apply length_map.
  set (cs := map snd r).
  rewrite (exists_by_count (λ c, c_state c = CONNECTION_STATE_CRITICAL)
             (λ c, String.eqb (c_state c) CONNECTION_STATE_CRITICAL))
    by (intros; apply eqb_decide).
  rewrite (exists_by_count (λ c, c_state c = CONNECTION_STATE_ERROR)
             (λ c, String.eqb (c_state c) CONNECTION_STATE_ERROR))
    by (intros; apply eqb_decide).
  rewrite (exists_by_count (λ c, c_state c = CONNECTION_STATE_WARNING)
             (λ c, String.eqb (c_state c) CONNECTION_STATE_WARNING))
    by (intros; apply eqb_decide).
  rewrite (forall_by_count (λ c, c_state c = CONNECTION_STATE_UNKNOWN)
             (λ c, String.eqb (c_state c) CONNECTION_STATE_UNKNOWN))
    by (intros; apply eqb_decide).
  assert (Hd : (0 <? length (List.filter critical_and_disconnected cs))%nat
               = existsb critical_and_disconnected cs).
  { clear. induction cs as [|c cs IH]; [reflexivity|]. simpl.
    destruct (critical_and_disconnected c); simpl; [reflexivity | exact IH]. }
  rewrite Hd. split; [|split; [|split]].
  - unfold spec_overall_health. fold cs.
    change (λ c, c_critical c && (String.eqb (c_state c) CONNECTION_STATE_ERROR
                                  || String.eqb (c_state c) CONNECTION_STATE_CRITICAL))
      with critical_and_disconnected.
    by rewrite (orb_comm (existsb critical_and_disconnected cs)).
  - reflexivity.
  - intros Hpos. apply Nat.ltb_lt in Hpos. rewrite Hd in Hpos.
    by rewrite Hpos.
  - destruct (positive_uptimes cs) as [|u us] eqn:E; [reflexivity|].
    unfold mean. rewrite sum_left_right. by rewrite Qplus_0_l.
Qed.

(** Scenario E on the registry as constructed. *)
Lemma health_summary_as_specified_witness :
  let w := _monitoring_loop_iteration (λ n, Z.of_nat n) both_disconnected
             (started (initial_world default_config)) in
  let s := get_system_health_summary 0 (monitor w) in
  critical_disconnected s = 2%nat ∧ overall_health s = "critical".
Proof.
  intros w s.
  destruct (health_summary_as_specified 0 (monitor w)) as (_ & Hc & Hh & _).
  fold s in Hc, Hh. split.
  - rewrite Hc. vm_compute. reflexivity.
  - apply Hh. rewrite Hc. vm_compute. lia.
Defined.

(** ** Reasoning about the effectful operations *)

Lemma wp_bind {A B} (c : M A) (k : A → M B) Q E w :
  wp c (λ a, wp (k a) Q E) E w → wp (c ≫= k) Q E w.
Proof. unfold wp, mbind, M_bind. by destruct (c w) as [[e|a] w']. Qed.

Lemma wp_ret {A} (a : A) (Q : A → World → Prop) E w : Q a w → wp (mret a) Q E w.
Proof. done. Qed.

Lemma wp_mono {A} (c : M A) (Q Q' : A → World → Prop) (E E' : World → Prop) w :
  wp c Q E w → (∀ a w', Q a w' → Q' a w') → (∀ w', E w' → E' w') → wp c Q' E' w.
Proof. unfold wp. destruct (c w) as [[e|a] w']; auto. Qed.

Lemma wp_lookup k c (Q : Component → World → Prop) E w :
  registry_get k (_component_registry (monitor w)) = Some c →
  Q c w → wp (registry_lookup k) Q E w.
Proof. intros H HQ. unfold wp, registry_lookup. by rewrite H. Qed.

Lemma wp_lookup_any k (Q : Component → World → Prop) (E : World → Prop) w :
  (∀ c, registry_get k (_component_registry (monitor w)) = Some c → Q c w) →
  E w → wp (registry_lookup k) Q E w.
Proof.
  intros HQ HE. unfold wp, registry_lookup.
  destruct (registry_get k _); auto.
Qed.

Lemma wp_now clk (Q : datetime → World → Prop) E w :
  Q (clk (reads w))
    (mkWorld (monitor w) (ledger w) (sent w) (snapshots w) (S (reads w))) →
  wp (datetime_now clk) Q E w.
Proof. done. Qed.

Lemma wp_get_monitor (Q : Monitor → World → Prop) E w :
  Q (monitor w) w → wp get_monitor Q E w.
Proof. done. Qed.

Lemma wp_modify f (Q : unit → World → Prop) E w :
  Q tt (set_monitor (f (monitor w)) w) → wp (modify_monitor f) Q E w.
Proof. done. Qed.

Lemma wp_emit n (Q : unit → World → Prop) E w :
  Q tt (mkWorld (monitor w) (ledger w) (sent w ++ [n]) (snapshots w) (reads w)) →
  wp (emit_notification n) Q E w.
Proof. done. Qed.

Lemma wp_try (c : M unit) (Q : unit → World → Prop) E w :
  wp c Q (Q tt) w → wp (try_except c) Q E w.
Proof.
  unfold wp, try_except. destruct (c w) as [[e|[]] w']; simpl; auto.
Qed.

Lemma wp_snd {A} (c : M A) (P : World → Prop) w :
  wp c (λ _, P) P w → P (c w).2.
Proof. unfold wp. by destruct (c w) as [[e|a] w']. Qed.

Lemma maintains_bind {A B} P (c : M A) (k : A → M B) :
  maintains P c → (∀ a, maintains P (k a)) → maintains P (c ≫= k).
Proof.
  intros Hc Hk w Hw. apply wp_bind.
  eapply wp_mono; [apply Hc, Hw | | auto].
  intros a w' Hw'. by apply Hk.
Qed.

Lemma maintains_ret {A} P (a : A) : maintains P (mret a).
Proof. intros w Hw. done. Qed.

Lemma maintains_raise {A} P e : maintains P (raise (A := A) e).
Proof. intros w Hw. done. Qed.

Lemma maintains_try P (c : M unit) : maintains P c → maintains P (try_except c).
Proof.
  intros Hc w Hw. apply wp_try. eapply wp_mono; [apply Hc, Hw | auto | auto].
Qed.

Lemma maintains_lookup P k : maintains P (registry_lookup k).
Proof. intros w Hw. by apply wp_lookup_any. Qed.

Lemma maintains_get_monitor P : maintains P get_monitor.
Proof. intros w Hw. done. Qed.

(** *** The registry *)

Lemma registry_get_alter f k k' (r : Registry) :
  registry_get k' (registry_alter f k r)
  = if String.eqb k k' then f <$> registry_get k' r else registry_get k' r.
Proof.
  induction r as [|[k0 c] r IH]; simpl.
  - by destruct (String.eqb k k').
  - destruct (String.eqb_spec k k0) as [->|Hk]; simpl.
    + destruct (String.eqb_spec k' k0) as [->|Hk'].
      * by rewrite String.eqb_refl.
      * destruct (String.eqb_spec k0 k'); [congruence | reflexivity].
    + destruct (String.eqb_spec k' k0) as [->|Hk'].
      * destruct (String.eqb_spec k k0); [congruence | reflexivity].
      * exact IH.
Qed.

Lemma registry_get_alter_eq f k (r : Registry) :
  registry_get k (registry_alter f k r) = f <$> registry_get k r.
Proof. by rewrite registry_get_alter, String.eqb_refl. Qed.

Lemma registry_get_alter_ne f k k' (r : Registry) :
  k ≠ k' → registry_get k' (registry_alter f k r) = registry_get k' r.
Proof.
  intros H. rewrite registry_get_alter.
  by destruct (String.eqb_spec k k').
Qed.

Lemma registry_get_map (g : Component → Component) k (r : Registry) :
  registry_get k (map (λ kc, (kc.1, g kc.2)) r) = g <$> registry_get k r.
Proof.
  induction r as [|[k0 c] r IH]; [reflexivity|]. simpl.
  by destruct (String.eqb k k0).
Qed.

(** ** The notification policy and its cooldown *)

(** What [_check_notification_needed] does for a registered component. *)
Lemma check_notification_needed_run clk component_id previous_state new_state
    component w :
  registry_get component_id (_component_registry (monitor w)) = Some component →
  _check_notification_needed clk component_id previous_state new_state w =
    let now := clk (reads w) in
    if in_cooldown component_id now (monitor w) then
      (inr tt, mkWorld (monitor w) (ledger w) (sent w) (snapshots w) (S (reads w)))
    else
      match notification_for component previous_state new_state with
      | Some (severity, message) =>
          (inr tt,
           mkWorld
             (set_last_notification_time
                (<[component_id := now]> (_last_notification_time (monitor w)))
                (monitor w))
             (ledger w)
             (sent w ++ [mkNotification component_id severity message])
             (snapshots w) (S (S (reads w))))
      | None =>
          (inr tt,
           mkWorld (monitor w) (ledger w) (sent w) (snapshots w) (S (reads w)))
      end.
Proof.
  intros Hreg.
  unfold _check_notification_needed, mbind, M_bind, registry_lookup.
  rewrite Hreg. simpl.
  destruct (in_cooldown component_id (clk (reads w)) (monitor w)); [reflexivity|].
  destruct (notification_for component previous_state new_state) as [[sev msg]|];
    reflexivity.
Qed.

(** C6: the cooldown is kept per component, by the time of the last
    notification sent for it, whatever its severity.  For a registered
    component: (1) a transition checked less than [_notification_cooldown]
    seconds after that time is dropped: nothing is sent and nothing is
    kept of it; (2) the outcome depends on the cooldown table only through
    the component's own entry, so the entries of other components never
    suppress its notification; (3) outside its own cooldown a qualifying
    transition is notified and the time of the notification is recorded,
    whatever the severity. *)
Theorem cooldown_is_per_component
    (clk : nat → datetime) (w : World)
    (component_id previous_state new_state : string) (component : Component) :
  registry_get component_id (_component_registry (monitor w)) = Some component →
  let now := clk (reads w) in
  let check := _check_notification_needed clk component_id previous_state new_state in
  (∀ last,
     _last_notification_time (monitor w) !! component_id = Some last →
     (total_seconds (now - last)%Z
      < inject_Z (_notification_cooldown (monitor w)))%Q →
     monitor (check w).2 = monitor w ∧ sent (check w).2 = sent w)
  ∧ (∀ table,
       table !! component_id = _last_notification_time (monitor w) !! component_id →
       let v := set_monitor (set_last_notification_time table (monitor w)) w in
       sent (check v).2 = sent (check w).2
       ∧ _last_notification_time (monitor (check v).2) !! component_id
         = _last_notification_time (monitor (check w).2) !! component_id)
  ∧ (∀ severity message,
       in_cooldown component_id now (monitor w) = false →
       notification_for component previous_state new_state
         = Some (severity, message) →
       sent (check w).2 = sent w ++ [mkNotification component_id severity message]
       ∧ _last_notification_time (monitor (check w).2) !! component_id = Some now).
Proof.
  intros Hreg now check. subst check.
  rewrite (check_notification_needed_run _ _ _ _ _ _ Hreg). cbv zeta.
  fold now. split; [|split].
  - intros last Hlast Hlt.
    assert (Hc : in_cooldown component_id now (monitor w) = true).
    { unfold in_cooldown. rewrite Hlast. by apply Qltb_lt. }
    rewrite Hc. done.
  - intros table Htable.
    set (v := set_monitor (set_last_notification_time table (monitor w)) w).
    assert (Hregv : registry_get component_id (_component_registry (monitor v))
                    = Some component) by exact Hreg.
    rewrite (check_notification_needed_run _ _ _ _ _ _ Hregv). cbv zeta.
    assert (Hc : in_cooldown component_id (clk (reads v)) (monitor v)
                 = in_cooldown component_id now (monitor w)).
    { unfold in_cooldown, v. simpl. by rewrite Htable. }
    rewrite Hc. unfold v. simpl.
    destruct (in_cooldown component_id now (monitor w)); [done|].
    destruct (notification_for component previous_state new_state)
      as [[sev msg]|]; simpl; [|done].
    split; [done|]. by rewrite !lookup_insert_eq.
  - intros severity message Hc Hn. rewrite Hc, Hn. simpl.
    split; [done|]. apply lookup_insert_eq.
Qed.

(** The plant node is in its cooldown, the hub notified long ago: the
    plant node's transition is dropped, and the plant node's entry does
    not stop the hub's notification. *)
Lemma cooldown_is_per_component_witness :
  let clk := λ n : nat, 1000000000 in
  let table : gmap string datetime := <["plant_node" := 900000000]> ∅ in
  let w := set_monitor
             (set_last_notification_time table
                (ConnectionMonitor default_config))
             (initial_world default_config) in
  sent (_check_notification_needed clk "plant_node" "online" "error" w).2 = []
  ∧ sent (_check_notification_needed clk "main_hub" "online" "error" w).2
    = [mkNotification "main_hub" "error"
         "Main Hub has disconnected: Not yet connected"].
Proof.
  intros clk table w. split.
  - edestruct (cooldown_is_per_component clk w "plant_node" "online" "error")
      as (H & _ & _); [reflexivity|].
    apply (H 900000000); [reflexivity | reflexivity].
  - edestruct (cooldown_is_per_component clk w "main_hub" "online" "error")
      as (_ & _ & H); [reflexivity|].
    apply H; reflexivity.
Defined.

(** ** Effects of the processing of one component *)

Lemma preserves_bind {A B} R `{!PreOrder R} (c : M A) (k : A → M B) :
  preserves R c → (∀ a, preserves R (k a)) → preserves R (c ≫= k).
Proof.
  intros Hc Hk w. specialize (Hc w).
  unfold mbind, M_bind. destruct (c w) as [[e|a] w'] eqn:E; simpl in *.
  - exact Hc.
  - etrans; [exact Hc|]. apply Hk.
Qed.

Lemma preserves_ret {A} R `{!PreOrder R} (a : A) : preserves R (mret a).
Proof. intros w. reflexivity. Qed.

Lemma preserves_raise {A} R `{!PreOrder R} e : preserves R (raise (A := A) e).
Proof. intros w. reflexivity. Qed.

Lemma preserves_lookup R `{!PreOrder R} k : preserves R (registry_lookup k).
Proof.
  intros w. unfold registry_lookup. destruct (registry_get k _); reflexivity.
Qed.

Lemma preserves_get_monitor R `{!PreOrder R} : preserves R get_monitor.
Proof. intros w. reflexivity. Qed.

Lemma preserves_wp {A} R (c : M A) w :
  preserves R c → wp c (λ _ w', R w w') (λ w', R w w') w.
Proof.
  intros H. specialize (H w). unfold wp.
  by destruct (c w) as [[e|a] w'].
Qed.

Section Framed.

Context (clk : nat → datetime) (k : string) (R : World → World → Prop).
Context (HR : framed k R).

Lemma framed_preorder : PreOrder R.
Proof. exact (fr_preorder k R HR). Qed.

#[local] Existing Instance framed_preorder.

Lemma preserves_now : preserves R (datetime_now clk).
Proof. intros w. apply (fr_reads k R HR). Qed.

Lemma preserves_with_component f :
  preserves R (modify_monitor (with_component f k)).
Proof. intros w. apply (fr_component k R HR). Qed.

Lemma preserves_send_notification severity message :
  preserves R (_send_notification clk k severity message).
Proof.
  unfold _send_notification.
  apply preserves_bind; [apply _ | | intros _].
  - intros w. apply (fr_emit k R HR).
  - apply preserves_bind; [apply _ | apply preserves_now | intros _].
    apply preserves_ret, _.
Qed.

Lemma preserves_check_notification_needed previous_state new_state :
  preserves R (_check_notification_needed clk k previous_state new_state).
Proof.
  unfold _check_notification_needed.
  apply preserves_bind; [apply _ | apply preserves_lookup, _ | intros c].
  apply preserves_bind; [apply _ | apply preserves_now | intros now].
  apply preserves_bind; [apply _ | apply preserves_get_monitor, _ | intros m].
  destruct (in_cooldown k now m); [apply preserves_ret, _|].
  destruct (notification_for c previous_state new_state) as [[sev msg]|];
    [|apply preserves_ret, _].
  apply preserves_bind; [apply _ | apply preserves_send_notification | intros _].
  intros w. apply (fr_cooldown k R HR).
Qed.

Lemma preserves_handle_state_change previous_state new_state :
  preserves R (_handle_state_change clk k previous_state new_state).
Proof.
  unfold _handle_state_change.
  apply preserves_bind; [apply _ | apply preserves_lookup, _ | intros c].
  apply preserves_bind; [apply _ | apply preserves_now | intros now].
  apply preserves_bind; [apply _ | | intros _].
  { intros w. apply (fr_events k R HR). }
  apply preserves_bind; [apply _ | apply preserves_with_component | intros _].
  apply preserves_check_notification_needed.
Qed.

Lemma preserves_update_component_status status_data :
  preserves R (_update_component_status clk k status_data).
Proof.
  unfold _update_component_status.
  apply preserves_bind; [apply _ | apply preserves_lookup, _ | intros _].
  destruct status_data as [st msg lc|]; [|apply preserves_raise, _].
  apply preserves_bind; [apply _ | apply preserves_with_component | intros _].
  apply preserves_bind; [apply _ | | intros _].
  { destruct msg; [apply preserves_with_component | apply preserves_ret, _]. }
  apply preserves_bind; [apply _ | | intros _].
  { destruct lc as [[t|]|].
    - apply preserves_with_component.
    - apply preserves_bind; [apply _ | apply preserves_now | intros now].
      apply preserves_with_component.
    - apply preserves_ret, _. }
  apply preserves_with_component.
Qed.

Lemma preserves_check_component cs : preserves R (check_component clk cs k).
Proof.
  unfold check_component.
  apply preserves_bind; [apply _ | apply preserves_lookup, _ | intros c].
  apply preserves_bind; [apply _ | | intros _].
  { destruct (status_data_for cs c k);
      [apply preserves_update_component_status | apply preserves_ret, _]. }
  apply preserves_bind; [apply _ | apply preserves_lookup, _ | intros c'].
  destruct (negb _); [|apply preserves_ret, _].
  apply preserves_bind; [apply _ | apply preserves_handle_state_change | intros _].
  apply preserves_ret, _.
Qed.

End Framed.



(** ** A failure in the processing of one component *)








(** ** Notifications are sent on transitions only *)

Lemma state_of_Some component_id st w :
  state_of component_id w = Some st ↔
  ∃ c, registry_get component_id (_component_registry (monitor w)) = Some c
       ∧ c_state c = st.
Proof.
  unfold state_of. rewrite fmap_Some. split; intros (c & Hc & Hs); eauto.
Qed.

Lemma sent_for_app component_id w n :
  sent_for component_id
    (mkWorld (monitor w) (ledger w) (sent w ++ [n]) (snapshots w) (reads w))
  = sent_for component_id w
    ++ (if decide (n_component_id n = component_id) then [n] else []).
Proof.
  unfold sent_for. simpl. by rewrite filter_app.
Qed.

Lemma same_state_and_sent_preorder component_id :
  PreOrder (same_state_and_sent component_id).
Proof.
  split.
  - intros w. by split.
  - intros w1 w2 w3 [H1 S1] [H2 S2]. split; congruence.
Qed.

Lemma same_state_and_sent_framed component_id k :
  k ≠ component_id → framed k (same_state_and_sent component_id).
Proof.
  intros Hk. split.
  - apply same_state_and_sent_preorder.
  - intros w r. by split.
  - intros w f. split; [|done]. unfold state_of. simpl.
    by rewrite registry_get_alter_ne.
  - intros w h. by split.
  - intros w t. by split.
  - intros w severity message. split; [done|].
    rewrite sent_for_app. simpl. rewrite decide_False by done.
    apply app_nil_r.
Qed.

(** The remainder of the tick changes neither states nor
    notifications. *)
Lemma calculate_metrics_state c now :
  c_state (calculate_component_metrics now c) = c_state c.
Proof.
  unfold calculate_component_metrics.
  destruct (c_connection_history c); [reflexivity|].
  set (c1 := match last_24_hours now _ with [] => c | _ => _ end).
  assert (H1 : c_state c1 = c_state c).
  { subst c1. destruct (last_24_hours now _); [reflexivity|].
    destruct (accumulate_times _ _ _ _) as [ct tt].
    by destruct (Qltb 0 tt). }
  by destruct (100 <? _)%nat.
Qed.

Lemma preserves_calculate_metrics clk component_id :
  preserves (same_state_and_sent component_id) (_calculate_metrics clk).
Proof.
  intros w. split; [|done]. unfold state_of. simpl.
  rewrite registry_get_map.
  destruct (registry_get component_id _); simpl; [|done].
  by rewrite calculate_metrics_state.
Qed.

Lemma preserves_clean_history clk component_id :
  preserves (same_state_and_sent component_id) (_clean_history clk).
Proof. intros w. by split. Qed.

Lemma preserves_store_status_snapshot clk component_id :
  preserves (same_state_and_sent component_id) (_store_status_snapshot clk).
Proof. intros w. by split. Qed.

Lemma preserves_maintains {A} component_id (P : World → Prop) (c : M A) :
  (∀ w w', same_state_and_sent component_id w w' → P w → P w') →
  preserves (same_state_and_sent component_id) c → maintains P c.
Proof.
  intros HP Hc w Hw.
  eapply wp_mono; [apply (preserves_wp _ _ _ Hc) | |]; simpl; eauto.
Qed.

Lemma steady_respects component_id st s0 w w' :
  same_state_and_sent component_id w w' →
  steady component_id st s0 w → steady component_id st s0 w'.
Proof. intros [H1 H2] [H3 H4]. split; congruence. Qed.

Lemma at_most_one_more_respects component_id st s0 w w' :
  same_state_and_sent component_id w w' →
  at_most_one_more component_id st s0 w → at_most_one_more component_id st s0 w'.
Proof.
  intros [H1 H2] [H|[H3 H4]]; [left | right]; rewrite ?H1, ?H2; auto.
Qed.

(** Updates of the component's entry that keep its state. *)
Lemma steady_with_component component_id st s0 f :
  (∀ c, c_state c = st → c_state (f c) = st) →
  maintains (steady component_id st s0)
    (modify_monitor (with_component f component_id)).
Proof.
  intros Hf w [Hst Hs]. apply wp_modify. split; [|done].
  apply state_of_Some in Hst as (c & Hc & Hcs).
  apply state_of_Some. exists (f c). simpl.
  rewrite registry_get_alter_eq, Hc. split; [done | by apply Hf].
Qed.

Lemma steady_now clk component_id st s0 :
  maintains (steady component_id st s0) (datetime_now clk).
Proof. intros w H. apply wp_now. exact H. Qed.

Lemma update_consecutive_failures_state c :
  c_state (update_consecutive_failures c) = c_state c.
Proof.
  unfold update_consecutive_failures.
  destruct (String.eqb _ _); [reflexivity|].
  by destruct (_ || _).
Qed.

(** What follows the assignment of the state in
    [_update_component_status] keeps the state. *)
Lemma steady_rest_of_update clk component_id st s0 msg lc :
  maintains (steady component_id st s0)
    (match msg with
     | Some s => modify_monitor (with_component (set_c_message s) component_id)
     | None => mret tt
     end ;;
     match lc with
     | Some (IsoValid t) =>
         modify_monitor (with_component (set_c_last_seen (Some t)) component_id)
     | Some IsoInvalid =>
         now ← datetime_now clk;
         modify_monitor (with_component (set_c_last_seen (Some now)) component_id)
     | None => mret tt
     end ;;
     modify_monitor (with_component update_consecutive_failures component_id)).
Proof.
  apply maintains_bind; [|intros _; apply maintains_bind; [|intros _]].
  - destruct msg; [by apply steady_with_component | apply maintains_ret].
  - destruct lc as [[t|]|].
    + by apply steady_with_component.
    + apply maintains_bind; [apply steady_now | intros now].
      by apply steady_with_component.
    + apply maintains_ret.
  - apply steady_with_component. intros c Hc.
    by rewrite update_consecutive_failures_state.
Qed.

(** [_update_component_status] with a datum that reports [st] leaves a
    registered component in state [st] and sends nothing. *)
Lemma update_component_status_sets clk component_id st msg lc w :
  is_Some (registry_get component_id (_component_registry (monitor w))) →
  wp (_update_component_status clk component_id (PyDict (Some st) msg lc))
     (λ _, steady component_id st (sent_for component_id w))
     (λ _, False) w.
Proof.
  intros [c Hc]. unfold _update_component_status.
  apply wp_bind, (wp_lookup _ c); [done|].
  apply wp_bind, wp_modify.
  assert (Hs : steady component_id st (sent_for component_id w)
                 (set_monitor
                    (with_component
                       (set_c_state (default CONNECTION_STATE_UNKNOWN (Some st)))
                       component_id (monitor w)) w)).
  { split; [|done]. apply state_of_Some. simpl.
    rewrite registry_get_alter_eq, Hc. by eexists. }
  revert Hs. generalize (set_monitor
                    (with_component
                       (set_c_state (default CONNECTION_STATE_UNKNOWN (Some st)))
                       component_id (monitor w)) w).
  intros w1 Hs.
  assert (Hm := steady_rest_of_update clk component_id st
                  (sent_for component_id w) msg lc w1 Hs).
  match goal with |- wp ?c _ _ _ => set (rest := c) in * end.
  unfold wp in *.
  destruct (rest w1) as [[e|[]] w2] eqn:E; [|exact Hm].
  (* no statement of the remainder raises *)
  exfalso. revert E. unfold rest, mbind, M_bind, modify_monitor, datetime_now.
  destruct msg, lc as [[t|]|]; simpl; discriminate.
Qed.

(** In a steady state the step of the component finds no transition. *)
Lemma steady_check_component clk cs component_id st s0 :
  reports_state cs component_id st →
  maintains (steady component_id st s0) (check_component clk cs component_id).
Proof.
  intros Hrep w Hw. pose proof Hw as [Hst Hs].
  apply state_of_Some in Hst as (c & Hc & Hcs).
  unfold check_component.
  apply wp_bind, (wp_lookup _ c); [done|].
  apply wp_bind.
  eapply (wp_mono _ (λ _, steady component_id st s0)).
  - destruct (status_data_for cs c component_id) as [sd|] eqn:Hsd;
      [|by apply wp_ret].
    destruct (Hrep _ _ Hsd) as (msg & lc & ->).
    eapply wp_mono;
      [apply update_component_status_sets; by eexists | | done].
    intros ? w'. by rewrite Hs.
  - intros ? w' Hw'. pose proof Hw' as [Hst' Hs'].
    apply state_of_Some in Hst' as (c' & Hc' & Hcs').
    apply wp_bind, (wp_lookup _ c'); [done|].
    rewrite Hcs', Hcs, String.eqb_refl. simpl. by apply wp_ret.
  - intros w' HF. destruct HF.
Qed.

(** [_handle_state_change] for a registered component returns, keeps the
    state of the component and sends at most one notification. *)
Lemma handle_state_change_run clk component_id previous_state new_state w :
  is_Some (registry_get component_id (_component_registry (monitor w))) →
  ∃ w', _handle_state_change clk component_id previous_state new_state w
        = (inr tt, w')
        ∧ state_of component_id w' = state_of component_id w
        ∧ (length (sent_for component_id w')
           ≤ S (length (sent_for component_id w)))%nat.
Proof.
  intros [c Hc].
  unfold _handle_state_change, mbind, M_bind, registry_lookup.
  rewrite Hc. simpl.
  set (w2 := set_monitor _ _).
  assert (Hc2 : registry_get component_id (_component_registry (monitor w2))
                = Some (set_c_connection_history
                          (c_connection_history c
                             ++ [mkHistoryEntry new_state (clk (reads w))
                                   (c_message c)]) c)).
  { subst w2. simpl. by rewrite registry_get_alter_eq, Hc. }
  assert (Hst2 : state_of component_id w2 = state_of component_id w).
  { unfold state_of. by rewrite Hc2, Hc. }
  assert (Hs2 : sent_for component_id w2 = sent_for component_id w) by done.
  rewrite (check_notification_needed_run _ _ _ _ _ _ Hc2). cbv zeta.
  destruct (in_cooldown _ _ _).
  { eexists. split; [reflexivity|]. split; [done|].
    change (length (sent_for component_id w2)
            ≤ S (length (sent_for component_id w)))%nat.
    rewrite Hs2. lia. }
  destruct (notification_for _ _ _) as [[sev msg]|].
  - eexists. split; [reflexivity|]. split; [done|].
    change (length (filter (λ n, n_component_id n = component_id)
                      (sent w2 ++ [mkNotification component_id sev msg]))
            ≤ S (length (sent_for component_id w)))%nat.
    rewrite filter_app, length_app.
    change (filter (λ n, n_component_id n = component_id) (sent w2))
      with (sent_for component_id w2).
    rewrite Hs2, filter_cons, filter_nil. simpl.
    rewrite decide_True by done. simpl. lia.
  - eexists. split; [reflexivity|]. split; [done|].
    change (length (sent_for component_id w2)
            ≤ S (length (sent_for component_id w)))%nat.
    rewrite Hs2. lia.
Qed.

(** The step of the component sends at most one notification, and only
    when it enters the reported state. *)
Lemma at_most_one_check_component clk cs component_id st s0 :
  reports_state cs component_id st →
  maintains (at_most_one_more component_id st s0)
    (check_component clk cs component_id).
Proof.
  intros Hrep w [Hw|[Hst Hlen]].
  2:{ eapply wp_mono;
        [apply (steady_check_component clk cs component_id st
                  (sent_for component_id w) Hrep); by split | |];
      simpl; intros; right; destruct H as [H1 H2]; by rewrite H2. }
  unfold check_component.
  apply wp_bind, wp_lookup_any; [|by left].
  intros c Hc. apply wp_bind.
  destruct (status_data_for cs c component_id) as [sd|] eqn:Hsd.
  - destruct (Hrep _ _ Hsd) as (msg & lc & ->).
    eapply wp_mono;
      [apply update_component_status_sets; by eexists | | done].
    intros ? w1 [Hst1 Hs1]. rewrite Hw in Hs1.
    pose proof Hst1 as Hst1'.
    apply state_of_Some in Hst1' as (c1 & Hc1 & Hcs1).
    apply wp_bind, (wp_lookup _ c1); [done|].
    destruct (negb _).
    + apply wp_bind.
      destruct (handle_state_change_run clk component_id (c_state c)
                  (c_state c1) w1) as (w2 & Hrun & Hst2 & Hlen2);
        [by eexists|].
      unfold wp at 1. rewrite Hrun. apply wp_ret. right.
      split; [congruence | by rewrite <- Hs1].
    + apply wp_ret. by left.
  - apply wp_ret. apply wp_bind, (wp_lookup _ c); [done|].
    rewrite String.eqb_refl. simpl. apply wp_ret. by left.
Qed.

Lemma at_most_one_loop clk cs component_id st s0 ids b :
  reports_state cs component_id st →
  maintains (at_most_one_more component_id st s0)
    (check_components_loop clk cs ids b).
Proof.
  intros Hrep. revert b. induction ids as [|k ids IH]; intros b; simpl.
  - apply maintains_ret.
  - apply maintains_bind; [|intros changed; apply IH].
    destruct (decide (k = component_id)) as [->|Hk].
    + by apply at_most_one_check_component.
    + apply (preserves_maintains component_id).
      * apply at_most_one_more_respects.
      * apply preserves_check_component.
        by apply same_state_and_sent_framed.
Qed.

Lemma steady_loop clk cs component_id st s0 ids b :
  reports_state cs component_id st →
  maintains (steady component_id st s0) (check_components_loop clk cs ids b).
Proof.
  intros Hrep. revert b. induction ids as [|k ids IH]; intros b; simpl.
  - apply maintains_ret.
  - apply maintains_bind; [|intros changed; apply IH].
    destruct (decide (k = component_id)) as [->|Hk].
    + by apply steady_check_component.
    + apply (preserves_maintains component_id).
      * apply steady_respects.
      * apply preserves_check_component.
        by apply same_state_and_sent_framed.
Qed.

(** A tick maintains whatever its loop maintains, provided the property
    only depends on the state of the component and on the notifications
    sent for it. *)
Lemma maintains_check_all_components clk cs component_id (P : World → Prop) :
  (∀ w w', same_state_and_sent component_id w w' → P w → P w') →
  (∀ ids b, maintains P (check_components_loop clk cs ids b)) →
  maintains P (_check_all_components clk cs).
Proof.
  intros HP Hloop. unfold _check_all_components.
  apply maintains_bind; [|intros _].
  { apply (preserves_maintains component_id); [done|]. intros w. by split. }
  apply maintains_bind; [apply maintains_get_monitor | intros m].
  apply maintains_bind; [apply Hloop | intros changed].
  apply maintains_bind; [|intros _].
  { apply (preserves_maintains component_id); [done|].
    apply preserves_calculate_metrics. }
  apply maintains_bind; [|intros _].
  { apply (preserves_maintains component_id); [done|].
    apply preserves_clean_history. }
  destruct changed; [|apply maintains_ret].
  apply (preserves_maintains component_id); [done|].
  apply preserves_store_status_snapshot.
Qed.

Lemma maintains_iteration clk cs (P : World → Prop) w :
  maintains P (_check_all_components clk cs) →
  P w → P (_monitoring_loop_iteration clk cs w).
Proof.
  intros Hm Hw. unfold _monitoring_loop_iteration.
  destruct (negb _); [|done].
  unfold try_except. simpl.
  destruct (String.eqb _ _); [|done].
  apply wp_snd. by apply Hm.
Qed.

Lemma steady_run_loop clk inputs component_id st s0 w :
  Forall (λ cs, reports_state cs component_id st) inputs →
  steady component_id st s0 w →
  steady component_id st s0 (run_loop clk inputs w).
Proof.
  intros Hin. revert w. induction Hin as [|cs inputs Hcs Hin IH]; intros w Hw.
  - exact Hw.
  - change (run_loop clk (cs :: inputs) w)
      with (run_loop clk inputs (_monitoring_loop_iteration clk cs w)).
    apply IH. apply maintains_iteration; [|done].
    apply (maintains_check_all_components _ _ component_id).
    + apply steady_respects.
    + intros ids b. by apply steady_loop.
Qed.

(** C5: the notification policy is only reached from a detected
    transition.  Over any number of turns of the monitoring loop in
    which the status map reports warning for a component, at most one
    notification is sent for it (on its entering warning), however many
    the turns; and if the component already is in warning none is sent
    and the component stays in warning. *)
Theorem steady_warning_is_not_notified
    (clk : nat → datetime) (inputs : list CurrentStatus) (w : World)
    (component_id : string) :
  Forall (λ cs, reports_state cs component_id CONNECTION_STATE_WARNING) inputs →
  let w' := run_loop clk inputs w in
  (length (sent_for component_id w') ≤ S (length (sent_for component_id w)))%nat
  ∧ (state_of component_id w = Some CONNECTION_STATE_WARNING →
     sent_for component_id w' = sent_for component_id w
     ∧ state_of component_id w' = Some CONNECTION_STATE_WARNING).
Proof.
  intros Hin w'. subst w'. split.
  - revert w. induction Hin as [|cs inputs Hcs Hin IH]; intros w; [simpl; lia|].
    change (run_loop clk (cs :: inputs) w)
      with (run_loop clk inputs (_monitoring_loop_iteration clk cs w)).
    assert (Hq : at_most_one_more component_id CONNECTION_STATE_WARNING
                   (sent_for component_id w)
                   (_monitoring_loop_iteration clk cs w)).
    { apply maintains_iteration; [|by left].
      apply (maintains_check_all_components _ _ component_id).
      - apply at_most_one_more_respects.
      - intros ids b. by apply at_most_one_loop. }
    destruct Hq as [Hq|[Hst Hlen]].
    + rewrite <- Hq. apply IH.
    + destruct (steady_run_loop clk inputs component_id CONNECTION_STATE_WARNING
                  (sent_for component_id (_monitoring_loop_iteration clk cs w))
                  (_monitoring_loop_iteration clk cs w) Hin) as [_ Hs];
        [by split|].
      by rewrite Hs.
  - intros Hst.
    destruct (steady_run_loop clk inputs component_id CONNECTION_STATE_WARNING
                (sent_for component_id w) w Hin) as [H1 H2]; [by split|].
    by split.
Qed.

Lemma reports_warning_hub_warns :
  reports_state hub_warns "main_hub" CONNECTION_STATE_WARNING.
Proof.
  intros c sd H. unfold status_data_for in H.
  destruct (String.eqb _ _); vm_compute in H; [discriminate|].
  injection H as <-. by eexists _, _.
Qed.

(** Scenario C: the hub enters warning and stays there for two more
    turns: one notification in all. *)
Lemma steady_warning_is_not_notified_witness :
  let w := started (initial_world default_config) in
  let w' := run_loop ticking_clock [hub_warns; hub_warns; hub_warns] w in
  (length (sent_for "main_hub" w') ≤ 1)%nat
  ∧ sent_for "main_hub" (run_loop ticking_clock [hub_warns; hub_warns] w')
    = sent_for "main_hub" w'.
Proof.
  intros w w'.
  assert (H3 : Forall (λ cs, reports_state cs "main_hub" CONNECTION_STATE_WARNING)
                 [hub_warns; hub_warns; hub_warns]).
  { repeat constructor; apply reports_warning_hub_warns. }
  assert (H2 : Forall (λ cs, reports_state cs "main_hub" CONNECTION_STATE_WARNING)
                 [hub_warns; hub_warns]).
  { repeat constructor; apply reports_warning_hub_warns. }
  split.
  - apply (steady_warning_is_not_notified ticking_clock _ w "main_hub" H3).
  - apply (steady_warning_is_not_notified ticking_clock _ w' "main_hub" H2).
    vm_compute. reflexivity.
Defined.

(** ** Invariants of the loop of the tick *)

Lemma neutral_set_c_state s : neutral (set_c_state s).
Proof. by intros c. Qed.

Lemma neutral_set_c_message s : neutral (set_c_message s).
Proof. by intros c. Qed.

Lemma neutral_set_c_last_seen t : neutral (set_c_last_seen t).
Proof. by intros c. Qed.

Lemma neutral_update_consecutive_failures : neutral update_consecutive_failures.
Proof.
  intros c. unfold update_consecutive_failures.
  destruct (String.eqb _ _); [done|]. by destruct (_ || _).
Qed.

Section LoopInvariant.

Context (clk : nat → datetime) (P : World → Prop).
Context (HP : loop_invariant clk P).

Lemma li_now : maintains P (datetime_now clk).
Proof. intros w Hw. apply wp_now. by apply (li_reads clk P HP). Qed.

Lemma li_with_neutral f k :
  neutral f → maintains P (modify_monitor (with_component f k)).
Proof. intros Hf w Hw. apply wp_modify. by apply (li_neutral clk P HP). Qed.

Lemma li_send_notification k severity message :
  maintains P (_send_notification clk k severity message).
Proof.
  unfold _send_notification. apply maintains_bind; [|intros _].
  - intros w Hw. apply wp_emit. by apply (li_emit clk P HP).
  - apply maintains_bind; [apply li_now | intros _; apply maintains_ret].
Qed.

Lemma li_check_notification_needed k previous_state new_state :
  maintains P (_check_notification_needed clk k previous_state new_state).
Proof.
  unfold _check_notification_needed.
  apply maintains_bind; [apply maintains_lookup | intros c].
  apply maintains_bind; [apply li_now | intros now].
  apply maintains_bind; [apply maintains_get_monitor | intros m].
  destruct (in_cooldown k now m); [apply maintains_ret|].
  destruct (notification_for c previous_state new_state) as [[sev msg]|];
    [|apply maintains_ret].
  apply maintains_bind; [apply li_send_notification | intros _].
  intros w Hw. apply wp_modify. by apply (li_cooldown clk P HP).
Qed.

Lemma li_handle_state_change k previous_state new_state :
  maintains P (_handle_state_change clk k previous_state new_state).
Proof.
  intros w Hw. unfold _handle_state_change.
  apply wp_bind, wp_lookup_any; [|done]. intros c Hc.
  apply wp_bind, wp_now, wp_bind, wp_modify, wp_bind, wp_modify.
  apply li_check_notification_needed.
  apply (li_append clk P HP _ _
           (mkHistoryEntry new_state (clk (reads w)) (c_message c)) (reads w));
    [simpl; lia | reflexivity |].
  apply (li_events clk P HP). by apply (li_reads clk P HP).
Qed.

Lemma li_update_component_status k status_data :
  maintains P (_update_component_status clk k status_data).
Proof.
  unfold _update_component_status.
  apply maintains_bind; [apply maintains_lookup | intros _].
  destruct status_data as [st msg lc|]; [|apply maintains_raise].
  apply maintains_bind;
    [apply li_with_neutral, neutral_set_c_state | intros _].
  apply maintains_bind; [|intros _].
  { destruct msg;
      [apply li_with_neutral, neutral_set_c_message | apply maintains_ret]. }
  apply maintains_bind; [|intros _].
  { destruct lc as [[t|]|].
    - apply li_with_neutral, neutral_set_c_last_seen.
    - apply maintains_bind; [apply li_now | intros now].
      apply li_with_neutral, neutral_set_c_last_seen.
    - apply maintains_ret. }
  apply li_with_neutral, neutral_update_consecutive_failures.
Qed.

Lemma li_check_component cs k : maintains P (check_component clk cs k).
Proof.
  unfold check_component.
  apply maintains_bind; [apply maintains_lookup | intros c].
  apply maintains_bind; [|intros _].
  { destruct (status_data_for cs c k);
      [apply li_update_component_status | apply maintains_ret]. }
  apply maintains_bind; [apply maintains_lookup | intros c'].
  destruct (negb _); [|apply maintains_ret].
  apply maintains_bind; [apply li_handle_state_change | intros _].
  apply maintains_ret.
Qed.

Lemma li_loop cs ids b : maintains P (check_components_loop clk cs ids b).
Proof.
  revert b. induction ids as [|k ids IH]; intros b; simpl.
  - apply maintains_ret.
  - apply maintains_bind; [apply li_check_component | intros changed; apply IH].
Qed.

Lemma li_before_metrics cs w : P w → P (before_metrics clk cs w).
Proof.
  intros Hw. unfold before_metrics, reclassify_all. apply wp_snd.
  apply maintains_bind; [apply li_now | intros _ | done].
  apply maintains_bind; [apply maintains_get_monitor | intros m].
  apply li_loop.
Qed.

End LoopInvariant.

(** ** The uptime percentage *)

Lemma total_seconds_nonneg (d : timedelta) : 0 <= d → (0 <= total_seconds d)%Q.
Proof. intros H. unfold total_seconds, Qle. simpl. lia. Qed.

Lemma insert_by_timestamp_Forall (Q : HistoryEntry → Prop) h l :
  Q h → Forall Q l → Forall Q (insert_by_timestamp h l).
Proof.
  intros Hh Hl. induction Hl as [|x l Hx Hl IH]; simpl.
  - by constructor.
  - destruct (_ <=? _); repeat constructor; auto.
Qed.

Lemma sort_by_timestamp_Forall (Q : HistoryEntry → Prop) l :
  Forall Q l → Forall Q (sort_by_timestamp l).
Proof.
  unfold sort_by_timestamp. induction 1 as [|x l Hx Hl IH]; simpl.
  - constructor.
  - by apply insert_by_timestamp_Forall.
Qed.

Lemma insert_by_timestamp_sorted h l :
  Sorted earlier l → Sorted earlier (insert_by_timestamp h l).
Proof.
  induction l as [|x l IH]; intros Hs; simpl.
  - repeat constructor.
  - destruct (Z.leb_spec (h_timestamp h) (h_timestamp x)) as [Hle|Hgt].
    + constructor; [done|]. by constructor.
    + apply Sorted_inv in Hs as [Hs Hhd]. constructor; [by apply IH|].
      destruct l as [|y l]; simpl.
      * constructor. unfold earlier. lia.
      * destruct (Z.leb_spec (h_timestamp h) (h_timestamp y)).
        -- constructor. unfold earlier. lia.
        -- constructor. by apply HdRel_inv in Hhd.
Qed.

Lemma sort_by_timestamp_sorted l : Sorted earlier (sort_by_timestamp l).
Proof.
  unfold sort_by_timestamp. induction l as [|x l IH]; simpl.
  - constructor.
  - by apply insert_by_timestamp_sorted.
Qed.

(** Over a sorted history none of whose entries is later than [now], the
    connected time stays between zero and the total time. *)
Lemma accumulate_times_bounds now history connected_time total_time :
  Sorted earlier history →
  Forall (λ h, h_timestamp h <= now) history →
  (0 <= connected_time)%Q → (connected_time <= total_time)%Q →
  let '(c, t) := accumulate_times now history connected_time total_time in
  (0 <= c)%Q ∧ (c <= t)%Q.
Proof.
  revert connected_time total_time.
  induction history as [|h rest IH]; intros c0 t0 Hs Hf H0 H1; simpl.
  - done.
  - apply Sorted_inv in Hs as [Hs Hhd].
    apply Forall_cons in Hf as [Hh Hf].
    assert (Hd : (0 <= total_seconds
                         (match rest with
                          | [] => now
                          | h' :: _ => h_timestamp h'
                          end - h_timestamp h))%Q).
    { apply total_seconds_nonneg. destruct rest as [|h' rest'].
      - lia.
      - apply HdRel_inv in Hhd. unfold earlier in Hhd. lia. }
    apply IH; [done | done | |].
    + destruct (String.eqb _ _); lra.
    + destruct (String.eqb _ _); lra.
Qed.

Lemma percentage_of_ratio (c t : Q) :
  (0 <= c)%Q → (c <= t)%Q → (0 < t)%Q → is_percentage (c / t * 100)%Q.
Proof.
  intros H0 H1 Ht.
  assert (Hlo : (0 <= c / t)%Q).
  { apply Qle_shift_div_l; [done | lra]. }
  assert (Hhi : (c / t <= 1)%Q).
  { apply Qle_shift_div_r; [done | lra]. }
  split; lra.
Qed.

(** The body of [_calculate_metrics] keeps a good component good. *)
Lemma calculate_component_metrics_good now c :
  good_component now c → good_component now (calculate_component_metrics now c).
Proof.
  intros [Hp Hh]. unfold calculate_component_metrics.
  destruct (c_connection_history c) as [|h0 hs] eqn:Hhist;
    [split; [done | by rewrite Hhist]|].
  set (c1 := match last_24_hours now _ with [] => c | _ => _ end).
  assert (H1 : good_component now c1
               ∧ c_connection_history c1 = c_connection_history c).
  { subst c1. destruct (last_24_hours now (h0 :: hs)) as [|h1 win] eqn:Hwin.
    - split; [split; [done | by rewrite Hhist] | done].
    - assert (Hw : Forall (λ h, h_timestamp h <= now) (h1 :: win)).
      { rewrite <- Hwin. unfold last_24_hours.
        apply Forall_forall. intros x [_ Hx]%list_elem_of_filter.
        rewrite Forall_forall in Hh. by apply Hh. }
      pose proof (accumulate_times_bounds now (sort_by_timestamp (h1 :: win))
                    0%Q 0%Q (sort_by_timestamp_sorted _)
                    (sort_by_timestamp_Forall _ _ Hw)
                    ltac:(lra) ltac:(lra)) as Hb.
      destruct (accumulate_times now (sort_by_timestamp (h1 :: win)) 0%Q 0%Q)
        as [ct tt].
      destruct Hb as [Hb0 Hb1].
      destruct (Qltb 0 tt) eqn:Ht.
      + apply Qltb_lt in Ht. split; [|done]. split; simpl.
        * by apply percentage_of_ratio.
        * by rewrite Hhist.
      + split; [split; [done | by rewrite Hhist] | done]. }
  destruct H1 as [[Hp1 Hh1] Heq].
  destruct (100 <? _)%nat; [|by split].
  split; [done|]. simpl. by apply Forall_drop.
Qed.

Lemma good_component_later t t' c :
  t <= t' → good_component t c → good_component t' c.
Proof.
  intros Ht [Hp Hh]. split; [done|].
  eapply Forall_impl; [exact Hh|]. simpl. intros h Hle. lia.
Qed.

(** With no entry of the history in the window, the uptime keeps its
    value. *)
Lemma calculate_component_metrics_retains now c :
  last_24_hours now (c_connection_history c) = [] →
  c_uptime_percentage (calculate_component_metrics now c) = c_uptime_percentage c.
Proof.
  intros Hw. unfold calculate_component_metrics.
  destruct (c_connection_history c) as [|h0 hs]; [done|].
  rewrite Hw. by destruct (100 <? _)%nat.
Qed.

Lemma Forall_registry_alter (Q : string * Component → Prop) f k (r : Registry) :
  (∀ k' c, Q (k', c) → Q (k', f c)) →
  Forall Q r → Forall Q (registry_alter f k r).
Proof.
  intros Hf Hr. induction Hr as [|[k' c] r Hc Hr IH]; simpl; [constructor|].
  destruct (String.eqb k k'); constructor; auto.
Qed.

Lemma registry_get_elem k c (r : Registry) :
  registry_get k r = Some c → (k, c) ∈ r.
Proof.
  induction r as [|[k' c'] r IH]; simpl; [done|].
  destruct (String.eqb_spec k k') as [->|Hk].
  - intros [= ->]. by left.
  - intros H. right. by apply IH.
Qed.

(** Under a clock that never steps backwards, the loop of the tick keeps
    every component good. *)
Lemma uptime_invariant_loop clk :
  monotone_clock clk → loop_invariant clk (uptime_invariant clk).
Proof.
  intros Hclk. split.
  - intros w Hw. unfold uptime_invariant in *. simpl.
    eapply Forall_impl; [exact Hw|]. intros kc. simpl.
    apply good_component_later, Hclk. lia.
  - intros w f k Hf Hw. unfold uptime_invariant in *. simpl.
    apply Forall_registry_alter; [|done].
    intros k' c [Hp Hh]. simpl in *. destruct (Hf c) as [Hu Hhist].
    split; simpl; [by rewrite Hu | by rewrite Hhist].
  - intros w k e r Hr He Hw. unfold uptime_invariant in *. simpl.
    apply Forall_registry_alter; [|done].
    intros k' c [Hp Hh]. simpl in *. split; [done|]. simpl.
    apply Forall_app. split; [done|]. constructor; [|constructor].
    rewrite He. by apply Hclk.
  - by intros w h Hw.
  - by intros w t Hw.
  - by intros w n Hw.
Qed.

(** The uptime of a component is not changed by the loop of the tick. *)
Lemma same_uptime_loop clk component_id u :
  loop_invariant clk (λ w, uptime_of component_id w = u).
Proof.
  assert (Ha : ∀ w f k,
             (∀ c, c_uptime_percentage (f c) = c_uptime_percentage c) →
             uptime_of component_id
               (set_monitor (with_component f k (monitor w)) w)
             = uptime_of component_id w).
  { intros w f k Hf. unfold uptime_of. simpl. rewrite registry_get_alter.
    destruct (String.eqb k component_id); [|done].
    destruct (registry_get component_id _); simpl; [|done]. by rewrite Hf. }
  split.
  - by intros w Hw.
  - intros w f k Hf Hw. rewrite Ha; [done|]. intros c. apply Hf.
  - intros w k e r _ _ Hw. by rewrite Ha.
  - by intros w h Hw.
  - by intros w t Hw.
  - by intros w n Hw.
Qed.

Lemma uptime_invariant_calculate_metrics clk :
  monotone_clock clk → maintains (uptime_invariant clk) (_calculate_metrics clk).
Proof.
  intros Hclk w Hw. unfold _calculate_metrics.
  apply wp_bind, wp_now, wp_modify.
  unfold uptime_invariant in *. simpl.
  apply Forall_map. eapply Forall_impl; [exact Hw|].
  intros [k c] Hc. simpl in *.
  apply (good_component_later (clk (reads w))); [apply Hclk; lia|].
  by apply calculate_component_metrics_good.
Qed.

Lemma uptime_invariant_check_all_components clk cs :
  monotone_clock clk →
  maintains (uptime_invariant clk) (_check_all_components clk cs).
Proof.
  intros Hclk. pose proof (uptime_invariant_loop clk Hclk) as HL.
  unfold _check_all_components.
  apply maintains_bind; [by apply li_now | intros _].
  apply maintains_bind; [apply maintains_get_monitor | intros m].
  apply maintains_bind; [by apply li_loop | intros changed].
  apply maintains_bind; [by apply uptime_invariant_calculate_metrics | intros _].
  apply maintains_bind; [|intros _].
  { unfold _clean_history.
    apply maintains_bind; [by apply li_now | intros now].
    intros w Hw. apply wp_modify. by apply (li_events _ _ HL). }
  destruct changed; [|apply maintains_ret].
  apply maintains_try.
  apply maintains_bind; [by apply li_now | intros _].
  by intros w Hw.
Qed.

Lemma uptime_invariant_initial clk cfg : uptime_invariant clk (initial_world cfg).
Proof.
  unfold uptime_invariant. simpl.
  repeat constructor; simpl; unfold Qle; simpl; lia.
Qed.

Lemma uptime_invariant_operation clk w op :
  monotone_clock clk →
  uptime_invariant clk w → uptime_invariant clk (run_operation clk w op).
Proof.
  intros Hclk Hw. destruct op; simpl.
  - unfold start. by destruct (negb _).
  - unfold stop. by destruct (String.eqb _ _).
  - unfold pause. by destruct (negb _).
  - unfold resume. by destruct (negb _).
  - apply maintains_iteration; [|done].
    by apply uptime_invariant_check_all_components.
  - apply wp_snd. by apply uptime_invariant_check_all_components.
  - unfold record_activity, mbind, M_bind, get_monitor.
    destruct (registry_get _ _) as [c|]; [|done].
    destruct (String.eqb _ _); simpl; [done|].
    by apply (li_reads _ _ (uptime_invariant_loop clk Hclk)).
Qed.

Lemma uptime_invariant_operations clk ops w :
  monotone_clock clk →
  uptime_invariant clk w → uptime_invariant clk (run_operations clk ops w).
Proof.
  intros Hclk. revert w. induction ops as [|op ops IH]; intros w Hw; [done|].
  apply IH. by apply uptime_invariant_operation.
Qed.

(** The tick is its loop over the registry followed by the metrics, the
    clean-up and the snapshot. *)
Lemma check_all_components_split clk cs w :
  _check_all_components clk cs w =
  (status_changed ← reclassify_all clk cs;
   _calculate_metrics clk ;;
   _clean_history clk ;;
   if status_changed : bool then _store_status_snapshot clk else mret tt) w.
Proof.
  unfold _check_all_components, reclassify_all, mbind, M_bind, datetime_now,
    get_monitor.
  cbn [monitor].
  by destruct (check_components_loop _ _ _ _ _) as [[e|b] w1].
Qed.

(** A tick in which the component has nothing in the window of the
    metrics pass leaves its uptime as it was. *)
Lemma check_all_components_retains clk cs w component_id :
  (∀ c,
     registry_get component_id
       (_component_registry (monitor (before_metrics clk cs w))) = Some c →
     last_24_hours (clk (reads (before_metrics clk cs w)))
       (c_connection_history c) = []) →
  uptime_of component_id (_check_all_components clk cs w).2
  = uptime_of component_id w.
Proof.
  intros Hwin.
  assert (Hb : uptime_of component_id (before_metrics clk cs w)
               = uptime_of component_id w).
  { by apply (li_before_metrics clk _ (same_uptime_loop clk component_id _)). }
  revert Hwin Hb. rewrite check_all_components_split.
  unfold before_metrics, mbind at 1, M_bind at 1.
  destruct (reclassify_all clk cs w) as [[e|changed] w1];
    cbn [snd]; intros Hwin Hb; [done|].
  rewrite <- Hb.
  unfold _calculate_metrics, _clean_history, _store_status_snapshot, try_except,
    mbind, M_bind, datetime_now, modify_monitor, store_connection_status.
  assert (Hm :
             c_uptime_percentage <$>
               registry_get component_id
                 (map (λ kc, (kc.1, calculate_component_metrics
                                      (clk (reads w1)) kc.2))
                    (_component_registry (monitor w1)))
             = uptime_of component_id w1).
  { unfold uptime_of. rewrite registry_get_map.
    destruct (registry_get component_id _) as [c|] eqn:Hc; simpl; [|done].
    by rewrite calculate_component_metrics_retains by by apply Hwin. }
  destruct changed; simpl; unfold uptime_of at 1; simpl; exact Hm.
Qed.

(** C8, as stated, fails: when the wall clock is set back, the uptime of
    the hub, online for 7200 s of an observed time of 3660 s, is above
    100. *)
Lemma uptime_above_100_when_clock_set_back :
  ¬ uptimes_in_range
      (run_operations clock_set_back three_ticks (initial_world default_config)).
Proof.
  intros H. pose proof (H "main_hub") as H1.
  remember (uptime_of "main_hub"
              (run_operations clock_set_back three_ticks
                 (initial_world default_config))) as u eqn:E.
  vm_compute in E. subst u.
  destruct (H1 _ eq_refl) as [_ Hhi].
  vm_compute in Hhi. by apply Hhi.
Qed.

(** C8, amended: as long as the clock read by the monitor never steps
    backwards, every uptime percentage is in [0, 100] after every
    sequence of operations on the monitor as constructed (the division
    is only made by a positive total time); and, whatever the clock, a
    tick in which the component has no history entry inside the 24-hour
    window of the metrics pass leaves its uptime percentage at its
    previous value. *)
Theorem uptime_is_a_percentage
    (clk : nat → datetime) (cfg : Config) (ops : list Operation) :
  (monotone_clock clk →
   uptimes_in_range (run_operations clk ops (initial_world cfg)))
  ∧ ∀ (w : World) (cs : CurrentStatus) (component_id : string),
      (∀ c,
         registry_get component_id
           (_component_registry (monitor (before_metrics clk cs w))) = Some c →
         last_24_hours (clk (reads (before_metrics clk cs w)))
           (c_connection_history c) = []) →
      uptime_of component_id (_check_all_components clk cs w).2
      = uptime_of component_id w.
Proof.
  split.
  - intros Hclk component_id q Hq.
    pose proof (uptime_invariant_operations clk ops _ Hclk
                  (uptime_invariant_initial clk cfg)) as Hinv.
    unfold uptime_of in Hq. apply fmap_Some in Hq as (c & Hc & ->).
    apply registry_get_elem in Hc.
    unfold uptime_invariant in Hinv. rewrite Forall_forall in Hinv.
    by destruct (Hinv _ Hc) as [Hp _].
  - intros w cs component_id. apply check_all_components_retains.
Qed.

Lemma monotone_ticking_clock : monotone_clock ticking_clock.
Proof. intros i j Hij. unfold ticking_clock. lia. Qed.

(** The three ticks under a clock that advances: the uptimes are
    percentages.  Under the clock that is set back, a tick of the
    monitor as started in which nothing is reported: the hub has no
    history, and its uptime is as it was. *)
Lemma uptime_is_a_percentage_witness :
  (monotone_clock ticking_clock
   ∧ uptimes_in_range
       (run_operations ticking_clock three_ticks (initial_world default_config)))
  ∧ uptime_of "main_hub"
      (_check_all_components clock_set_back no_report
         (started (initial_world default_config))).2
    = uptime_of "main_hub" (started (initial_world default_config)).
Proof.
  split.
  - split; [exact monotone_ticking_clock|].
    apply (proj1 (uptime_is_a_percentage ticking_clock default_config three_ticks)).
    exact monotone_ticking_clock.
  - apply (proj2 (uptime_is_a_percentage clock_set_back default_config [])
             (started (initial_world default_config)) no_report "main_hub").
    intros c Hc. vm_compute in Hc. injection Hc as <-. reflexivity.
Defined.

(** * Further properties of the monitor *)

(** ** The update of a component from its status datum *)

(** X1: for a registered component and a status datum that is a dict,
    [_update_component_status] returns and leaves the entry
    [updated_component]: the state is the reported one, or unknown when
    none is reported; the message and the last-seen time are kept when
    not reported, and a last-connected time that does not parse is
    replaced by the clock reading; the failure counter is reset by
    online, incremented by warning, error and critical, kept otherwise.
    The other entries, the notifications and the event history are
    untouched. *)
Theorem update_component_status_result
    (clk : nat → datetime) (k : string) (st msg : option string)
    (lc : option IsoField) (w : World) (c : Component) :
  registry_get k (_component_registry (monitor w)) = Some c →
  ∃ w',
    _update_component_status clk k (PyDict st msg lc) w = (inr tt, w')
    ∧ registry_get k (_component_registry (monitor w'))
      = Some (updated_component (clk (reads w)) st msg lc c)
    ∧ (∀ k', k' ≠ k →
         registry_get k' (_component_registry (monitor w'))
         = registry_get k' (_component_registry (monitor w)))
    ∧ sent w' = sent w
    ∧ _event_history (monitor w') = _event_history (monitor w).
Proof.
  intros Hc. unfold _update_component_status, mbind, M_bind, registry_lookup.
  rewrite Hc.
  destruct msg as [m|], lc as [[t|]|]; simpl;
    (eexists; split; [reflexivity|]; simpl;
     split; [|split; [|done]];
     [ rewrite !registry_get_alter_eq, Hc; simpl; f_equal;
       unfold update_consecutive_failures, updated_component; simpl;
       destruct c; simpl;
       repeat (destruct (String.eqb _ _); simpl; try reflexivity)
     | intros k' Hk'; by rewrite !registry_get_alter_ne by done ]).
Qed.

(** The hub, three failures so far, reports that it is online. *)
Lemma update_component_status_result_witness :
  let w := initial_world default_config in
  ∃ w',
    _update_component_status ticking_clock "main_hub"
      (PyDict (Some CONNECTION_STATE_ONLINE) None (Some IsoInvalid)) w
    = (inr tt, w')
    ∧ (c_consecutive_failures <$>
         registry_get "main_hub" (_component_registry (monitor w'))) = Some 0
    ∧ (c_last_seen <$>
         registry_get "main_hub" (_component_registry (monitor w')))
      = Some (Some 0).
Proof.
  intros w.
  edestruct (update_component_status_result ticking_clock "main_hub"
               (Some CONNECTION_STATE_ONLINE) None (Some IsoInvalid) w)
    as (w' & Hrun & Hget & _); [reflexivity|].
  exists w'. split; [exact Hrun|]. by rewrite Hget.
Defined.

(** ** The cap on the connection history *)

Lemma calculate_component_metrics_history now c :
  c_connection_history (calculate_component_metrics now c)
  = drop (length (c_connection_history c) - 100) (c_connection_history c).
Proof.
  unfold calculate_component_metrics.
  destruct (c_connection_history c) as [|h0 hs] eqn:Hh; [by rewrite Hh|].
  set (c1 := match last_24_hours now _ with [] => c | _ => _ end).
  assert (H1 : c_connection_history c1 = h0 :: hs).
  { subst c1. destruct (last_24_hours now _); [done|].
    destruct (accumulate_times _ _ _ _) as [ct tt].
    by destruct (Qltb 0 tt). }
  rewrite H1.
  destruct (Nat.ltb_spec 100 (length (h0 :: hs))) as [Hlt|Hge].
  - reflexivity.
  - rewrite H1.
    replace (length (h0 :: hs) - 100)%nat with 0%nat by lia.
    reflexivity.
Qed.

(** X2: [_calculate_metrics] leaves to every component the last 100
    entries of its connection history, in order (all of them when there
    are no more than 100): afterwards no history is longer than 100, and
    the state of the component is as before. *)
Theorem calculate_metrics_caps_history
    (clk : nat → datetime) (w : World) (k : string) (c : Component) :
  registry_get k (_component_registry (monitor w)) = Some c →
  ∃ c',
    registry_get k (_component_registry (monitor (_calculate_metrics clk w).2))
    = Some c'
    ∧ c_connection_history c'
      = drop (length (c_connection_history c) - 100) (c_connection_history c)
    ∧ (length (c_connection_history c') ≤ 100)%nat
    ∧ c_state c' = c_state c.
Proof.
  intros Hc. exists (calculate_component_metrics (clk (reads w)) c).
  split; [|split; [|split]].
  - simpl. by rewrite registry_get_map, Hc.
  - apply calculate_component_metrics_history.
  - rewrite calculate_component_metrics_history, length_drop. lia.
  - apply calculate_metrics_state.
Qed.

(** A history of 103 entries is cut down to its last 100. *)
Lemma calculate_metrics_caps_history_witness :
  let entry := λ n : nat, mkHistoryEntry "online" (Z.of_nat n) "" in
  let c := set_c_connection_history (entry <$> seq 0 103)
             (fresh_component "x" "hub" "X" false 60 None) in
  let w := set_monitor
             (set_registry [("x", c)] (ConnectionMonitor default_config))
             (initial_world default_config) in
  ∃ c',
    registry_get "x"
      (_component_registry (monitor (_calculate_metrics ticking_clock w).2))
    = Some c'
    ∧ c_connection_history c' = entry <$> seq 3 100.
Proof.
  intros entry c w.
  edestruct (calculate_metrics_caps_history ticking_clock w "x")
    as (c' & Hget & Hh & _ & _); [reflexivity|].
  exists c'. split; [exact Hget|]. rewrite Hh. reflexivity.
Defined.

(** ** Pausing and stopping *)

Lemma run_loop_inactive clk inputs w :
  _state (monitor w) ≠ MONITOR_STATE_ACTIVE → run_loop clk inputs w = w.
Proof.
  intros Hst. induction inputs as [|cs inputs IH]; [reflexivity|].
  change (run_loop clk (cs :: inputs) w)
    with (run_loop clk inputs (_monitoring_loop_iteration clk cs w)).
  assert (Hit : _monitoring_loop_iteration clk cs w = w).
  { unfold _monitoring_loop_iteration.
    destruct (negb _); [|reflexivity].
    rewrite eqb_decide, bool_decide_eq_false_2 by done. reflexivity. }
  by rewrite Hit.
Qed.

(** X3: while the monitor is paused, the turns of the monitoring loop
    change nothing at all (no reclassification, no notification, no
    clock reading); and resuming after a pause gives back the monitor
    exactly as it was when paused from the active state. *)
Theorem pause_suspends_the_loop
    (clk : nat → datetime) (inputs : list CurrentStatus) (w : World) :
  _state (monitor w) = MONITOR_STATE_ACTIVE →
  let paused := set_monitor (pause (monitor w)).2 w in
  (pause (monitor w)).1 = true
  ∧ run_loop clk inputs paused = paused
  ∧ resume (monitor (run_loop clk inputs paused)) = (true, monitor w).
Proof.
  intros Hst paused.
  assert (Hp : pause (monitor w)
               = (true, set_state MONITOR_STATE_PAUSED (monitor w))).
  { unfold pause. by rewrite Hst. }
  assert (Hloop : run_loop clk inputs paused = paused).
  { apply run_loop_inactive. subst paused. by rewrite Hp. }
  split; [by rewrite Hp|]. split; [exact Hloop|].
  rewrite Hloop. subst paused. rewrite Hp. simpl.
  destruct w as [m l s n r]. destruct m. simpl in *. by subst.
Qed.

(** The monitor as started, paused over three turns that report the hub
    late. *)
Lemma pause_suspends_the_loop_witness :
  let w := started (initial_world default_config) in
  let paused := set_monitor (pause (monitor w)).2 w in
  run_loop ticking_clock [hub_warns; hub_warns; hub_warns] paused = paused
  ∧ resume (monitor paused) = (true, monitor w).
Proof.
  intros w paused.
  destruct (pause_suspends_the_loop ticking_clock
              [hub_warns; hub_warns; hub_warns] w eq_refl) as (_ & H1 & H2).
  fold paused in H1, H2. split; [exact H1|]. by rewrite H1 in H2.
Defined.

(** X4: once the monitor is stopped, the turns of the monitoring loop
    change nothing, and the monitor can be started again. *)
Theorem stop_ends_the_loop
    (clk : nat → datetime) (inputs : list CurrentStatus) (w : World) :
  let stopped := set_monitor (stop (monitor w)).2 w in
  _state (monitor stopped) = MONITOR_STATE_STOPPED
  ∧ run_loop clk inputs stopped = stopped
  ∧ (start (monitor stopped)).1 = true.
Proof.
  intros stopped.
  assert (Hs : _state (monitor stopped) = MONITOR_STATE_STOPPED).
  { subst stopped. unfold stop. simpl.
    destruct (String.eqb_spec (_state (monitor w)) MONITOR_STATE_STOPPED);
      [done | reflexivity]. }
  split; [exact Hs|]. split.
  - apply run_loop_inactive. by rewrite Hs.
  - unfold start. by rewrite Hs.
Qed.

(** ** A tick without reports *)

Lemma check_component_without_report clk cs k w :
  reports_nothing_registered cs w →
  is_Some (registry_get k (_component_registry (monitor w))) →
  check_component clk cs k w = (inr false, w).
Proof.
  intros Hn [c Hc]. unfold check_component, mbind, M_bind, registry_lookup.
  rewrite Hc, (Hn k c Hc). simpl. rewrite Hc, String.eqb_refl. reflexivity.
Qed.

Lemma loop_without_report clk cs ids b w :
  reports_nothing_registered cs w →
  (∀ k, k ∈ ids → is_Some (registry_get k (_component_registry (monitor w)))) →
  check_components_loop clk cs ids b w = (inr b, w).
Proof.
  intros Hn. revert b. induction ids as [|k ids IH]; intros b Hreg; simpl.
  - reflexivity.
  - unfold mbind, M_bind.
    rewrite check_component_without_report; [|done|apply Hreg; by left].
    rewrite orb_false_r. apply IH. intros k' Hk'. apply Hreg. by right.
Qed.

Lemma registry_get_of_key k (r : Registry) :
  k ∈ map fst r → is_Some (registry_get k r).
Proof.
  induction r as [|[k0 c] r IH]; simpl.
  - by intros ?%elem_of_nil.
  - intros [->|H]%elem_of_cons.
    + rewrite String.eqb_refl. by eexists.
    + destruct (String.eqb k k0); [by eexists | by apply IH].
Qed.

(** It is enough that no item of the registry has a datum. *)
Lemma reports_nothing_registered_items cs w :
  Forall (λ kc : string * Component, status_data_for cs kc.2 kc.1 = None)
    (_component_registry (monitor w)) →
  reports_nothing_registered cs w.
Proof.
  intros Hall k c Hc. apply registry_get_elem in Hc.
  rewrite Forall_forall in Hall. exact (Hall (k, c) Hc).
Qed.

(** X5: when the status map has no datum for any component of the
    registry (whatever it holds under other ids), the tick returns
    normally after three clock readings, detects no transition, sends
    nothing, stores no snapshot and leaves every cached state and the
    cooldown table as they were; only the metrics and the clean-up of
    the event history run. *)
Theorem tick_without_reports
    (clk : nat → datetime) (cs : CurrentStatus) (w : World) :
  reports_nothing_registered cs w →
  ∃ w',
    _check_all_components clk cs w = (inr tt, w')
    ∧ sent w' = sent w
    ∧ snapshots w' = snapshots w
    ∧ reads w' = (reads w + 3)%nat
    ∧ (∀ k, state_of k w' = state_of k w)
    ∧ _last_notification_time (monitor w') = _last_notification_time (monitor w)
    ∧ _event_history (monitor w')
      = filter (λ e, clk (S (S (reads w))) - timedelta_days HISTORY_RETENTION_DAYS
                     < e_timestamp e)
          (_event_history (monitor w)).
Proof.
  intros Hn.
  unfold _check_all_components, mbind, M_bind, datetime_now, get_monitor.
  cbn [monitor].
  rewrite loop_without_report;
    [| intros k c Hc; exact (Hn k c Hc) | intros k Hk; by apply registry_get_of_key].
  unfold _calculate_metrics, _clean_history, mbind, M_bind, datetime_now,
    modify_monitor. simpl.
  eexists. split; [reflexivity|]. simpl.
  repeat split; try done.
  - lia.
  - intros k. unfold state_of. simpl. rewrite registry_get_map.
    destruct (registry_get k _); simpl; [|done].
    by rewrite calculate_metrics_state.
Qed.

(** The monitor as started, while the status map holds data for the
    server and for a sensor of the plant node only. *)
Lemma tick_without_reports_witness :
  let w := started (initial_world default_config) in
  reports_nothing_registered server_reports w
  ∧ ∃ w',
      _check_all_components ticking_clock server_reports w = (inr tt, w')
      ∧ sent w' = [] ∧ snapshots w' = 0%nat ∧ reads w' = 3%nat.
Proof.
  intros w.
  assert (Hn : reports_nothing_registered server_reports w).
  { apply reports_nothing_registered_items. subst w.
    unfold started, initial_world. simpl.
    repeat (apply Forall_cons_2; [vm_compute; reflexivity|]). apply Forall_nil_2. }
  split; [exact Hn|].
  destruct (tick_without_reports ticking_clock server_reports w Hn)
    as (w' & Hrun & Hs & Hsn & Hr & _).
  exists w'. split; [exact Hrun|]. by rewrite Hs, Hsn, Hr.
Defined.

(** ** Registration *)

Lemma registry_get_set k k' v (r : Registry) :
  registry_get k' (registry_set k v r)
  = if String.eqb k' k then Some v else registry_get k' r.
Proof.
  induction r as [|[k0 c] r IH]; simpl.
  - reflexivity.
  - destruct (String.eqb_spec k k0) as [->|Hk]; simpl.
    + by destruct (String.eqb k' k0).
    + destruct (String.eqb_spec k' k0) as [->|Hk'].
      * destruct (String.eqb_spec k0 k); [congruence | reflexivity].
      * exact IH.
Qed.

Lemma registry_keys_set k v (r : Registry) :
  map fst (registry_set k v r)
  = match registry_get k r with
    | Some _ => map fst r
    | None => map fst r ++ [k]
    end.
Proof.
  induction r as [|[k0 c] r IH]; simpl; [reflexivity|].
  destruct (String.eqb_spec k k0) as [->|Hk]; simpl; [reflexivity|].
  rewrite IH. by destruct (registry_get k r).
Qed.

(** X6: [_register_component] makes the component known with the entry
    of a component that was never seen (state unknown, message "Not yet
    connected", no failures, uptime 0, empty history), leaves every other
    component as it was, appends a new id at the end of the registry and
    keeps the place of an id that was registered already (whose entry it
    resets). *)
Theorem register_component_lookup
    (component_id component_type display_name : string) (critical : bool)
    (expected_interval : Z) (parent : option string) (m : Monitor) :
  let m' := _register_component component_id component_type display_name
              critical expected_interval parent m in
  registry_get component_id (_component_registry m')
  = Some (fresh_component component_id component_type display_name critical
            expected_interval parent)
  ∧ (∀ k, k ≠ component_id →
       registry_get k (_component_registry m')
       = registry_get k (_component_registry m))
  ∧ map fst (_component_registry m')
    = match registry_get component_id (_component_registry m) with
      | Some _ => map fst (_component_registry m)
      | None => map fst (_component_registry m) ++ [component_id]
      end.
Proof.
  intros m'. subst m'. unfold _register_component. simpl.
  split; [|split].
  - by rewrite registry_get_set, String.eqb_refl.
  - intros k Hk. rewrite registry_get_set.
    by destruct (String.eqb_spec k component_id).
  - apply registry_keys_set.
Qed.

(** ** The notification policy *)

Lemma notification_for_cases c previous_state new_state severity message :
  notification_for c previous_state new_state = Some (severity, message) →
  (severity = "info"
   ∧ new_state = CONNECTION_STATE_ONLINE
   ∧ previous_state ∈ [CONNECTION_STATE_WARNING; CONNECTION_STATE_ERROR;
                       CONNECTION_STATE_CRITICAL])
  ∨ (severity = "warning"
     ∧ ((new_state = CONNECTION_STATE_WARNING ∧ c_critical c = true)
        ∨ (new_state ∈ [CONNECTION_STATE_ERROR; CONNECTION_STATE_CRITICAL]
           ∧ c_critical c = false)))
  ∨ (severity = "error"
     ∧ new_state ∈ [CONNECTION_STATE_ERROR; CONNECTION_STATE_CRITICAL]
     ∧ c_critical c = true).
Proof.
  unfold notification_for. rewrite !eqb_decide.
  repeat case_bool_decide; simpl; subst;
    destruct (c_critical c) eqn:Ec; simpl;
    intros [= <- <-]; set_solver.
Qed.

(** X7: the notification policy.  [_check_notification_needed], for a
    registered component, either sends nothing and leaves the cooldown
    table as it is, or sends exactly one notification, for that
    component, and records the clock reading in its cooldown entry.  The
    notification is an info on a return to online from warning, error or
    critical; a warning on a critical component entering warning or on a
    non-critical component entering error or critical; an error on a
    critical component entering error or critical.  No other transition
    is notified (not a first connection, not a non-critical component
    entering warning), and no notification has the severity critical. *)
Theorem notification_policy
    (clk : nat → datetime) (w : World)
    (component_id previous_state new_state : string) (c : Component) :
  registry_get component_id (_component_registry (monitor w)) = Some c →
  let w' := (_check_notification_needed clk component_id previous_state
               new_state w).2 in
  (sent w' = sent w
   ∧ _last_notification_time (monitor w') = _last_notification_time (monitor w))
  ∨ ∃ severity message,
      sent w' = sent w ++ [mkNotification component_id severity message]
      ∧ _last_notification_time (monitor w')
        = <[component_id := clk (reads w)]> (_last_notification_time (monitor w))
      ∧ ((severity = "info"
          ∧ new_state = CONNECTION_STATE_ONLINE
          ∧ previous_state ∈ [CONNECTION_STATE_WARNING; CONNECTION_STATE_ERROR;
                              CONNECTION_STATE_CRITICAL])
         ∨ (severity = "warning"
            ∧ ((new_state = CONNECTION_STATE_WARNING ∧ c_critical c = true)
               ∨ (new_state ∈ [CONNECTION_STATE_ERROR; CONNECTION_STATE_CRITICAL]
                  ∧ c_critical c = false)))
         ∨ (severity = "error"
            ∧ new_state ∈ [CONNECTION_STATE_ERROR; CONNECTION_STATE_CRITICAL]
            ∧ c_critical c = true)).
Proof.
  intros Hc w'. subst w'.
  rewrite (check_notification_needed_run _ _ _ _ _ _ Hc). cbv zeta.
  destruct (in_cooldown _ _ _); [by left|].
  destruct (notification_for c previous_state new_state) as [[sev msg]|] eqn:Hn;
    [|by left].
  right. exists sev, msg. simpl. split; [done|]. split; [done|].
  by apply (notification_for_cases _ _ _ _ _ Hn).
Qed.

(** The camera, not critical, goes from online to warning: nothing is
    sent; then to error: a warning is sent. *)
Lemma notification_policy_witness :
  let w := initial_world default_config in
  sent (_check_notification_needed ticking_clock "camera" "online" "warning" w).2
  = []
  ∧ n_severity <$>
      sent (_check_notification_needed ticking_clock "camera" "warning" "error"
              w).2
    = ["warning"].
Proof.
  intros w.
  destruct (notification_policy ticking_clock w "camera" "online" "warning" _
              eq_refl) as [[H _]|(sev & msg & _ & _ & H)].
  2:{ exfalso.
      destruct H as [(_ & H & _)|[(_ & [[_ H]|[H _]])|(_ & H & _)]].
      - discriminate H.
      - vm_compute in H. discriminate H.
      - by repeat (apply elem_of_cons in H as [H|H]; [discriminate H|]);
          apply elem_of_nil in H.
      - by repeat (apply elem_of_cons in H as [H|H]; [discriminate H|]);
          apply elem_of_nil in H. }
  split; [exact H|]. reflexivity.
Defined.

(** ** Properties kept by every operation *)

Lemma notification_for_severity c previous_state new_state severity message :
  notification_for c previous_state new_state = Some (severity, message) →
  severity ∈ severities.
Proof.
  intros H. apply notification_for_cases in H.
  destruct H as [(-> & _)|[(-> & _)|(-> & _)]]; unfold severities; set_solver.
Qed.

Section StepInvariant.

Context (clk : nat → datetime) (k : string) (P : World → Prop).
Context (HP : step_invariant clk k P).

Lemma si_now : maintains P (datetime_now clk).
Proof. intros w Hw. apply wp_now. by apply (si_reads clk k P HP). Qed.

Lemma si_with_field f :
  field_update f → maintains P (modify_monitor (with_component f k)).
Proof. intros Hf w Hw. apply wp_modify. by apply (si_field clk k P HP). Qed.

Lemma si_update_component_status status_data :
  maintains P (_update_component_status clk k status_data).
Proof.
  unfold _update_component_status.
  apply maintains_bind; [apply maintains_lookup | intros _].
  destruct status_data as [st msg lc|]; [|apply maintains_raise].
  apply maintains_bind; [apply si_with_field; constructor | intros _].
  apply maintains_bind; [|intros _].
  { destruct msg; [apply si_with_field; constructor | apply maintains_ret]. }
  apply maintains_bind; [|intros _].
  { destruct lc as [[t|]|].
    - apply si_with_field; constructor.
    - apply maintains_bind; [apply si_now | intros now].
      apply si_with_field; constructor.
    - apply maintains_ret. }
  apply si_with_field; constructor.
Qed.

Lemma si_check_notification_needed previous_state new_state :
  maintains P (_check_notification_needed clk k previous_state new_state).
Proof.
  intros w Hw. unfold _check_notification_needed.
  apply wp_bind, wp_lookup_any; [|done]. intros c Hc.
  apply wp_bind, wp_now, wp_bind, wp_get_monitor.
  destruct (in_cooldown _ _ _); [apply wp_ret; by apply (si_reads clk k P HP)|].
  destruct (notification_for c previous_state new_state) as [[sev msg]|] eqn:Hn;
    [|apply wp_ret; by apply (si_reads clk k P HP)].
  apply wp_bind. unfold _send_notification.
  apply wp_bind, wp_emit, wp_bind, wp_now, wp_ret, wp_modify.
  apply (si_cooldown clk k P HP), (si_reads clk k P HP), (si_emit clk k P HP).
  - by exists c.
  - by eapply notification_for_severity.
  - by apply (si_reads clk k P HP).
Qed.

Lemma si_handle_state_change previous_state new_state :
  previous_state ≠ new_state →
  maintains P (_handle_state_change clk k previous_state new_state).
Proof.
  intros Hne w Hw. unfold _handle_state_change.
  apply wp_bind, wp_lookup_any; [|done]. intros c Hc.
  apply wp_bind, wp_now, wp_bind, wp_modify, wp_bind, wp_modify.
  apply si_check_notification_needed.
  apply (si_history clk k P HP _
           (mkHistoryEntry new_state (clk (reads w)) (c_message c))).
  apply (si_event clk k P HP w
           (mkEvent k (c_name c) (c_type c) previous_state new_state
              (clk (reads w)) (c_message c))).
  - by exists c.
  - reflexivity.
  - exact Hne.
  - reflexivity.
  - exact Hw.
Qed.

Lemma si_check_component cs : maintains P (check_component clk cs k).
Proof.
  unfold check_component.
  apply maintains_bind; [apply maintains_lookup | intros c].
  apply maintains_bind; [|intros _].
  { destruct (status_data_for cs c k);
      [apply si_update_component_status | apply maintains_ret]. }
  apply maintains_bind; [apply maintains_lookup | intros c'].
  destruct (String.eqb_spec (c_state c') (c_state c)) as [He|Hne]; simpl;
    [apply maintains_ret|].
  apply maintains_bind; [|intros _; apply maintains_ret].
  apply si_handle_state_change. congruence.
Qed.

End StepInvariant.

Lemma si_loop clk cs P ids b :
  (∀ k, step_invariant clk k P) →
  maintains P (check_components_loop clk cs ids b).
Proof.
  intros HP. revert b. induction ids as [|k ids IH]; intros b; simpl.
  - apply maintains_ret.
  - apply maintains_bind; [by apply si_check_component | intros c; apply IH].
Qed.

Lemma mi_check_all_components clk cs P :
  monitor_invariant clk P → maintains P (_check_all_components clk cs).
Proof.
  intros HP. pose proof (mi_step clk P HP) as Hs.
  unfold _check_all_components.
  apply maintains_bind; [by apply (si_now clk "") | intros _].
  apply maintains_bind; [apply maintains_get_monitor | intros m].
  apply maintains_bind; [by apply si_loop | intros changed].
  apply maintains_bind; [|intros _].
  { intros w Hw. unfold _calculate_metrics.
    apply wp_bind, wp_now, wp_modify.
    apply (mi_metrics clk P HP _ (clk (reads w))).
    apply (mi_outside clk P HP); [simpl; lia | done]. }
  apply maintains_bind; [|intros _].
  { intros w Hw. unfold _clean_history.
    apply wp_bind, wp_now, wp_modify.
    apply (mi_clean clk P HP _
             (clk (reads w) - timedelta_days HISTORY_RETENTION_DAYS)).
    apply (mi_outside clk P HP); [simpl; lia | done]. }
  destruct changed; [|apply maintains_ret].
  apply maintains_try.
  apply maintains_bind; [by apply (si_now clk "") | intros _].
  intros w Hw. apply (mi_outside clk P HP); [simpl; lia | done].
Qed.

Lemma mi_operation clk P w op :
  monitor_invariant clk P → P w → P (run_operation clk w op).
Proof.
  intros HP Hw. destruct op; simpl.
  - unfold start. destruct (negb _); simpl;
      [by destruct w | by apply (mi_lifecycle clk P HP)].
  - unfold stop. destruct (String.eqb _ _); simpl;
      [by destruct w | by apply (mi_lifecycle clk P HP)].
  - unfold pause. destruct (negb _); simpl; [by destruct w|].
    by apply (mi_lifecycle clk P HP w MONITOR_STATE_PAUSED (_thread (monitor w))).
  - unfold resume. destruct (negb _); simpl; [by destruct w|].
    by apply (mi_lifecycle clk P HP w MONITOR_STATE_ACTIVE (_thread (monitor w))).
  - apply maintains_iteration; [|done]. by apply mi_check_all_components.
  - apply wp_snd. by apply mi_check_all_components.
  - unfold record_activity, mbind, M_bind, get_monitor.
    destruct (registry_get _ _) as [c|]; [|done].
    destruct (String.eqb _ _); simpl; [done|].
    apply (mi_outside clk P HP); [simpl; lia | done].
Qed.

Lemma mi_operations clk P ops w :
  monitor_invariant clk P → P w → P (run_operations clk ops w).
Proof.
  intros HP. revert w. induction ops as [|op ops IH]; intros w Hw; [done|].
  apply IH. by apply mi_operation.
Qed.

Lemma field_update_static f c :
  field_update f → static_fields (f c) = static_fields c.
Proof.
  intros [s|s|t|]; try reflexivity.
  unfold update_consecutive_failures.
  destruct (String.eqb _ _); [reflexivity|]. by destruct (_ || _).
Qed.

Lemma calculate_component_metrics_static now c :
  static_fields (calculate_component_metrics now c) = static_fields c.
Proof.
  unfold calculate_component_metrics.
  destruct (c_connection_history c); [reflexivity|].
  set (c1 := match last_24_hours now _ with [] => c | _ => _ end).
  assert (H1 : static_fields c1 = static_fields c).
  { subst c1. destruct (last_24_hours now _); [reflexivity|].
    destruct (accumulate_times _ _ _ _) as [ct tt].
    by destruct (Qltb 0 tt). }
  by destruct (100 <? _)%nat.
Qed.

Lemma calculate_component_metrics_failures now c :
  c_consecutive_failures (calculate_component_metrics now c)
  = c_consecutive_failures c.
Proof.
  unfold calculate_component_metrics.
  destruct (c_connection_history c); [reflexivity|].
  set (c1 := match last_24_hours now _ with [] => c | _ => _ end).
  assert (H1 : c_consecutive_failures c1 = c_consecutive_failures c).
  { subst c1. destruct (last_24_hours now _); [reflexivity|].
    destruct (accumulate_times _ _ _ _) as [ct tt].
    by destruct (Qltb 0 tt). }
  by destruct (100 <? _)%nat.
Qed.

Lemma static_registry_alter f k (r : Registry) :
  (∀ c, static_fields (f c) = static_fields c) →
  map (λ kc : string * Component, (kc.1, static_fields kc.2)) (registry_alter f k r)
  = map (λ kc, (kc.1, static_fields kc.2)) r.
Proof.
  intros Hf. induction r as [|[k0 c] r IH]; [reflexivity|]. simpl.
  destruct (String.eqb k k0); simpl; [by rewrite Hf | by rewrite IH].
Qed.

Lemma static_registry_metrics now (r : Registry) :
  map (λ kc : string * Component, (kc.1, static_fields kc.2))
    (map (λ kc, (kc.1, calculate_component_metrics now kc.2)) r)
  = map (λ kc, (kc.1, static_fields kc.2)) r.
Proof.
  induction r as [|[k0 c] r IH]; [reflexivity|]. simpl.
  by rewrite calculate_component_metrics_static, IH.
Qed.

Lemma registry_keys_alter f k (r : Registry) :
  map fst (registry_alter f k r) = map fst r.
Proof.
  induction r as [|[k0 c] r IH]; [reflexivity|]. simpl.
  destruct (String.eqb k k0); simpl; [reflexivity | by rewrite IH].
Qed.

Lemma registry_keys_metrics now (r : Registry) :
  map fst (map (λ kc : string * Component,
                  (kc.1, calculate_component_metrics now kc.2)) r)
  = map fst r.
Proof. induction r as [|[k0 c] r IH]; [reflexivity|]. simpl. by rewrite IH. Qed.

Lemma registered_key k w :
  registered k w → k ∈ map fst (_component_registry (monitor w)).
Proof.
  intros [c Hc]. apply registry_get_elem in Hc.
  apply list_elem_of_fmap. by exists (k, c).
Qed.

Lemma static_part_invariant clk S0 :
  monitor_invariant clk (λ w, static_part (monitor w) = S0).
Proof.
  split; [intros k; split|..]; try done.
  - intros w f Hf <-. unfold static_part. simpl.
    rewrite static_registry_alter; [done|].
    intros c. by apply field_update_static.
  - intros w e <-. unfold static_part. simpl.
    by rewrite static_registry_alter.
  - intros w now <-. unfold static_part. simpl.
    by rewrite static_registry_metrics.
Qed.

(** X8: the registry is static.  No operation on the monitor (start,
    stop, pause, resume, a turn of the loop, a tick, the recording of an
    activity) adds, removes or reorders a component, changes the id,
    type, name, criticality, expected interval or parent of one, or
    changes the configured intervals and thresholds. *)
Theorem registry_is_static
    (clk : nat → datetime) (ops : list Operation) (w : World) :
  static_part (monitor (run_operations clk ops w)) = static_part (monitor w).
Proof.
  apply (mi_operations clk (λ v, static_part (monitor v)
                                  = static_part (monitor w)));
    [apply static_part_invariant | reflexivity].
Qed.

Lemma sent_well_formed_invariant clk : monitor_invariant clk sent_well_formed.
Proof.
  unfold sent_well_formed.
  split; [intros k; split|..]; try done.
  - intros w f _ Hw. simpl. by rewrite registry_keys_alter.
  - intros w e Hw. simpl. by rewrite registry_keys_alter.
  - intros w sev msg Hk Hsev Hw. simpl. apply Forall_app. split; [done|].
    constructor; [|constructor]. simpl. split; [done|].
    by apply registered_key.
  - intros w now Hw. simpl. by rewrite registry_keys_metrics.
Qed.

(** X9: whatever the operations on the monitor, if every notification
    sent so far was for a registered component, with the severity info,
    warning or error, the same holds afterwards: the monitor never sends
    a notification of severity critical, nor one for an id that is not
    in its registry. *)
Theorem notifications_stay_well_formed
    (clk : nat → datetime) (ops : list Operation) (w : World) :
  sent_well_formed w → sent_well_formed (run_operations clk ops w).
Proof. apply mi_operations, sent_well_formed_invariant. Qed.

(** The three ticks on the monitor as constructed. *)
Lemma notifications_stay_well_formed_witness :
  sent_well_formed
    (run_operations ticking_clock three_ticks (initial_world default_config)).
Proof.
  apply (notifications_stay_well_formed ticking_clock three_ticks). constructor.
Defined.

Lemma events_well_formed_invariant clk : monitor_invariant clk events_well_formed.
Proof.
  unfold events_well_formed.
  split; [intros k; split|..]; try done.
  - intros w f _ Hw. simpl. by rewrite registry_keys_alter.
  - intros w e Hw. simpl. by rewrite registry_keys_alter.
  - intros w e Hk Hid Hne _ Hw. simpl. apply Forall_app. split; [done|].
    constructor; [|constructor]. split; [done|].
    rewrite Hid. by apply registered_key.
  - intros w now Hw. simpl. by rewrite registry_keys_metrics.
  - intros w cutoff Hw. simpl.
    apply Forall_forall. intros e [_ He]%list_elem_of_filter.
    rewrite Forall_forall in Hw. by apply Hw.
Qed.

(** X10: whatever the operations on the monitor, if every event of the
    history records a change of state (previous and new state differ)
    of a registered component, the same holds afterwards: the tick
    records an event only for a component whose state it found
    changed. *)
Theorem events_record_transitions
    (clk : nat → datetime) (ops : list Operation) (w : World) :
  events_well_formed w → events_well_formed (run_operations clk ops w).
Proof. apply mi_operations, events_well_formed_invariant. Qed.

(** The three ticks on the monitor as constructed. *)
Lemma events_record_transitions_witness :
  events_well_formed
    (run_operations ticking_clock three_ticks (initial_world default_config)).
Proof.
  apply (events_record_transitions ticking_clock three_ticks).
  unfold events_well_formed. simpl. constructor.
Defined.

Lemma failures_counted_invariant clk : monitor_invariant clk failures_counted.
Proof.
  unfold failures_counted.
  split; [intros k; split|..]; try done.
  - intros w f Hf Hw. simpl. apply Forall_registry_alter; [|done].
    intros k' c Hc. simpl in *. destruct Hf as [s|s|t|]; try done.
    unfold update_consecutive_failures.
    destruct (String.eqb _ _); simpl; [lia|].
    destruct (_ || _); simpl; lia.
  - intros w e Hw. simpl. by apply Forall_registry_alter.
  - intros w now Hw. simpl. apply Forall_map.
    eapply Forall_impl; [exact Hw|]. intros [k c] Hc. simpl in *.
    by rewrite calculate_component_metrics_failures.
Qed.

(** X11: whatever the operations on the monitor, failure counters that
    are not negative stay so: a counter is only ever reset to zero or
    incremented. *)
Theorem failure_counters_stay_non_negative
    (clk : nat → datetime) (ops : list Operation) (w : World) :
  failures_counted w → failures_counted (run_operations clk ops w).
Proof. apply mi_operations, failures_counted_invariant. Qed.

(** The three ticks on the monitor as constructed. *)
Lemma failure_counters_stay_non_negative_witness :
  failures_counted
    (run_operations ticking_clock three_ticks (initial_world default_config)).
Proof.
  apply (failure_counters_stay_non_negative ticking_clock three_ticks).
  unfold failures_counted. simpl. repeat constructor; simpl; lia.
Defined.

(** ** The queries of the monitor *)

Lemma get_all_component_status_lookup
    (r : Registry) (acc : gmap string queries.ComponentStatus) k :
  NoDup (map fst r) →
  foldl (λ result kc, <[kc.1 := queries.status_dict kc.1 kc.2]> result) acc r !! k
  = match registry_get k r with
    | Some c => Some (queries.status_dict k c)
    | None => acc !! k
    end.
Proof.
  revert acc. induction r as [|[k0 c0] r IH]; intros acc Hnd; [reflexivity|].
  simpl in *. apply NoDup_cons in Hnd as [Hk0 Hnd].
  rewrite IH by done.
  destruct (String.eqb_spec k k0) as [->|Hne].
  - assert (Hn : registry_get k0 r = None).
    { destruct (registry_get k0 r) as [c|] eqn:E; [|done].
      exfalso. apply Hk0. apply registry_get_elem in E.
      apply list_elem_of_fmap. by exists (k0, c). }
    rewrite Hn. apply lookup_insert_eq.
  - destruct (registry_get k r); [done|]. by apply lookup_insert_ne.
Qed.

Lemma registry_keys_invariant clk K :
  monitor_invariant clk (λ w, map fst (_component_registry (monitor w)) = K).
Proof.
  split; [intros k; split|..]; try done.
  - intros w f _ <-. simpl. apply registry_keys_alter.
  - intros w e <-. simpl. apply registry_keys_alter.
  - intros w now <-. simpl. apply registry_keys_metrics.
Qed.

Lemma registry_get_is_Some k (r : Registry) :
  is_Some (registry_get k r) ↔ k ∈ map fst r.
Proof.
  induction r as [|[k0 c0] r IH]; simpl.
  - split; [by intros [? ?] | by intros ?%elem_of_nil].
  - destruct (String.eqb_spec k k0) as [->|Hne].
    + split; [intros _; left | by eexists].
    + rewrite IH. split; [by right|]. by intros [?|?]%elem_of_cons.
Qed.

(** X12: the two queries of the monitor agree.  Whatever the operations
    made on a monitor whose registry has distinct ids, the dict returned
    by [get_all_component_status] has, under every id, what
    [get_component_status] returns for that id ([None] standing for an
    absent key); and [get_component_status] returns a dict exactly for
    the ids the registry had before the operations. *)
Theorem queries_agree
    (clk : nat → datetime) (ops : list Operation) (w : World)
    (component_id : string) :
  distinct_ids w →
  let m := monitor (run_operations clk ops w) in
  queries.get_all_component_status m !! component_id
  = queries.get_component_status component_id m
  ∧ (is_Some (queries.get_component_status component_id m)
     ↔ component_id ∈ map fst (_component_registry (monitor w))).
Proof.
  intros Hnd m.
  assert (Hk : map fst (_component_registry m)
               = map fst (_component_registry (monitor w))).
  { subst m.
    apply (mi_operations clk
             (λ v, map fst (_component_registry (monitor v))
                   = map fst (_component_registry (monitor w))));
      [apply registry_keys_invariant | reflexivity]. }
  split.
  - unfold queries.get_all_component_status, queries.get_component_status.
    rewrite get_all_component_status_lookup.
    + by destruct (registry_get _ _).
    + rewrite Hk. exact Hnd.
  - rewrite <- Hk, <- registry_get_is_Some.
    unfold queries.get_component_status.
    destruct (registry_get _ _); split; intros [? ?]; by eauto.
Qed.

(** The hub after the three ticks on the monitor as constructed. *)
Lemma queries_agree_witness :
  let m := monitor (run_operations ticking_clock three_ticks
                      (initial_world default_config)) in
  queries.get_all_component_status m !! "main_hub"
  = queries.get_component_status "main_hub" m
  ∧ (is_Some (queries.get_component_status "main_hub" m)
     ↔ "main_hub" ∈ map fst (_component_registry
                                (monitor (initial_world default_config)))).
Proof.
  apply (queries_agree ticking_clock three_ticks (initial_world default_config)
           "main_hub").
  unfold distinct_ids. simpl.
  repeat (apply NoDup_cons_2; [by apply (bool_decide_unpack _)|]).
  apply NoDup_nil_2.
Defined.

Lemma insert_newest_first_perm e l :
  queries.insert_newest_first e l ≡ₚ e :: l.
Proof.
  induction l as [|x r IH]; [reflexivity|]. simpl.
  destruct (_ <=? _); [reflexivity|].
  rewrite IH. apply Permutation_swap.
Qed.

Lemma sorted_newest_first_perm l : queries.sorted_newest_first l ≡ₚ l.
Proof.
  induction l as [|x r IH]; [reflexivity|]. simpl.
  by rewrite insert_newest_first_perm, IH.
Qed.

Lemma insert_newest_first_sorted e l :
  StronglySorted not_older l →
  StronglySorted not_older (queries.insert_newest_first e l).
Proof.
  induction 1 as [|x r Hs IH Hx]; simpl; [repeat constructor|].
  destruct (Z.leb_spec (e_timestamp x) (e_timestamp e)) as [Hle|Hlt].
  - constructor; [by constructor|].
    constructor; [exact Hle|].
    eapply Forall_impl; [exact Hx|]. unfold not_older. intros y Hy. simpl in *. lia.
  - constructor; [exact IH|].
    rewrite insert_newest_first_perm. constructor; [|exact Hx].
    unfold not_older. lia.
Qed.

Lemma sorted_newest_first_sorted l :
  StronglySorted not_older (queries.sorted_newest_first l).
Proof.
  induction l as [|x r IH]; simpl; [constructor|].
  by apply insert_newest_first_sorted.
Qed.

Lemma StronglySorted_app_cross {A} (R : A → A → Prop) (l1 l2 : list A) :
  StronglySorted R (l1 ++ l2) →
  StronglySorted R l1 ∧ ∀ a b, a ∈ l1 → b ∈ l2 → R a b.
Proof.
  induction l1 as [|x l1 IH]; simpl; intros Hs.
  - split; [constructor|]. by intros a b ?%elem_of_nil.
  - apply StronglySorted_inv in Hs as [Hs Hx].
    destruct (IH Hs) as [H1 H2]. apply Forall_app in Hx as [Hx1 Hx2].
    split; [by constructor|].
    intros a b [->|Ha]%elem_of_cons Hb; [|by apply H2].
    rewrite Forall_forall in Hx2. by apply Hx2.
Qed.

Lemma slice_to_split {A} limit (l : list A) :
  ∃ rest, l = queries.slice_to limit l ++ rest.
Proof.
  unfold queries.slice_to. destruct (0 <=? limit); eexists; symmetry; apply take_drop.
Qed.

(** X13: [get_recent_events(limit)] returns the newest events, newest
    first.  Its result is sorted by decreasing timestamp; together with
    some list of omitted events it is a rearrangement of the event
    history, and no omitted event is newer than a returned one; its
    length is the smaller of [limit] and the length of the history when
    [limit] is not negative, and the length of the history less [-limit]
    (or zero) when it is. *)
Theorem recent_events_newest_first (limit : Z) (m : Monitor) :
  let recent := queries.get_recent_events limit m in
  StronglySorted not_older recent
  ∧ (∃ omitted,
       recent ++ omitted ≡ₚ _event_history m
       ∧ ∀ a b, a ∈ recent → b ∈ omitted → not_older a b)
  ∧ length recent
    = if 0 <=? limit then (Z.to_nat limit `min` length (_event_history m))%nat
      else (length (_event_history m) - Z.to_nat (- limit))%nat.
Proof.
  intros recent. subst recent. unfold queries.get_recent_events.
  pose proof (sorted_newest_first_sorted (_event_history m)) as Hs.
  pose proof (sorted_newest_first_perm (_event_history m)) as Hp.
  destruct (slice_to_split limit (queries.sorted_newest_first (_event_history m)))
    as [rest Hrest].
  rewrite Hrest in Hs. apply StronglySorted_app_cross in Hs as [Hs1 Hs2].
  split; [exact Hs1|]. split.
  - exists rest. split; [by rewrite <- Hrest | exact Hs2].
  - unfold queries.slice_to.
    destruct (0 <=? limit); rewrite length_take, Hp; lia.
Qed.

(** ** The event history and the clock *)

Lemma StronglySorted_filter_list {A} (R : A → A → Prop) (P : A → Prop)
    `{∀ x, Decision (P x)} (l : list A) :
  StronglySorted R l → StronglySorted R (filter P l).
Proof.
  induction 1 as [|x l Hs IH Hx]; [constructor|].
  rewrite filter_cons. destruct (decide (P x)); [|exact IH].
  constructor; [exact IH|].
  apply Forall_forall. intros y [_ Hy]%list_elem_of_filter.
  rewrite Forall_forall in Hx. by apply Hx.
Qed.

Lemma timestamps_filter clk (cutoff : datetime) (l : list Event) (rs : list nat) :
  map e_timestamp l = map clk rs →
  map e_timestamp (filter (λ e, cutoff < e_timestamp e) l)
  = map clk (filter (λ r, cutoff < clk r) rs).
Proof.
  revert rs. induction l as [|e l IH]; intros [|r rs] Hm; try done.
  simpl in Hm. injection Hm as Hr Hm.
  rewrite !filter_cons. rewrite <- Hr.
  destruct (decide (cutoff < e_timestamp e)); simpl; [f_equal; [done|]|]; by apply IH.
Qed.

Lemma events_follow_clock_invariant clk :
  monitor_invariant clk (events_follow_clock clk).
Proof.
  unfold events_follow_clock.
  split; [intros k; split|..]; try done.
  - intros w (rs & Hm & Hs & Hr). exists rs. simpl. split; [done|]. split; [done|].
    eapply Forall_impl; [exact Hr|]. simpl. lia.
  - intros w e _ _ _ He (rs & Hm & Hs & Hr). exists (rs ++ [reads w]). simpl.
    rewrite !map_app, Hm. simpl. rewrite He. split; [done|]. split.
    + clear Hm. induction Hs as [|r rs Hs IH Hlt]; simpl; [repeat constructor|].
      apply Forall_cons in Hr as [Hr1 Hr2].
      constructor; [by apply IH|].
      apply Forall_app. split; [done|]. by constructor.
    + apply Forall_app. split.
      * eapply Forall_impl; [exact Hr|]. simpl. lia.
      * constructor; [lia|constructor].
  - intros w cutoff (rs & Hm & Hs & Hr).
    exists (filter (λ r, cutoff < clk r) rs). simpl.
    split; [by apply timestamps_filter|]. split.
    + by apply StronglySorted_filter_list.
    + apply Forall_forall. intros r [_ Hin]%list_elem_of_filter.
      rewrite Forall_forall in Hr. by apply Hr.
  - intros w l n r Hle (rs & Hm & Hs & Hr). exists rs. simpl.
    split; [done|]. split; [done|].
    eapply Forall_impl; [exact Hr|]. simpl. lia.
Qed.

Lemma sorted_timestamps clk (R : Z → Z → Prop) (l : list Event) (rs : list nat) :
  (∀ i j, (i < j)%nat → R (clk i) (clk j)) →
  map e_timestamp l = map clk rs →
  StronglySorted lt rs →
  StronglySorted (λ a b, R (e_timestamp a) (e_timestamp b)) l.
Proof.
  intros Hclk. revert rs. induction l as [|e l IH]; intros [|r rs] Hm Hs;
    try done; [constructor|].
  simpl in Hm. injection Hm as He Hm.
  apply StronglySorted_inv in Hs as [Hs Hr].
  constructor; [by eapply IH|].
  apply Forall_forall. intros e' He'.
  assert (Hin : e_timestamp e' ∈ map clk rs).
  { rewrite <- Hm. apply list_elem_of_fmap. by exists e'. }
  apply list_elem_of_fmap in Hin as (r' & -> & Hr').
  rewrite He. apply Hclk. rewrite Forall_forall in Hr. by apply Hr.
Qed.



Lemma insert_oldest e l :
  Forall (λ x, e_timestamp e < e_timestamp x) l →
  queries.insert_newest_first e l = l ++ [e].
Proof.
  induction 1 as [|x l Hx Hl IH]; [reflexivity|]. simpl.
  destruct (Z.leb_spec (e_timestamp x) (e_timestamp e)); [lia|].
  by rewrite IH.
Qed.

Lemma sorted_newest_first_rev l :
  StronglySorted (λ a b, e_timestamp a < e_timestamp b) l →
  queries.sorted_newest_first l = reverse l.
Proof.
  induction 1 as [|x l Hs IH Hx]; [reflexivity|]. simpl.
  rewrite IH, reverse_cons. apply insert_oldest.
  apply Forall_forall. intros y Hy. rewrite Forall_forall in Hx.
  apply Hx. by apply elem_of_reverse.
Qed.

(** X15: under a clock that advances at each reading, on a monitor whose
    event history follows the clock, [get_recent_events(limit)] returns,
    after any sequence of operations, the slice [[:limit]] of the event
    history reversed: the last events recorded, the last one first. *)
Theorem recent_events_are_the_last
    (clk : nat → datetime) (ops : list Operation) (w : World) (limit : Z) :
  advancing_clock clk →
  events_follow_clock clk w →
  let m := monitor (run_operations clk ops w) in
  queries.get_recent_events limit m
  = queries.slice_to limit (reverse (_event_history m)).
Proof.
  intros Hclk Hw m. unfold queries.get_recent_events. f_equal.
  apply sorted_newest_first_rev.
  assert (Hf : events_follow_clock clk (run_operations clk ops w)).
  { by apply mi_operations; [apply events_follow_clock_invariant|]. }
  destruct Hf as (rs & Hm & Hs & _).
  by apply (sorted_timestamps clk Z.lt _ rs).
Qed.

(** The last event of the three ticks on the monitor as constructed. *)
Lemma recent_events_are_the_last_witness :
  let m := monitor (run_operations ticking_clock three_ticks
                      (initial_world default_config)) in
  queries.get_recent_events 1 m = queries.slice_to 1 (reverse (_event_history m)).
Proof.
  apply (recent_events_are_the_last ticking_clock three_ticks
           (initial_world default_config) 1).
  - intros i j Hij. unfold ticking_clock. lia.
  - exists []. unfold initial_world. simpl. repeat split; constructor.
Defined.

(** ** The counters and the average of the health summary *)

Lemma count_states_bound (r : Registry) :
  (count_state CONNECTION_STATE_ONLINE r + count_state CONNECTION_STATE_WARNING r
   + count_state CONNECTION_STATE_ERROR r + count_state CONNECTION_STATE_CRITICAL r
   + count_state CONNECTION_STATE_UNKNOWN r ≤ length r)%nat.
Proof.
  unfold count_state, CONNECTION_STATE_ONLINE, CONNECTION_STATE_WARNING,
    CONNECTION_STATE_ERROR, CONNECTION_STATE_CRITICAL, CONNECTION_STATE_UNKNOWN.
  induction r as [|[k c] r IH]; [simpl; lia|].
  rewrite !filter_cons. cbn [snd length].
  repeat case_decide; simpl; try lia; congruence.
Qed.

(** X16: the counters of the health summary fit together, whatever the
    registry: the numbers of online, warning, error, critical and unknown
    components count disjoint sets, so that their sum is at most the
    total (a component in any other state is in none of them); the
    critical-flagged components that are disconnected are at most the
    critical-flagged ones, which are at most the total. *)
Theorem summary_counters_are_consistent (now : datetime) (m : Monitor) :
  counters_consistent (get_system_health_summary now m).
Proof.
  unfold counters_consistent, get_system_health_summary.
  cbn [connected_components warning_components error_components
       critical_components_count unknown_components total_components
       critical_disconnected critical_components].
  split; [apply count_states_bound|]. split; apply length_filter.
Qed.

Lemma sum_bounds (l : list Q) :
  Forall is_percentage l →
  (0 <= foldr Qplus 0 l)%Q
  ∧ (foldr Qplus 0 l <= 100 * inject_Z (Z.of_nat (length l)))%Q.
Proof.
  induction 1 as [|x l [Hx0 Hx1] Hl [IH0 IH1]]; simpl foldr; simpl length.
  - split; unfold Qle; simpl; lia.
  - rewrite Nat2Z.inj_succ. unfold Z.succ. rewrite inject_Z_plus.
    split; [lra|]. change (inject_Z 1) with 1%Q. lra.
Qed.

Lemma mean_is_percentage (l : list Q) :
  l ≠ [] → Forall is_percentage l →
  is_percentage (fold_left Qplus l 0 / inject_Z (Z.of_nat (length l)))%Q.
Proof.
  intros Hne Hl. destruct (sum_bounds l Hl) as [H0 H1].
  assert (Hn : (0 < inject_Z (Z.of_nat (length l)))%Q).
  { change 0%Q with (inject_Z 0). rewrite <- Zlt_Qlt.
    destruct l; [done|]. simpl length. lia. }
  pose proof (sum_left_right l 0) as Hs. split.
  - apply Qle_shift_div_l; [exact Hn|]. lra.
  - apply Qle_shift_div_r; [exact Hn|]. lra.
Qed.

Lemma average_uptime_bounds now (m : Monitor) :
  Forall (λ kc : string * Component, is_percentage (c_uptime_percentage kc.2))
    (_component_registry m) →
  is_percentage (average_uptime (get_system_health_summary now m)).
Proof.
  intros Hr. unfold get_system_health_summary. cbn [average_uptime].
  set (l := map _ (List.filter _ _)).
  assert (Hl : Forall is_percentage l).
  { subst l. apply Forall_forall. intros q Hq.
    apply list_elem_of_fmap in Hq as (kc & -> & Hkc).
    apply list_elem_of_In, filter_In in Hkc as [Hkc _].
    apply list_elem_of_In in Hkc.
    rewrite Forall_forall in Hr. by apply Hr. }
  destruct l as [|u us] eqn:El.
  - split; unfold Qle; simpl; lia.
  - by apply mean_is_percentage.
Qed.

(** X17: under a clock that never steps backwards, the average uptime
    reported by [get_system_health_summary] is a percentage, in
    [0, 100], after every sequence of operations on the monitor as
    constructed: it is the mean of uptime percentages that the metrics
    pass keeps in that range. *)
Theorem average_uptime_is_a_percentage
    (clk : nat → datetime) (cfg : Config) (ops : list Operation) (now : datetime) :
  monotone_clock clk →
  is_percentage
    (average_uptime
       (get_system_health_summary now
          (monitor (run_operations clk ops (initial_world cfg))))).
Proof.
  intros Hclk. apply average_uptime_bounds.
  pose proof (uptime_invariant_operations clk ops _ Hclk
                (uptime_invariant_initial clk cfg)) as Hinv.
  eapply Forall_impl; [exact Hinv|]. by intros kc [Hp _].
Qed.

(** The summary after the three ticks under a clock that advances. *)
Lemma average_uptime_is_a_percentage_witness :
  monotone_clock ticking_clock
  ∧ is_percentage
      (average_uptime
         (get_system_health_summary 0
            (monitor (run_operations ticking_clock three_ticks
                        (initial_world default_config))))).
Proof.
  assert (Hclk : monotone_clock ticking_clock).
  { intros i j Hij. unfold ticking_clock. lia. }
  split; [exact Hclk|].
  apply (average_uptime_is_a_percentage ticking_clock default_config three_ticks 0
           Hclk).
Defined.

(** ** The periodic check and the lock of the status module *)

Lemma Qle_bool_Qltb (x y : Q) : Qle_bool x y = negb (Qltb y x).
Proof. unfold Qltb. by rewrite negb_involutive. Qed.

Lemma degraded_classifies cfg now component_id last s new_state msg :
  thresholds_ordered cfg →
  _component_last_activity s !! component_id = Some last →
  checks.degraded cfg (total_seconds (now - last)) = Some (new_state, msg) →
  get_component_status cfg component_id now s
  = {| status := new_state;
       last_activity := Some last;
       time_since_last_activity := Some (total_seconds (now - last));
       message := msg;
       metadata := _component_metadata component_id |}
  ∧ new_state ∈ degraded_states.
Proof.
  intros [Hwe Hec] Hl Hc.
  unfold get_component_status. rewrite Hl. cbv zeta.
  unfold checks.degraded in Hc. rewrite !Qle_bool_Qltb in Hc.
  set (e := total_seconds (now - last)) in *.
  rewrite Zle_Qle in Hwe, Hec.
  destruct (Qltb e (inject_Z (TIMEOUT_WARNING cfg))) eqn:E1;
    [apply Qltb_lt in E1 | apply Qltb_ge in E1];
  (destruct (Qltb e (inject_Z (TIMEOUT_ERROR cfg))) eqn:E2;
    [apply Qltb_lt in E2 | apply Qltb_ge in E2]);
  (destruct (Qltb e (inject_Z (TIMEOUT_CRITICAL cfg))) eqn:E3;
    [apply Qltb_lt in E3 | apply Qltb_ge in E3]);
  cbn [negb] in Hc; try discriminate Hc; try (exfalso; lra);
  injection Hc as <- <-;
  (split; [reflexivity | unfold degraded_states; set_solver]).
Qed.

Lemma status_change_agrees cfg now component_id last stored notified st ch s :
  thresholds_ordered cfg →
  _component_last_activity s !! component_id = Some last →
  checks.status_change cfg now component_id last stored notified = Some (st, ch) →
  let g := get_component_status cfg component_id now s in
  st = as_stored g
  ∧ status g ∈ degraded_states
  ∧ status <$> stored ≠ Some (status g).
Proof.
  intros Hord Hl Hc g. subst g.
  unfold checks.status_change in Hc. cbv zeta in Hc.
  destruct (match notified with Some _ => _ | None => false end); [done|].
  destruct (checks.degraded cfg (total_seconds (now - last)))
    as [[new_state msg]|] eqn:Hd; [|done].
  destruct (degraded_classifies _ _ _ _ _ _ _ Hord Hl Hd) as [-> Hdeg].
  destruct (String.eqb_spec new_state
              (match stored with
               | Some st0 => status st0
               | None => CONNECTION_STATE_UNKNOWN
               end)) as [Heq|Hne]; [done|].
  cbn [negb] in Hc. injection Hc as <- _.
  split; [reflexivity|]. split; [exact Hdeg|].
  cbn [status]. destruct stored as [st0|]; cbn [fmap option_fmap option_map].
  - intros [= Hs]. by apply Hne.
  - discriminate.
Qed.

Lemma check_item_activity cfg now acc item :
  _component_last_activity (checks.check_item cfg now acc item).1
  = _component_last_activity acc.1.
Proof.
  unfold checks.check_item.
  by destruct (checks.status_change _ _ _ _ _ _) as [[st ch]|].
Qed.

Lemma check_item_other cfg now acc item k :
  k ≠ item.1 →
  _component_status (checks.check_item cfg now acc item).1 !! k
  = _component_status acc.1 !! k
  ∧ _last_notification (checks.check_item cfg now acc item).1 !! k
    = _last_notification acc.1 !! k.
Proof.
  intros Hk. unfold checks.check_item.
  destruct (checks.status_change _ _ _ _ _ _) as [[st ch]|]; [|done].
  simpl. by rewrite !lookup_insert_ne.
Qed.

Lemma check_item_own cfg now acc k last :
  let d := checks.status_change cfg now k last
             (_component_status acc.1 !! k) (_last_notification acc.1 !! k) in
  _component_status (checks.check_item cfg now acc (k, last)).1 !! k
  = match d with Some (st, _) => Some st | None => _component_status acc.1 !! k end
  ∧ _last_notification (checks.check_item cfg now acc (k, last)).1 !! k
    = match d with Some _ => Some now | None => _last_notification acc.1 !! k end.
Proof.
  intros d. subst d. unfold checks.check_item. simpl.
  destruct (checks.status_change _ _ _ _ _ _) as [[st ch]|]; [|done].
  simpl. by rewrite !lookup_insert_eq.
Qed.

Lemma check_fold_activity cfg now items acc :
  _component_last_activity (foldl (checks.check_item cfg now) acc items).1
  = _component_last_activity acc.1.
Proof.
  revert acc. induction items as [|item items IH]; intros acc; [done|].
  simpl. by rewrite IH, check_item_activity.
Qed.

Lemma check_fold_lookup cfg now items acc k :
  NoDup (map fst items) →
  let r := foldl (checks.check_item cfg now) acc items in
  (k ∉ map fst items →
   _component_status r.1 !! k = _component_status acc.1 !! k
   ∧ _last_notification r.1 !! k = _last_notification acc.1 !! k)
  ∧ (∀ last, (k, last) ∈ items →
     _component_status r.1 !! k
     = _component_status (checks.check_item cfg now acc (k, last)).1 !! k
     ∧ _last_notification r.1 !! k
       = _last_notification (checks.check_item cfg now acc (k, last)).1 !! k).
Proof.
  revert acc. induction items as [|[k0 l0] items IH]; intros acc Hnd r.
  - split; [done|]. by intros last ?%elem_of_nil.
  - simpl in Hnd. apply NoDup_cons in Hnd as [Hk0 Hnd].
    subst r. simpl.
    destruct (IH (checks.check_item cfg now acc (k0, l0)) Hnd) as [IH1 IH2].
    split.
    + intros Hk. apply not_elem_of_cons in Hk as [Hne Hk].
      destruct (IH1 Hk) as [-> ->]. by apply check_item_other.
    + intros last [Heq|Hin]%elem_of_cons.
      * injection Heq as -> ->. by apply IH1.
      * assert (Hne : k ≠ k0).
        { intros ->. apply Hk0. apply list_elem_of_fmap. by exists (k0, last). }
        destruct (IH2 last Hin) as [-> ->].
        destruct (check_item_other cfg now acc (k0, l0) k Hne) as [Hs Hn].
        destruct (check_item_own cfg now (checks.check_item cfg now acc (k0, l0))
                    k last) as [-> ->].
        destruct (check_item_own cfg now acc k last) as [-> ->].
        by rewrite Hs, Hn.
Qed.

Lemma items_of_NoDup s items : items_of s items → NoDup (map fst items).
Proof.
  unfold items_of. intros ->. apply NoDup_fst_map_to_list.
Qed.

Lemma items_of_elem s items k last :
  items_of s items →
  (k, last) ∈ items ↔ _component_last_activity s !! k = Some last.
Proof.
  unfold items_of. intros ->. apply elem_of_map_to_list.
Qed.

Lemma items_of_key s items k :
  items_of s items →
  k ∉ map fst items → _component_last_activity s !! k = None.
Proof.
  intros Hi Hk.
  destruct (_component_last_activity s !! k) as [last|] eqn:E; [|done].
  exfalso. apply Hk. apply (items_of_elem s items k last Hi) in E.
  apply list_elem_of_fmap. by exists (k, last).
Qed.

(** X20: the periodic check agrees with the query.  Under ordered
    thresholds, whatever the order in which [check_components] takes the
    items of [_component_last_activity], it leaves that dictionary as it
    was, and for every component it either leaves the entries of
    [_component_status] and [_last_notification] alone, or stores exactly
    the status, message, last activity and metadata that
    [get_component_status] reports at the same instant, notes the
    instant as that of the notification, and does so only for a state
    among warning, error and critical that differs from the state stored
    before: the check never stores online. *)
Theorem check_components_agrees
    (cfg : Config) (now : datetime) (items : list (string * datetime))
    (s : Module_state) (component_id : string) :
  thresholds_ordered cfg →
  items_of s items →
  let s' := (checks.check_components_over cfg now items s).1 in
  _component_last_activity s' = _component_last_activity s
  ∧ checked cfg now s s' component_id.
Proof.
  intros Hord Hitems s'. subst s'. unfold checks.check_components_over.
  split; [apply check_fold_activity|].
  pose proof (items_of_NoDup s items Hitems) as Hnd.
  destruct (check_fold_lookup cfg now items (s, []) component_id Hnd)
    as [H1 H2].
  destruct (decide (component_id ∈ map fst items)) as [Hin|Hout].
  - apply list_elem_of_fmap in Hin as ([k last] & -> & Hin). simpl in *.
    destruct (H2 last Hin) as [Hs Hn].
    destruct (check_item_own cfg now (s, []) k last) as [Hs' Hn'].
    rewrite Hs' in Hs. rewrite Hn' in Hn. simpl in Hs, Hn.
    destruct (checks.status_change cfg now k last (_component_status s !! k)
                (_last_notification s !! k)) as [[st ch]|] eqn:Hd.
    + right. apply (items_of_elem s items k last Hitems) in Hin.
      destruct (status_change_agrees _ _ _ _ _ _ _ _ s Hord Hin Hd)
        as (-> & Hdeg & Hprev).
      by rewrite Hs, Hn.
    + left. by rewrite Hs, Hn.
  - left. by apply H1.
Qed.

(** The hub, heard at 0 and checked 700 seconds later under the default
    thresholds. *)
Lemma check_components_agrees_witness :
  let s := record_component_activity "hub_node_hub1" 0 empty_module in
  let s' := (checks.check_components_over default_config 700000000
               [("hub_node_hub1", 0)] s).1 in
  _component_last_activity s' = _component_last_activity s
  ∧ checked default_config 700000000 s s' "hub_node_hub1".
Proof.
  apply (check_components_agrees default_config 700000000
           [("hub_node_hub1", 0)]
           (record_component_activity "hub_node_hub1" 0 empty_module)
           "hub_node_hub1").
  - split; simpl; lia.
  - unfold items_of. simpl. by rewrite insert_empty, map_to_list_singleton.
Defined.

Lemma status_change_settled cfg now k last stored notified st ch :
  checks.status_change cfg now k last stored notified = Some (st, ch) →
  checks.status_change cfg now k last (Some st) (Some now) = None.
Proof.
  intros Hc. unfold checks.status_change in *.
  destruct (match notified with Some _ => _ | None => false end); [done|].
  destruct (Qltb (total_seconds (now - now)) _); [done|].
  destruct (checks.degraded cfg _) as [[new_state msg]|]; [|done].
  destruct (negb (String.eqb new_state _)); [|done].
  injection Hc as <- _. simpl. by rewrite String.eqb_refl.
Qed.

Lemma check_fold_idle cfg now items acc :
  (∀ k last, (k, last) ∈ items →
     checks.status_change cfg now k last
       (_component_status acc.1 !! k) (_last_notification acc.1 !! k) = None) →
  foldl (checks.check_item cfg now) acc items = acc.
Proof.
  induction items as [|[k last] items IH]; intros Hn; [done|].
  simpl. unfold checks.check_item at 2. simpl.
  rewrite (Hn k last) by left. apply IH.
  intros k' last' Hin. apply Hn. by right.
Qed.

(** X21: the periodic check settles.  Whatever the thresholds, the
    cooldown and the order of the items, a second run of the loop of
    [check_components] at the same instant changes no dictionary and
    records no change: a component whose state was stored is either in
    its cooldown or already in that state. *)
Theorem check_components_settles
    (cfg : Config) (now : datetime) (items : list (string * datetime))
    (s : Module_state) :
  items_of s items →
  let s' := (checks.check_components_over cfg now items s).1 in
  items_of s' items
  ∧ checks.check_components_over cfg now items s' = (s', []).
Proof.
  intros Hitems s'.
  assert (Ha : _component_last_activity s' = _component_last_activity s).
  { subst s'. apply check_fold_activity. }
  split; [unfold items_of; by rewrite Ha|].
  unfold checks.check_components_over at 1. apply check_fold_idle.
  intros k last Hin. simpl.
  pose proof (items_of_NoDup s items Hitems) as Hnd.
  destruct (check_fold_lookup cfg now items (s, []) k Hnd) as [_ H2].
  destruct (H2 last Hin) as [Hs Hn].
  destruct (check_item_own cfg now (s, []) k last) as [Hs' Hn'].
  rewrite Hs' in Hs. rewrite Hn' in Hn. simpl in Hs, Hn.
  subst s'. unfold checks.check_components_over. rewrite Hs, Hn.
  destruct (checks.status_change cfg now k last (_component_status s !! k)
              (_last_notification s !! k)) as [[st ch]|] eqn:Hd.
  - by eapply status_change_settled.
  - exact Hd.
Qed.

(** The hub, heard at 0 and checked twice 700 seconds later. *)
Lemma check_components_settles_witness :
  let s := record_component_activity "hub_node_hub1" 0 empty_module in
  let s' := (checks.check_components_over default_config 700000000
               [("hub_node_hub1", 0)] s).1 in
  items_of s' [("hub_node_hub1", 0)]
  ∧ checks.check_components_over default_config 700000000
      [("hub_node_hub1", 0)] s' = (s', []).
Proof.
  apply (check_components_settles default_config 700000000
           [("hub_node_hub1", 0)]
           (record_component_activity "hub_node_hub1" 0 empty_module)).
  unfold items_of. simpl. by rewrite insert_empty, map_to_list_singleton.
Defined.

Lemma blocked_when_held clk cfg p :
  checks.lock_held p = true → all_blocked clk cfg p.
Proof.
  intros Hl. unfold all_blocked, checks.record_component_activity,
    checks.get_component_status, checks.check_components,
    checks.save_status_to_file, checks.get_all_component_status,
    checks.bind, checks.with_lock.
  by rewrite Hl.
Qed.

Lemma get_all_component_status_outcome clk cfg p :
  checks.lock_held p = false →
  (_component_last_activity (checks.dicts p) = ∅ →
   checks.get_all_component_status clk cfg p = checks.Returns ∅ p)
  ∧ (_component_last_activity (checks.dicts p) ≠ ∅ →
     checks.get_all_component_status clk cfg p
     = checks.Blocks (checks.set_lock true p)).
Proof.
  intros Hfree.
  unfold checks.get_all_component_status, checks.with_lock. rewrite Hfree.
  split.
  - intros He. simpl. rewrite He, map_to_list_empty. simpl.
    destruct p; simpl in *. by subst.
  - intros Hne. simpl.
    destruct (map_to_list (_component_last_activity (checks.dicts p)))
      as [|[k last] rest] eqn:E.
    + by apply map_to_list_empty_iff in E.
    + reflexivity.
Qed.

(** X18: [get_all_component_status] deadlocks on its own lock.  Called
    with the lock free, it returns (an empty dict, leaving the process
    as it was) when no activity has been recorded; as soon as one has
    been, it blocks for ever in the [get_component_status] it calls
    while holding [_lock], with the lock held, so that from then on
    every function of the module that takes the lock blocks as well. *)
Theorem get_all_component_status_deadlocks
    (clk : nat → datetime) (cfg : Config) (p : checks.Process) :
  checks.lock_held p = false →
  (_component_last_activity (checks.dicts p) = ∅ →
   checks.get_all_component_status clk cfg p = checks.Returns ∅ p)
  ∧ (_component_last_activity (checks.dicts p) ≠ ∅ →
     checks.get_all_component_status clk cfg p
     = checks.Blocks (checks.set_lock true p)
     ∧ all_blocked clk cfg (checks.set_lock true p)).
Proof.
  intros Hfree.
  destruct (get_all_component_status_outcome clk cfg p Hfree) as [He Hb].
  split; [exact He|]. intros Hne.
  split; [by apply Hb | by apply blocked_when_held].
Qed.

(** The process in which the hub has been heard. *)
Lemma get_all_component_status_deadlocks_witness :
  checks.get_all_component_status ticking_clock default_config hub_heard
  = checks.Blocks (checks.set_lock true hub_heard)
  ∧ all_blocked ticking_clock default_config (checks.set_lock true hub_heard).
Proof.
  apply (get_all_component_status_deadlocks ticking_clock default_config
           hub_heard); [reflexivity|].
  unfold hub_heard. simpl. apply insert_non_empty.
Defined.

Lemma run_call_returns clk cfg c p :
  checks.lock_held p = false →
  _component_last_activity (checks.dicts p) ≠ ∅ →
  ∃ p', run_call clk cfg c p = checks.Returns tt p'
        ∧ checks.lock_held p' = false
        ∧ _component_last_activity (checks.dicts p') ≠ ∅.
Proof.
  intros Hfree Hne. destruct c as [k|]; simpl.
  - unfold checks.record_component_activity, checks.with_lock. rewrite Hfree.
    eexists. split; [reflexivity|]. split; [reflexivity|].
    simpl. apply insert_non_empty.
  - unfold checks.check_components, checks.with_lock. rewrite Hfree.
    eexists. split; [reflexivity|]. split; [reflexivity|].
    simpl. unfold checks.check_components_over. by rewrite check_fold_activity.
Qed.

Lemma run_calls_return clk cfg calls p :
  checks.lock_held p = false →
  _component_last_activity (checks.dicts p) ≠ ∅ →
  ∃ p', run_calls clk cfg calls p = checks.Returns tt p'
        ∧ checks.lock_held p' = false
        ∧ _component_last_activity (checks.dicts p') ≠ ∅.
Proof.
  revert p. induction calls as [|c calls IH]; intros p Hfree Hne.
  - by exists p.
  - destruct (run_call_returns clk cfg c p Hfree Hne) as (p1 & H1 & Hf1 & Hn1).
    destruct (IH p1 Hf1 Hn1) as (p2 & H2 & Hf2 & Hn2).
    exists p2. simpl. unfold checks.bind. by rewrite H1.
Qed.

(** X19: the save thread of [initialize] deadlocks the module.  From any
    process whose lock is free (whatever [load_status_from_file] has
    loaded), once [initialize] has recorded the activity of the server,
    and whatever activities the other threads record and checks they
    make after it (all of which return, with the lock free), the call of
    [save_status_to_file], its directory made, blocks for ever with the
    lock held: no status is saved, and every later call of
    [record_component_activity], [get_component_status],
    [check_components], [get_all_component_status] and
    [save_status_to_file] blocks. *)
Theorem save_deadlocks_after_initialize
    (clk : nat → datetime) (cfg : Config) (calls : list Call)
    (p : checks.Process) :
  checks.lock_held p = false →
  ∃ p1,
    checks.bind (checks.record_component_activity clk "server")
      (λ _, run_calls clk cfg calls) p = checks.Returns tt p1
    ∧ checks.lock_held p1 = false
    ∧ checks.save_status_to_file clk cfg true p1
      = checks.Blocks (checks.set_lock true p1)
    ∧ all_blocked clk cfg (checks.set_lock true p1).
Proof.
  intros Hfree.
  unfold checks.bind at 1, checks.record_component_activity,
    checks.with_lock at 1.
  rewrite Hfree.
  match goal with
  | |- ∃ p1, run_calls _ _ _ ?q = _ ∧ _ =>
      destruct (run_calls_return clk cfg calls q) as (p1 & H1 & Hf1 & Hn1);
        [reflexivity | simpl; apply insert_non_empty |]
  end.
  exists p1. split; [exact H1|]. split; [exact Hf1|].
  destruct (get_all_component_status_outcome clk cfg p1 Hf1) as [_ Hb].
  split; [|by apply blocked_when_held].
  unfold checks.save_status_to_file, checks.bind. by rewrite (Hb Hn1).
Qed.

(** A fresh process: the server, then the MQTT client and a check. *)
Lemma save_deadlocks_after_initialize_witness :
  ∃ p1,
    checks.bind (checks.record_component_activity ticking_clock "server")
      (λ _, run_calls ticking_clock default_config
              [CallRecord "mqtt_client"; CallCheck])
      (checks.mkProcess empty_module false 0 [])
    = checks.Returns tt p1
    ∧ checks.lock_held p1 = false
    ∧ checks.save_status_to_file ticking_clock default_config true p1
      = checks.Blocks (checks.set_lock true p1)
    ∧ all_blocked ticking_clock default_config (checks.set_lock true p1).
Proof.
  apply (save_deadlocks_after_initialize ticking_clock default_config
           [CallRecord "mqtt_client"; CallCheck]
           (checks.mkProcess empty_module false 0 [])).
  reflexivity.
Defined.

(** ** The database calls of the monitor *)

Lemma bind_positional_too_many {V} (formals : list database.Formal) (args : list V)
    (bound : gmap string V) :
  (length formals < length args)%nat →
  database.bind_positional formals args bound = inl TypeError.
Proof.
  revert formals bound. induction args as [|v args IH]; intros formals bound Hlen.
  - simpl in Hlen. lia.
  - destruct formals as [|f formals]; [reflexivity|]. simpl.
    apply IH. simpl in Hlen. lia.
Qed.

Lemma bind_arguments_too_many {V} (formals : list database.Formal) (args : list V)
    (kwargs : list (string * V)) :
  (length formals < length args)%nat →
  database.bind_arguments formals args kwargs = inl TypeError.
Proof.
  intros Hlen. unfold database.bind_arguments.
  by rewrite bind_positional_too_many.
Qed.

(** X22: a function decorated with [with_connection] cannot be given a
    connection by its caller.  The wrapper puts the connection of the
    thread in front of the arguments it receives, so a call with as many
    positional arguments as the function has parameters (or more) binds
    one argument too many: once the wrapper has its connection, the call
    raises [TypeError] after a rollback, and the body of the function is
    not run, whatever it is and whatever the keyword arguments. *)
Theorem with_connection_takes_no_connection
    (DB R : Type) (rollback : DB → DB) (formals : list database.Formal)
    (func : database.Func DB R) (conn : database.Value)
    (args : list database.Value) (kwargs : list (string * database.Value)) (db : DB) :
  (length formals ≤ length args)%nat →
  database.with_connection DB R rollback formals func (inr conn) args kwargs db
  = (inl (database.Python TypeError), rollback db).
Proof.
  intros Hlen. unfold database.with_connection.
  rewrite bind_arguments_too_many; [reflexivity|]. simpl. lia.
Qed.

Lemma with_connection_takes_no_connection_witness :
  (length database.store_connection_status_formals
   ≤ length [database.Connection 0; database.StatusData 0 ∅])%nat
  ∧ database.with_connection unit Z (λ db, db)
      database.store_connection_status_formals
      (λ _ db, (inr 1, db)) (inr (database.Connection 0))
      [database.Connection 0; database.StatusData 0 ∅] [] tt
    = (inl (database.Python TypeError), tt).
Proof.
  split; [simpl; lia|].
  apply (with_connection_takes_no_connection unit Z (λ db, db)
           database.store_connection_status_formals (λ _ db, (inr 1, db))
           (database.Connection 0)
           [database.Connection 0; database.StatusData 0 ∅] [] tt).
  simpl. lia.
Defined.

(** X23: the status snapshot of the monitor never reaches the body of
    [store_connection_status].  [_store_status_snapshot] gets a
    connection and passes it on, [database.store_connection_status(conn,
    status)], to a function the decorator already gives a connection:
    whatever the registry, the instant, the database and the body of the
    function, either one of the two calls of [get_db_connection] raises,
    or the call raises [TypeError] and the transaction of the thread is
    rolled back; in each case the exception is caught and logged by
    [_store_status_snapshot], and the body has not run. *)
Theorem status_snapshot_is_never_stored
    (DB R : Type) (rollback : DB → DB) (body : database.Func DB R)
    (now : datetime) (m : Monitor)
    (first second : database.Raised + database.Value) (db : DB) :
  database._store_status_snapshot DB R rollback body now m first second db
  = match first, second with
    | inl e, _ => (Some e, db)
    | inr _, inl e => (Some e, db)
    | inr _, inr _ => (Some (database.Python TypeError), rollback db)
    end.
Proof.
  unfold database._store_status_snapshot, database.store_connection_status.
  destruct first as [e|conn]; [reflexivity|].
  destruct second as [e|conn']; [reflexivity|].
  unfold database.with_connection.
  rewrite bind_arguments_too_many; [reflexivity|].
  unfold database.store_connection_status_formals. simpl. lia.
Qed.

Lemma bind_keywords_fresh {V} (formals : list database.Formal)
    (kwargs : list (string * V)) (bound : gmap string V) :
  NoDup (map fst kwargs) →
  (∀ k, k ∈ map fst kwargs → k ∈ map database.f_name formals ∧ bound !! k = None) →
  database.bind_keywords formals kwargs bound = inr (list_to_map kwargs ∪ bound).
Proof.
  revert bound. induction kwargs as [|[k v] kwargs IH]; intros bound Hnd Hk; simpl.
  - by rewrite (left_id_L ∅ (∪)).
  - apply NoDup_cons in Hnd as [Hfresh Hnd].
    destruct (Hk k) as [Hin Hb]; [by left|].
    rewrite bool_decide_eq_true_2 by done. rewrite Hb.
    rewrite IH; [| done |].
    + f_equal. rewrite <- insert_union_l.
      rewrite <- insert_union_r; [done|].
      by apply not_elem_of_list_to_map_1.
    + intros k' Hk'. destruct (Hk k') as [Hin' Hb']; [by right|].
      split; [done|]. rewrite lookup_insert_ne; [done|].
      intros ->. by apply Hfresh.
Qed.

(** X24: called with keyword arguments only, a function decorated with
    [with_connection] runs with the connection of the thread as its first
    parameter and the keywords as the others.  When the keywords are
    distinct names of parameters after the first, and every parameter
    without a default is among them, the body runs on exactly that
    binding; its result is returned, and what it raises is raised again
    after a rollback.  This is the call [_send_notification] makes of
    [add_notification]. *)
Theorem with_connection_passes_keywords
    (DB R : Type) (rollback : DB → DB)
    (first : database.Formal) (others : list database.Formal)
    (func : database.Func DB R) (conn : database.Value)
    (kwargs : list (string * database.Value)) (db : DB) :
  database.f_name first ∉ map database.f_name others →
  NoDup (map fst kwargs) →
  (∀ k, k ∈ map fst kwargs → k ∈ map database.f_name others) →
  (∀ f, f ∈ others → database.f_default f = false →
        database.f_name f ∈ map fst kwargs) →
  database.with_connection DB R rollback (first :: others) func (inr conn) [] kwargs db
  = match func (<[database.f_name first := conn]> (list_to_map kwargs)) db with
    | (inl e, db') => (inl e, rollback db')
    | (inr r, db') => (inr r, db')
    end.
Proof.
  intros Hfirst Hnd Hkeys Hreq.
  unfold database.with_connection, database.bind_arguments. simpl.
  rewrite bind_keywords_fresh; [|done|].
  - assert (Hnone : (list_to_map kwargs : gmap string database.Value)
                    !! database.f_name first = None).
    { apply not_elem_of_list_to_map_1. intros Hin. apply Hfirst. by apply Hkeys. }
    rewrite <- insert_union_r by done. rewrite (right_id_L ∅ (∪)).
    rewrite lookup_insert_eq. rewrite orb_true_r. simpl.
    rewrite (proj2 (forallb_forall _ others)); [reflexivity|].
    intros f Hf%list_elem_of_In.
    destruct (database.f_default f) eqn:Hd; [reflexivity|]. simpl.
    apply bool_decide_eq_true_2.
    destruct (decide (database.f_name f = database.f_name first)) as [->|Hne].
    + rewrite lookup_insert_eq. by eexists.
    + rewrite lookup_insert_ne by done.
      specialize (Hreq f Hf Hd).
      apply list_elem_of_fmap in Hreq as ([k v] & Hk & Hkv). simpl in Hk. subst k.
      exists v. by apply elem_of_list_to_map_1.
  - intros k Hk. split; [right; by apply Hkeys|].
    rewrite lookup_insert_ne; [done|].
    intros <-. apply Hfirst. by apply Hkeys.
Qed.

Lemma with_connection_passes_keywords_witness :
  database.add_notification unit Z (λ db, db) (λ _ db, (inr 1, db))
    (inr (database.Connection 0)) []
    (database.notification_keywords "main_hub" "error" "Main Hub is offline" 0) tt
  = (inr 1, tt).
Proof.
  apply (with_connection_passes_keywords unit Z (λ db, db)
           (database.mkFormal "conn" false)
           (tail database.add_notification_formals)
           (λ _ db, (inr 1, db)) (database.Connection 0)
           (database.notification_keywords "main_hub" "error"
              "Main Hub is offline" 0) tt).
  - simpl. by apply (bool_decide_unpack _).
  - simpl. repeat (apply NoDup_cons_2; [by apply (bool_decide_unpack _)|]).
    apply NoDup_nil_2.
  - simpl. intros k Hk. by repeat (apply elem_of_cons in Hk as [->|Hk];
      [by apply (bool_decide_unpack _)|]); apply elem_of_nil in Hk.
  - simpl. intros f Hf Hd.
    repeat (apply elem_of_cons in Hf as [->|Hf];
      [first [by apply (bool_decide_unpack _) | done]|]).
    by apply elem_of_nil in Hf.
Defined.
